(** * Page-builder content engine of the book editor

    A shallow embedding of the builder utilities ([builderUtils]), the
    selection hook ([useBuilderSelection]) and the drag-and-drop hook
    ([useBuilderDragDrop]), with the properties of the engine stated and
    settled over it.

    The TypeScript code works on the browser's DOM.  The DOM is modelled as
    a tree of nodes in which every element carries an identity [nid] (the
    object reference of the node); a mutation through a reference is an
    update of the tree at that identity, and a loop over a node list is a
    fold of such updates over the snapshot the list is.  A DOM call that
    throws ends the handler with the exception ([Outcome]).

    What the browser itself computes (the HTML parser, the serializer,
    [JSON.parse], the clock and the random generator) is a field of the
    record [Browser]: the code is modelled for every browser, and
    [refBrowser] is one concrete browser on which closed examples are
    evaluated.  The geometry of the page is read from the drag event. *)

From Stdlib Require Import String Ascii List Bool Arith ZArith QArith Qabs Lia.
From Stdlib Require Import DecimalString.
Import ListNotations.
Close Scope Q_scope.
Open Scope string_scope.
Set Warnings "-register-all".

(* ================================================================== *)
(** ** JavaScript strings *)
(* ================================================================== *)

(** The double-quote character, for markup and selectors. *)
Definition dq : string := String "034"%char EmptyString.

(** [s.startsWith(pat)]. *)
Definition startsWith (s pat : string) : bool := prefix pat s.

(** [s.includes(pat)]. *)
Fixpoint includes (s pat : string) : bool :=
  prefix pat s ||
  match s with
  | EmptyString => false
  | String _ s' => includes s' pat
  end.

(** White space and line terminators of the one-byte range, as [trim]
    removes them. *)
Definition isWhiteSpace (c : ascii) : bool :=
  let n := nat_of_ascii c in
  ((9 <=? n) && (n <=? 13) || (n =? 32))%nat.

Fixpoint trimStart (s : string) : string :=
  match s with
  | EmptyString => EmptyString
  | String c s' => if isWhiteSpace c then trimStart s' else s
  end.

Fixpoint trimEnd (s : string) : string :=
  match s with
  | EmptyString => EmptyString
  | String c s' =>
      match trimEnd s' with
      | EmptyString => if isWhiteSpace c then EmptyString else String c EmptyString
      | t => String c t
      end
  end.

(** [s.trim()]. *)
Definition trim (s : string) : string := trimEnd (trimStart s).

(** A JavaScript string is falsy exactly when it is empty. *)
Definition truthy (s : string) : bool :=
  match s with EmptyString => false | _ => true end.

(** [(s.match(/pat/g) || []).length] for a literal pattern: the matches are
    found left to right and do not overlap; [skip] characters of the last
    match are still to be passed over. *)
Fixpoint countMatchesFrom (pat : string) (skip : nat) (s : string) : nat :=
  match s with
  | EmptyString => 0
  | String _ s' =>
      match skip with
      | S k => countMatchesFrom pat k s'
      | O =>
          if prefix pat s
          then S (countMatchesFrom pat (String.length pat - 1) s')
          else countMatchesFrom pat 0 s'
      end
  end.

Definition countMatches (s pat : string) : nat := countMatchesFrom pat 0 s.

Definition lowerChar (c : ascii) : ascii :=
  let n := nat_of_ascii c in
  if ((65 <=? n) && (n <=? 90))%nat then ascii_of_nat (n + 32) else c.

(** [s.toLowerCase()] on the ASCII range. *)
Fixpoint toLowerCase (s : string) : string :=
  match s with
  | EmptyString => EmptyString
  | String c s' => String (lowerChar c) (toLowerCase s')
  end.

Fixpoint dropChars (n : nat) (s : string) : string :=
  match n, s with
  | O, _ => s
  | S k, EmptyString => EmptyString
  | S k, String _ s' => dropChars k s'
  end.

(** [s.replace(pat, rep)] with a string pattern: the first occurrence only. *)
Fixpoint replaceFirst (pat rep s : string) : string :=
  if prefix pat s then rep ++ dropChars (String.length pat) s
  else match s with
       | EmptyString => EmptyString
       | String c s' => String c (replaceFirst pat rep s')
       end.

(** Decimal rendering of a non-negative integer, as a template literal does. *)
Definition numberToString (n : N) : string :=
  NilEmpty.string_of_uint (N.to_uint n).

(** [a || b] on strings. *)
Definition orElse (a b : string) : string := if truthy a then a else b.

(** [list.forEach(body)] over a snapshot list, threading the mutated state. *)
Definition forEach {A S : Type} (l : list A) (body : A -> S -> S) (s : S) : S :=
  fold_left (fun acc a => body a acc) l s.

(* ================================================================== *)
(** ** The DOM *)
(* ================================================================== *)

Definition NodeId := nat.

(** An element node without its children.  [tagName] is upper case, as the
    DOM reports it for HTML elements; [attributes] holds every attribute but
    [style] ([className] and [dataset] are the attributes [class] and
    [data-*]); the declarations of the inline style are kept apart in
    [style], in order, with their values as they were written: the
    browser's rewriting of CSS values is not modelled. *)
Record Element := mkElement {
  nid : NodeId;
  tagName : string;
  attributes : list (string * string);
  style : list (string * string)
}.

Inductive Node :=
| TextNode (data : string)
| ElementNode (el : Element) (childNodes : list Node).

Inductive DOMException := NotFoundError | HierarchyRequestError.

Fixpoint assocGet (k : string) (l : list (string * string)) : option string :=
  match l with
  | [] => None
  | (k', v) :: l' => if k' =? k then Some v else assocGet k l'
  end.

Fixpoint assocSet (k v : string) (l : list (string * string)) : list (string * string) :=
  match l with
  | [] => [(k, v)]
  | (k', v') :: l' => if k' =? k then (k, v) :: l' else (k', v') :: assocSet k v l'
  end.

Definition assocRemove (k : string) (l : list (string * string)) : list (string * string) :=
  filter (fun kv => negb (fst kv =? k)) l.

(** [el.style.<p>], the empty string when the property is not set. *)
Definition getPropertyValue (p : string) (e : Element) : string :=
  match assocGet p (style e) with Some v => v | None => EmptyString end.

(** [el.style.<p> = v] and [el.style.setProperty(p, v)]. *)
Definition setProperty (p v : string) (e : Element) : Element :=
  mkElement (nid e) (tagName e) (attributes e) (assocSet p v (style e)).

(** [el.style.removeProperty(p)]. *)
Definition removeProperty (p : string) (e : Element) : Element :=
  mkElement (nid e) (tagName e) (attributes e) (assocRemove p (style e)).

(** [el.style.cssText = decls]. *)
Definition setCssText (decls : list (string * string)) (e : Element) : Element :=
  mkElement (nid e) (tagName e) (attributes e) decls.

Definition getAttribute (a : string) (e : Element) : option string :=
  assocGet a (attributes e).

Definition hasAttribute (a : string) (e : Element) : bool :=
  match getAttribute a e with Some _ => true | None => false end.

Definition setAttribute (a v : string) (e : Element) : Element :=
  mkElement (nid e) (tagName e) (assocSet a v (attributes e)) (style e).

Definition setNid (i : NodeId) (e : Element) : Element :=
  mkElement i (tagName e) (attributes e) (style e).

(** [document.createElement(tag)] at a fresh identity. *)
Definition createElement (i : NodeId) (tag : string) : Element :=
  mkElement i tag [] [].

Definition childrenOf (n : Node) : list Node :=
  match n with
  | TextNode _ => []
  | ElementNode _ cs => cs
  end.

Definition isNode (i : NodeId) (n : Node) : bool :=
  match n with
  | TextNode _ => false
  | ElementNode e _ => Nat.eqb (nid e) i
  end.

(** The element and its element descendants, in document order. *)
Fixpoint elements (n : Node) : list Element :=
  match n with
  | TextNode _ => []
  | ElementNode e cs => e :: flat_map elements cs
  end.

(** The element descendants of a node, in document order: what
    [querySelectorAll] searches. *)
Definition descendantElements (n : Node) : list Element :=
  flat_map elements (childrenOf n).

Definition querySelectorAll (sel : Element -> bool) (root : Node) : list Element :=
  filter sel (descendantElements root).

Definition querySelector (sel : Element -> bool) (root : Node) : option Element :=
  hd_error (querySelectorAll sel root).

(** [node.textContent]. *)
Fixpoint textContent (n : Node) : string :=
  match n with
  | TextNode s => s
  | ElementNode _ cs => String.concat EmptyString (map textContent cs)
  end.

(** The node a reference denotes, in the tree as it is now. *)
Fixpoint findNode (i : NodeId) (n : Node) : option Node :=
  match n with
  | TextNode _ => None
  | ElementNode e cs =>
      if Nat.eqb (nid e) i then Some n
      else (fix first (l : list Node) : option Node :=
              match l with
              | [] => None
              | c :: l' =>
                  match findNode i c with
                  | Some r => Some r
                  | None => first l'
                  end
              end) cs
  end.

(** A mutation of the node referenced by [i]: the tree with [f] applied
    where that node stands. *)
Fixpoint updateAt (i : NodeId) (f : Node -> Node) (n : Node) : Node :=
  match n with
  | TextNode _ => n
  | ElementNode e cs =>
      if Nat.eqb (nid e) i then f n else ElementNode e (map (updateAt i f) cs)
  end.

(** A mutation of the element data of the node referenced by [i]. *)
Definition onElement (f : Element -> Element) (n : Node) : Node :=
  match n with
  | TextNode _ => n
  | ElementNode e cs => ElementNode (f e) cs
  end.

(** [el.remove()] for the node referenced by [i], seen from an ancestor. *)
Fixpoint removeNode (i : NodeId) (n : Node) : Node :=
  match n with
  | TextNode _ => n
  | ElementNode e cs =>
      ElementNode e
        ((fix go (l : list Node) : list Node :=
            match l with
            | [] => []
            | c :: l' => if isNode i c then go l' else removeNode i c :: go l'
            end) cs)
  end.

Fixpoint firstElementOf (l : list Node) : option Element :=
  match l with
  | [] => None
  | TextNode _ :: l' => firstElementOf l'
  | ElementNode e _ :: _ => Some e
  end.

(** [el.firstElementChild] as a node. *)
Fixpoint firstElementChild (l : list Node) : option Node :=
  match l with
  | [] => None
  | TextNode _ :: l' => firstElementChild l'
  | ElementNode e cs :: _ => Some (ElementNode e cs)
  end.

(** The next element sibling of the node referenced by [i] within one list of
    siblings: [None] when [i] is not in the list. *)
Fixpoint nextElementIn (i : NodeId) (l : list Node) : option (option Element) :=
  match l with
  | [] => None
  | c :: l' => if isNode i c then Some (firstElementOf l') else nextElementIn i l'
  end.

(** [el.nextElementSibling] for the node referenced by [i] below [n]. *)
Fixpoint nextElementSibling (i : NodeId) (n : Node) : option Element :=
  match n with
  | TextNode _ => None
  | ElementNode _ cs =>
      match nextElementIn i cs with
      | Some r => r
      | None =>
          (fix first (l : list Node) : option Element :=
             match l with
             | [] => None
             | c :: l' =>
                 match nextElementSibling i c with
                 | Some r => Some r
                 | None => first l'
                 end
             end) cs
      end
  end.

Fixpoint insertBeforeChild (node : Node) (ref : NodeId) (cs : list Node)
  : option (list Node) :=
  match cs with
  | [] => None
  | c :: cs' =>
      if isNode ref c then Some (node :: c :: cs')
      else option_map (cons c) (insertBeforeChild node ref cs')
  end.

(** [parent.insertBefore(node, child)] for a detached [node].  The DOM
    standard (pre-insertion validity) throws [NotFoundError] when [child] is
    not null and its parent is not [parent]; a null [child] appends. *)
Definition insertBefore (parent node : Node) (child : option NodeId)
  : DOMException + Node :=
  match parent with
  | TextNode _ => inl HierarchyRequestError
  | ElementNode e cs =>
      match child with
      | None => inr (ElementNode e (cs ++ [node]))
      | Some r =>
          match insertBeforeChild node r cs with
          | Some cs' => inr (ElementNode e cs')
          | None => inl NotFoundError
          end
      end
  end.

(** [parent.appendChild(node)] for a detached [node]. *)
Definition appendChild (parent node : Node) : Node :=
  match parent with
  | TextNode _ => parent
  | ElementNode e cs => ElementNode e (cs ++ [node])
  end.

(** [el.innerHTML = ''] and, with parsed nodes, [el.innerHTML = html]. *)
Definition setChildren (cs : list Node) (n : Node) : Node :=
  match n with
  | TextNode _ => n
  | ElementNode e _ => ElementNode e cs
  end.

(** Fresh identities for a tree that was just created (parsed or cloned):
    the elements are numbered in document order from [next]. *)
Fixpoint relabel (n : Node) (next : NodeId) : Node * NodeId :=
  match n with
  | TextNode _ => (n, next)
  | ElementNode e cs =>
      let (cs', k) :=
        (fix go (l : list Node) (k : NodeId) : list Node * NodeId :=
           match l with
           | [] => ([], k)
           | c :: l' =>
               let (c', k1) := relabel c k in
               let (l'', k2) := go l' k1 in
               (c' :: l'', k2)
           end) cs (S next) in
      (ElementNode (setNid next e) cs', k)
  end.

Fixpoint relabelList (l : list Node) (k : NodeId) : list Node * NodeId :=
  match l with
  | [] => ([], k)
  | c :: l' =>
      let (c', k1) := relabel c k in
      let (l'', k2) := relabelList l' k1 in
      (c' :: l'', k2)
  end.

(** [node.cloneNode(true)]: the same tree at fresh identities. *)
Definition cloneNode (n : Node) (next : NodeId) : Node * NodeId := relabel n next.

(** White-space separated tokens of a [class] attribute. *)
Fixpoint tokensFrom (cur : string) (s : string) : list string :=
  match s with
  | EmptyString => if truthy cur then [cur] else []
  | String c s' =>
      if isWhiteSpace c
      then (if truthy cur then cur :: tokensFrom EmptyString s' else tokensFrom EmptyString s')
      else tokensFrom (cur ++ String c EmptyString) s'
  end.

(** The selector [.c]. *)
Definition hasClass (c : string) (e : Element) : bool :=
  match getAttribute "class" e with
  | Some v => existsb (String.eqb c) (tokensFrom EmptyString v)
  | None => false
  end.

(* ================================================================== *)
(** ** The browser *)
(* ================================================================== *)

(** A parsed JSON value, as far as the drop handler looks into it: an
    object, a string, or another value with its truthiness and the string
    it converts to. *)
Inductive JSONValue :=
| JSONObject (fields : list (string * JSONValue))
| JSONString (s : string)
| JSONOther (isTruthy : bool) (asString : string).

(** What the platform computes.  [parseFragment] is the HTML parser behind
    the [innerHTML] setter, [serializeFragment] the serializer behind the
    [innerHTML] and [outerHTML] getters; [JSON_parse] is [None] where
    [JSON.parse] throws; [Date_now k] and [Math_random36 k] are the clock
    and [Math.random().toString(36).substr(2, 9)] at the [k]-th call of
    [generateElementId]. *)
Record Browser := mkBrowser {
  parseFragment : string -> list Node;
  serializeFragment : list Node -> string;
  JSON_parse : string -> option JSONValue;
  Date_now : nat -> N;
  Math_random36 : nat -> string
}.

Definition innerHTML (B : Browser) (n : Node) : string :=
  serializeFragment B (childrenOf n).

Definition outerHTML (B : Browser) (n : Node) : string :=
  serializeFragment B [n].

(** [el.innerHTML = html]: the parsed nodes, at fresh identities. *)
Definition setInnerHTML (B : Browser) (html : string) (n : Node) (next : NodeId)
  : Node * NodeId :=
  let (cs, k) := relabelList (parseFragment B html) next in
  (setChildren cs n, k).

(* ================================================================== *)
(** ** Builder utilities ([builderUtils]) *)
(* ================================================================== *)

(** The identity attribute of a tagged element. *)
Definition ELEMENT_ID : string := "data-element-id".

(** The selector [[data-element-id]]. *)
Definition tagged (e : Element) : bool := hasAttribute ELEMENT_ID e.

(** The selector [[data-element-id="id"]], for an identifier that is free of
    quotes and backslashes (as every generated identifier is). *)
Definition hasElementId (id : string) (e : Element) : bool :=
  match getAttribute ELEMENT_ID e with
  | Some v => v =? id
  | None => false
  end.

(** [generateElementId(prefix, tagName?)] at its [k]-th call. *)
Definition generateElementId (B : Browser) (k : nat) (pre : string)
  (tag : option string) : string :=
  let timestamp := Date_now B k in
  let random := Math_random36 B k in
  let tagPart :=
    match tag with
    | Some t => if truthy t then "-" ++ toLowerCase t else EmptyString
    | None => EmptyString
    end in
  pre ++ tagPart ++ "-" ++ numberToString timestamp ++ "-" ++ random.

(** [hasBuilderElements(content)]. *)
Definition hasBuilderElements (content : string) : bool :=
  includes content ELEMENT_ID.

(** [applyBuilderStyling(element, isImported)].  The computed colour is read
    only when the inline colour is empty, and then the test holds by its
    first disjunct: the inline style decides. *)
Definition applyBuilderStyling (isImported : bool) (e : Element) : Element :=
  let e := setProperty "cursor" "pointer" e in
  let e := setProperty "min-height" "20px" e in
  let e := setProperty "position" "relative" e in
  let currentColor := getPropertyValue "color" e in
  let e :=
    if negb (truthy (getPropertyValue "color" e))
       || (currentColor =? "gray")
       || (currentColor =? "rgb(128, 128, 128)")
       || (currentColor =? "#808080")
    then setProperty "color" "#1f2937" e else e in
  let e :=
    if truthy (getPropertyValue "opacity" e)
       && negb (getPropertyValue "opacity" e =? "1")
    then setProperty "opacity" "1" e else e in
  if isImported then
    let e := setProperty "padding" (orElse (getPropertyValue "padding" e) "10px") e in
    let e := setProperty "margin" (orElse (getPropertyValue "margin" e) "10px 0") e in
    let e := setProperty "border"
               (orElse (getPropertyValue "border" e) "1px dashed transparent") e in
    setProperty "border-radius" "4px" e
  else e.

Definition NON_VISUAL_TAGS : list string :=
  ["SCRIPT"; "STYLE"; "META"; "LINK"; "TITLE"; "BR"].

Definition inList (s : string) (l : list string) : bool := existsb (String.eqb s) l.

Definition attributeTruthy (a : string) (e : Element) : bool :=
  match getAttribute a e with
  | Some v => truthy v
  | None => false
  end.

(** [processElementForBuilder(element)]; [k] counts the identifiers
    generated so far. *)
Fixpoint processElementForBuilder (B : Browser) (n : Node) (k : nat) : Node * nat :=
  match n with
  | TextNode _ => (n, k)
  | ElementNode e cs =>
      if inList (tagName e) NON_VISUAL_TAGS then (n, k)
      else if attributeTruthy ELEMENT_ID e then (n, k)
      else
        let uniqueId := generateElementId B k "imported" (Some (tagName e)) in
        let e1 := setAttribute ELEMENT_ID uniqueId e in
        let e2 := applyBuilderStyling true e1 in
        let (cs', k') :=
          (fix each (l : list Node) (j : nat) : list Node * nat :=
             match l with
             | [] => ([], j)
             | c :: l' =>
                 let (c', j1) := processElementForBuilder B c j in
                 let (l'', j2) := each l' j1 in
                 (c' :: l'', j2)
             end) cs (S k) in
        (ElementNode e2 cs', k')
  end.

(** [Array.from(el.children).forEach(processElementForBuilder)]. *)
Fixpoint processChildren (B : Browser) (l : list Node) (k : nat) : list Node * nat :=
  match l with
  | [] => ([], k)
  | c :: l' =>
      let (c', k1) := processElementForBuilder B c k in
      let (l'', k2) := processChildren B l' k1 in
      (c' :: l'', k2)
  end.

Record ProcessedContent := mkProcessed {
  html : string;
  wasAlreadyProcessed : bool;
  elementCount : nat
}.

(** The empty-canvas block returned for blank content. *)
Definition PLACEHOLDER : string :=
  "<div style=" ++ dq
  ++ "padding: 40px; text-align: center; color: #6b7280; font-style: italic;"
  ++ dq
  ++ ">Start building your layout by dragging elements from the sidebar</div>".

Definition BLOCK_TAGS : list string :=
  ["DIV"; "P"; "H1"; "H2"; "H3"; "H4"; "H5"; "H6"; "UL"; "OL"; "LI";
   "BLOCKQUOTE"; "TABLE"; "FIGURE"].

Definition isBlockTag (e : Element) : bool := inList (tagName e) BLOCK_TAGS.

(** [processContentForBuilder(content)]; [k] counts the identifiers generated
    before the call, and the count after it is returned with the result. *)
Definition processContentForBuilder (B : Browser) (content : string) (k : nat)
  : ProcessedContent * nat :=
  if negb (truthy (trim content)) then
    (mkProcessed PLACEHOLDER false 0, k)
  else if hasBuilderElements content then
    (mkProcessed content true (countMatches content ELEMENT_ID), k)
  else
    let (tempDiv, next) :=
      setInnerHTML B content (ElementNode (createElement 0 "DIV") []) 1 in
    let hasOnlyTextAndInlineElements :=
      match querySelector isBlockTag tempDiv with
      | Some _ => false
      | None => true
      end in
    let hasContent :=
      (0 <? String.length (textContent tempDiv))%nat
      || includes (innerHTML B tempDiv) "<" in
    if hasOnlyTextAndInlineElements && hasContent then
      let (wrapper0, _) :=
        setInnerHTML B content (ElementNode (createElement next "DIV") []) (S next) in
      let wrapper :=
        onElement
          (fun e =>
             applyBuilderStyling true
               (setAttribute ELEMENT_ID
                  (generateElementId B k "imported-content" None) e))
          wrapper0 in
      (mkProcessed (outerHTML B wrapper) false 1, S k)
    else
      let (cs, k') := processChildren B (childrenOf tempDiv) k in
      let tempDiv' := setChildren cs tempDiv in
      (mkProcessed (innerHTML B tempDiv') false
         (List.length (querySelectorAll tagged tempDiv')), k').


(* ================================================================== *)
(** ** Selection styling ([builderUtils]) *)
(* ================================================================== *)

Definition SELECTION_OUTLINE : string := "2px solid #f97316".
Definition SELECTION_OFFSET : string := "2px".
Definition SELECTION_SHADOW : string := "0 0 0 4px rgba(249, 115, 22, 0.1)".

Definition HANDLE_CLASS : string := "image-resize-handle".

(** The selector [.image-resize-handle]. *)
Definition isResizeHandle (e : Element) : bool := hasClass HANDLE_CLASS e.

Definition isImg (e : Element) : bool := tagName e =? "IMG".

(** [element.tagName === 'IMG' || element.querySelector('img') !== null]. *)
Definition isImage (n : Node) : bool :=
  match n with
  | TextNode _ => false
  | ElementNode e _ =>
      isImg e ||
      match querySelector isImg n with
      | Some _ => true
      | None => false
      end
  end.

(** [removeImageResizeHandles(element)]. *)
Definition removeImageResizeHandles (n : Node) : Node :=
  let handles := querySelectorAll isResizeHandle n in
  forEach handles (fun handle cur => removeNode (nid handle) cur) n.

Record HandleSpec := mkHandle {
  h_position : string;
  h_cursor : string;
  h_top : option string;
  h_bottom : option string;
  h_left : option string;
  h_right : option string
}.

Definition HANDLES : list HandleSpec :=
  [ mkHandle "nw" "nw-resize" (Some "-6px") None (Some "-6px") None;
    mkHandle "ne" "ne-resize" (Some "-6px") None None (Some "-6px");
    mkHandle "sw" "sw-resize" None (Some "-6px") (Some "-6px") None;
    mkHandle "se" "se-resize" None (Some "-6px") None (Some "-6px") ].

Definition optionalDeclaration (p : string) (v : option string)
  : list (string * string) :=
  match v with
  | Some x => [(p, x)]
  | None => []
  end.

(** One corner handle: the [div] that [addImageResizeHandles] creates. *)
Definition handleElement (i : NodeId) (h : HandleSpec) : Node :=
  ElementNode
    (setCssText
       ([("position", "absolute"); ("width", "12px"); ("height", "12px");
         ("background-color", "#f97316"); ("border", "2px solid white");
         ("border-radius", "50%"); ("cursor", h_cursor h); ("z-index", "1000");
         ("box-shadow", "0 2px 4px rgba(0,0,0,0.3)"); ("pointer-events", "auto")]
        ++ optionalDeclaration "top" (h_top h)
        ++ optionalDeclaration "bottom" (h_bottom h)
        ++ optionalDeclaration "left" (h_left h)
        ++ optionalDeclaration "right" (h_right h))
       (setAttribute "data-handle" (h_position h)
          (setAttribute "class" HANDLE_CLASS (createElement i "DIV"))))
    [].

(** [addImageResizeHandles(element)]; the four handles are created at the
    identities [fresh], ..., [fresh + 3]. *)
Definition addImageResizeHandles (fresh : NodeId) (n : Node) : Node :=
  let n := removeImageResizeHandles n in
  let n :=
    onElement
      (fun e =>
         let originalPosition := getPropertyValue "position" e in
         if negb (truthy originalPosition) || (originalPosition =? "static")
         then setProperty "position" "relative" e else e) n in
  forEach (combine (seq fresh 4) HANDLES)
    (fun ih cur => appendChild cur (handleElement (fst ih) (snd ih))) n.

(** [applySelectionStyling(element)]. *)
Definition applySelectionStyling (fresh : NodeId) (n : Node) : Node :=
  let n :=
    onElement
      (fun e =>
         setProperty "box-shadow" SELECTION_SHADOW
           (setProperty "outline-offset" SELECTION_OFFSET
              (setProperty "outline" SELECTION_OUTLINE e))) n in
  if isImage n then addImageResizeHandles fresh n else n.

(** [removeSelectionStyling(element)]. *)
Definition removeSelectionStyling (n : Node) : Node :=
  let n :=
    onElement
      (fun e =>
         setProperty "outline-offset" "0px"
           (setProperty "box-shadow" "none"
              (setProperty "outline" "none" e))) n in
  if isImage n then removeImageResizeHandles n else n.

(** [clearAllSelections(container)]. *)
Definition clearAllSelections (container : Node) : Node :=
  let allElements := querySelectorAll tagged container in
  forEach allElements (fun el cur => updateAt (nid el) removeSelectionStyling cur)
    container.

(** An element carries selection styling when one of the three properties
    has the value [applySelectionStyling] gives it. *)
Definition carriesSelectionStyling (e : Element) : bool :=
  (getPropertyValue "outline" e =? SELECTION_OUTLINE)
  || (getPropertyValue "outline-offset" e =? SELECTION_OFFSET)
  || (getPropertyValue "box-shadow" e =? SELECTION_SHADOW).

(** It is fully selected when all three have. *)
Definition fullySelected (e : Element) : bool :=
  (getPropertyValue "outline" e =? SELECTION_OUTLINE)
  && (getPropertyValue "outline-offset" e =? SELECTION_OFFSET)
  && (getPropertyValue "box-shadow" e =? SELECTION_SHADOW).

(* ================================================================== *)
(** ** The state of the builder *)
(* ================================================================== *)

Record ElementSelection := mkSelection {
  selectedElementId : option string;
  selectedElement : option NodeId
}.

Record DragDropState := mkDragState {
  draggedElementType : option string;
  draggedElementId : option string
}.

(** The callbacks the drag-and-drop hook is given. *)
Inductive Callback :=
| OnContentUpdate (content : string)
| OnRefreshListeners
| OnElementSelect (id : string).

(** What a handler does to the outside: a callback it invokes, a timer it
    sets with the callbacks the timer will invoke, the payload it puts on
    the drag.  Console output is not recorded. *)
Inductive Effect :=
| Invoke (c : Callback)
| SetTimeout (delay : nat) (cs : list Callback)
| SetData (payload : string).

(** [contentRef] is [contentRef.current], [None] while the container is not
    mounted; [nextNode] is the first identity no node has yet; [generated]
    counts the calls of [generateElementId]; [effects] lists what the
    handlers did, latest last. *)
Record World := mkWorld {
  contentRef : option Node;
  nextNode : NodeId;
  generated : nat;
  selection : ElementSelection;
  dragState : DragDropState;
  effects : list Effect
}.

Definition withContent (c : Node) (w : World) : World :=
  mkWorld (Some c) (nextNode w) (generated w) (selection w) (dragState w) (effects w).

Definition withNextNode (k : NodeId) (w : World) : World :=
  mkWorld (contentRef w) k (generated w) (selection w) (dragState w) (effects w).

Definition withGenerated (k : nat) (w : World) : World :=
  mkWorld (contentRef w) (nextNode w) k (selection w) (dragState w) (effects w).

(** [setSelection(s)]. *)
Definition setSelection (s : ElementSelection) (w : World) : World :=
  mkWorld (contentRef w) (nextNode w) (generated w) s (dragState w) (effects w).

(** [setDragState(d)]. *)
Definition setDragState (d : DragDropState) (w : World) : World :=
  mkWorld (contentRef w) (nextNode w) (generated w) (selection w) d (effects w).

Definition emit (x : Effect) (w : World) : World :=
  mkWorld (contentRef w) (nextNode w) (generated w) (selection w) (dragState w)
    (effects w ++ [x]).

(* ================================================================== *)
(** ** The selection hook ([useBuilderSelection]) *)
(* ================================================================== *)

(** [getSelectedElement()]. *)
Definition getSelectedElement (w : World) : option Element :=
  match selectedElementId (selection w), contentRef w with
  | Some id, Some c =>
      if truthy id then querySelector (hasElementId id) c else None
  | _, _ => None
  end.

(** [clearAllVisualSelections()]. *)
Definition clearAllVisualSelections (w : World) : World :=
  match contentRef w with
  | Some c => withContent (clearAllSelections c) w
  | None => w
  end.

(** [selectElement(elementId)]. *)
Definition selectElement (elementId : option string) (w : World) : World :=
  let w := clearAllVisualSelections w in
  let newSelection := mkSelection elementId None in
  match elementId, contentRef w with
  | Some id, Some c =>
      if truthy id then
        match querySelector (hasElementId id) c with
        | Some element =>
            let c' := updateAt (nid element) (applySelectionStyling (nextNode w)) c in
            setSelection (mkSelection elementId (Some (nid element)))
              (withNextNode (nextNode w + 4) (withContent c' w))
        | None => setSelection newSelection w
        end
      else setSelection newSelection w
  | _, _ => setSelection newSelection w
  end.

(** [clearSelection()]. *)
Definition clearSelection (w : World) : World := selectElement None w.

(* ================================================================== *)
(** ** The drag-and-drop hook ([useBuilderDragDrop]) *)
(* ================================================================== *)

Record ElementLibraryItem := mkItem {
  item_id : string;
  item_title : string;
  item_template : string
}.

(** [getBoundingClientRect()], as far as the hook reads it. *)
Record DOMRect := mkRect {
  rect_top : Q;
  rect_height : Q
}.

(** A drag event as a handler sees it: the pointer's [clientY], the payload
    [dataTransfer.getData('text/plain')], and the bounding rectangle the
    browser has laid out for each node at that moment.  Coordinates are
    exact rationals; the rounding of floating point is not modelled. *)
Record DragEvent := mkDragEvent {
  clientY : Q;
  transferData : string;
  layout : NodeId -> DOMRect
}.

(** How a handler ends: it returns, or a DOM call throws out of it. *)
Inductive Outcome (A : Type) :=
| Returned (a : A) (w : World)
| Thrown (exn : DOMException) (w : World).
Arguments Returned {A} a w.
Arguments Thrown {A} exn w.

Definition worldOf {A : Type} (o : Outcome A) : World :=
  match o with
  | Returned _ w => w
  | Thrown _ w => w
  end.

Definition stripSelectionProperties (e : Element) : Element :=
  removeProperty "box-shadow" (removeProperty "outline-offset" (removeProperty "outline" e)).

(** The body of [saveCleanContent] up to the serialization: the deep clone
    with the selection properties removed from its tagged elements. *)
Definition cleanClone (c : Node) (next : NodeId) : Node * NodeId :=
  let (tempContainer, next') := cloneNode c next in
  let elementsWithSelection := querySelectorAll tagged tempContainer in
  (forEach elementsWithSelection
     (fun el cur => updateAt (nid el) (onElement stripSelectionProperties) cur)
     tempContainer,
   next').

(** [saveCleanContent()]. *)
Definition saveCleanContent (B : Browser) (w : World) : World :=
  match contentRef w with
  | None => w
  | Some c =>
      let (tempContainer, next') := cleanClone c (nextNode w) in
      let cleanContent := innerHTML B tempContainer in
      emit (Invoke (OnContentUpdate cleanContent)) (withNextNode next' w)
  end.

(** [handleDragStart(e, elementType)].  The drag image lives in
    [document.body], outside the container, and is not modelled. *)
Definition handleDragStart (elementType : string) (w : World) : World :=
  let w := emit (SetData elementType) w in
  setDragState (mkDragState (Some elementType) (draggedElementId (dragState w))) w.

(** [handleExistingElementDragStart(e, elementId)]; [hasDataTransfer] is
    whether [e.dataTransfer] is there. *)
Definition handleExistingElementDragStart (hasDataTransfer : bool)
  (elementId : string) (w : World) : World :=
  if negb hasDataTransfer || negb (truthy elementId) then w
  else
    let w := emit (SetData ("existing:" ++ elementId)) w in
    let w := setDragState
               (mkDragState (draggedElementType (dragState w)) (Some elementId)) w in
    match contentRef w with
    | Some c =>
        match querySelector (hasElementId elementId) c with
        | Some element =>
            withContent
              (updateAt (nid element) (onElement (setProperty "opacity" "0.7")) c) w
        | None => w
        end
    | None => w
    end.

Definition PLACEHOLDER_MARK : string := "Start Building Your Layout".

(** The check for the first element and the append that follows it, shared
    by [createNewElement] and [createImageElement]. *)
Definition placeOnCanvas (B : Browser) (c newElement : Node) : Node :=
  let existingElements := querySelectorAll tagged c in
  let c :=
    if Nat.eqb (List.length existingElements) 0
       || includes (innerHTML B c) PLACEHOLDER_MARK
    then setChildren [] c else c in
  appendChild c newElement.

(** [createNewElement(elementType)]. *)
Definition createNewElement (B : Browser) (elementLibrary : list ElementLibraryItem)
  (elementType : string) (w : World) : bool * World :=
  let template :=
    option_map item_template
      (find (fun el => item_id el =? elementType) elementLibrary) in
  match template, contentRef w with
  | Some template, Some c =>
      if negb (truthy template) then (false, w)
      else
        let uniqueId := generateElementId B (generated w) "element" None in
        let w := withGenerated (S (generated w)) w in
        let (tempDiv, next) :=
          setInnerHTML B template
            (ElementNode (createElement (nextNode w) "DIV") []) (S (nextNode w)) in
        let w := withNextNode next w in
        match firstElementChild (childrenOf tempDiv) with
        | None => (false, w)
        | Some newElement =>
            let newElement :=
              onElement
                (fun e => applyBuilderStyling false (setAttribute ELEMENT_ID uniqueId e))
                newElement in
            let w := withContent (placeOnCanvas B c newElement) w in
            let w := saveCleanContent B w in
            let w := emit (SetTimeout 50 [OnRefreshListeners; OnElementSelect uniqueId]) w in
            (true, w)
        end
  | _, _ => (false, w)
  end.

Definition Qltb (x y : Q) : bool := negb (Qle_bool y x).

(** [distance < minDistance], where [None] stands for [Infinity]. *)
Definition closerThan (distance : Q) (minDistance : option Q) : bool :=
  match minDistance with
  | None => true
  | Some m => Qltb distance m
  end.

Definition elementMiddle (e : DragEvent) (element : Element) : Q :=
  let rect := layout e (nid element) in
  (rect_top rect + rect_height rect / 2)%Q.

Definition distanceTo (e : DragEvent) (element : Element) : Q :=
  Qabs (clientY e - elementMiddle e element)%Q.

(** One round of the loop of [findInsertPosition] on the pair
    [(insertBefore, minDistance)]. *)
Definition scanElement (e : DragEvent) (element : Element)
  (acc : option Element * option Q) : option Element * option Q :=
  let dropY := clientY e in
  let distance := distanceTo e element in
  if closerThan distance (snd acc) then
    (if Qltb dropY (elementMiddle e element) then Some element else None,
     Some distance)
  else acc.

(** [findInsertPosition(e)]. *)
Definition findInsertPosition (e : DragEvent) (w : World) : option Element :=
  match contentRef w with
  | None => None
  | Some c =>
      let allElements := querySelectorAll tagged c in
      fst (forEach allElements (scanElement e) (None, None))
  end.

Definition sameNode (a b : option NodeId) : bool :=
  match a, b with
  | Some x, Some y => Nat.eqb x y
  | None, None => true
  | _, _ => false
  end.

(** [reorderElement(elementId, insertBefore)], called with an element or
    null.  The moved element is taken out of the container before the
    insertion is attempted, as in the source. *)
Definition reorderElement (B : Browser) (elementId : string)
  (insertBefore_ : option NodeId) (w : World) : Outcome bool :=
  match contentRef w with
  | None => Returned false w
  | Some c =>
      match querySelector (hasElementId elementId) c with
      | None => Returned false w
      | Some element =>
          if sameNode insertBefore_
               (option_map nid (nextElementSibling (nid element) c))
          then Returned false w
          else
            let c :=
              updateAt (nid element)
                (onElement
                   (fun e => stripSelectionProperties (setProperty "opacity" "1" e))) c in
            let moved :=
              match findNode (nid element) c with
              | Some n => n
              | None => ElementNode element []
              end in
            let c := removeNode (nid element) c in
            let inserted :=
              match insertBefore_ with
              | Some r => insertBefore c moved (Some r)
              | None => inr (appendChild c moved)
              end in
            match inserted with
            | inl exn => Thrown exn (withContent c w)
            | inr c =>
                let c := updateAt (nid element) (onElement (applyBuilderStyling false)) c in
                let w := withContent c w in
                let w := saveCleanContent B w in
                let w := emit (Invoke OnRefreshListeners) w in
                let w := emit (SetTimeout 50 [OnElementSelect elementId]) w in
                Returned true w
            end
      end
  end.

(** [createImageElement(imageUrl)]. *)
Definition createImageElement (B : Browser) (imageUrl : string) (w : World)
  : bool * World :=
  match contentRef w with
  | None => (false, w)
  | Some c =>
      let uniqueId := generateElementId B (generated w) "element" None in
      let w := withGenerated (S (generated w)) w in
      let figure :=
        setCssText [("margin", "24px 0"); ("text-align", "center")]
          (setAttribute ELEMENT_ID uniqueId (createElement (nextNode w) "FIGURE")) in
      let img :=
        setCssText
          [("max-width", "100%"); ("height", "auto"); ("border-radius", "8px");
           ("box-shadow", "0 4px 6px -1px rgba(0, 0, 0, 0.1)")]
          (setAttribute "alt" "Uploaded image"
             (setAttribute "src" imageUrl (createElement (nextNode w + 1) "IMG"))) in
      let figcaption :=
        setCssText
          [("margin-top", "8px"); ("font-size", "14px"); ("color", "#64748b");
           ("font-style", "italic")]
          (createElement (nextNode w + 2) "FIGCAPTION") in
      let w := withNextNode (nextNode w + 3) w in
      let figureNode :=
        ElementNode (applyBuilderStyling false figure)
          [ElementNode img [];
           ElementNode figcaption [TextNode "Image caption goes here"]] in
      let w := withContent (placeOnCanvas B c figureNode) w in
      let w := saveCleanContent B w in
      let w := emit (SetTimeout 50 [OnRefreshListeners; OnElementSelect uniqueId]) w in
      (true, w)
  end.

Definition isDropIndicator (e : Element) : bool := hasClass "drop-indicator" e.

(** The removal of the drop indicators that opens [handleDrop],
    [handleDragOver] and [handleDragEnd]. *)
Definition removeDropIndicators (c : Node) : Node :=
  let indicators := querySelectorAll isDropIndicator c in
  forEach indicators (fun indicator cur => removeNode (nid indicator) cur) c.

Definition clearedDragState : DragDropState := mkDragState None None.

Definition jsonField (k : string) (v : JSONValue) : option JSONValue :=
  match v with
  | JSONObject fields =>
      (fix lookup (l : list (string * JSONValue)) : option JSONValue :=
         match l with
         | [] => None
         | (k', x) :: l' => if k' =? k then Some x else lookup l'
         end) fields
  | _ => None
  end.

(** [parsedData.type === 'image' && parsedData.imageUrl], with the URL
    when it holds. *)
Definition imagePayload (parsedData : JSONValue) : option string :=
  match jsonField "type" parsedData, jsonField "imageUrl" parsedData with
  | Some (JSONString "image"), Some (JSONString url) =>
      if truthy url then Some url else None
  | Some (JSONString "image"), Some (JSONOther true url) => Some url
  | Some (JSONString "image"), Some (JSONObject _) => Some "[object Object]"
  | _, _ => None
  end.

(** [handleDrop(e)]. *)
Definition handleDrop (B : Browser) (elementLibrary : list ElementLibraryItem)
  (e : DragEvent) (w : World) : Outcome unit :=
  let w :=
    match contentRef w with
    | Some c => withContent (removeDropIndicators c) w
    | None => w
    end in
  let data := transferData e in
  let finish (w : World) : Outcome unit :=
    Returned tt (setDragState clearedDragState w) in
  if truthy data && startsWith data "existing:" then
    let elementId := replaceFirst "existing:" EmptyString data in
    if truthy elementId then
      let insertBefore_ := findInsertPosition e w in
      match reorderElement B elementId (option_map nid insertBefore_) w with
      | Thrown exn w' => Thrown exn w'
      | Returned success w' => finish w'
      end
    else finish w
  else if truthy data then
    if startsWith data "{"
       && includes data (dq ++ "type" ++ dq)
       && includes data (dq ++ "image" ++ dq)
    then
      match JSON_parse B data with
      | Some parsedData =>
          match imagePayload parsedData with
          | Some imageUrl => finish (snd (createImageElement B imageUrl w))
          | None => finish (snd (createNewElement B elementLibrary data w))
          end
      | None => finish (snd (createNewElement B elementLibrary data w))
      end
    else finish (snd (createNewElement B elementLibrary data w))
  else finish w.

(** The line [handleDragOver] draws where the element would go. *)
Definition dropIndicator (i : NodeId) : Node :=
  ElementNode
    (setCssText
       [("height", "2px"); ("background", "#f97316"); ("margin", "4px 0");
        ("border-radius", "1px"); ("position", "relative");
        ("pointer-events", "none"); ("animation", "pulse 1s infinite")]
       (setAttribute "class" "drop-indicator" (createElement i "DIV")))
    [].

(** [handleDragOver(e)]. *)
Definition handleDragOver (e : DragEvent) (w : World) : Outcome unit :=
  match draggedElementId (dragState w) with
  | Some id =>
      if truthy id then
        match contentRef w with
        | Some c =>
            let c := removeDropIndicators c in
            let w := withContent c w in
            let insertBefore_ := findInsertPosition e w in
            let indicator := dropIndicator (nextNode w) in
            let w := withNextNode (S (nextNode w)) w in
            match insertBefore_ with
            | Some r =>
                match insertBefore c indicator (Some (nid r)) with
                | inl exn => Thrown exn w
                | inr c' => Returned tt (withContent c' w)
                end
            | None => Returned tt (withContent (appendChild c indicator) w)
            end
        | None => Returned tt w
        end
      else Returned tt w
  | None => Returned tt w
  end.

(** [handleDragEnd()]. *)
Definition handleDragEnd (w : World) : World :=
  let w :=
    match contentRef w with
    | Some c =>
        let c := removeDropIndicators c in
        let elements_ := querySelectorAll tagged c in
        withContent
          (forEach elements_
             (fun element cur =>
                updateAt (nid element)
                  (onElement
                     (fun e => applyBuilderStyling false (setProperty "opacity" "1" e)))
                  cur) c) w
    | None => w
    end in
  setDragState clearedDragState w.

(* ================================================================== *)
(** ** Materialization ([useBuilderContent]) *)
(* ================================================================== *)

(** The builder with its container mounted and still empty. *)
Definition mountedWorld : World :=
  mkWorld (Some (ElementNode (createElement 0 "DIV") [])) 1 0
    (mkSelection None None) clearedDragState [].

(** The builder before its container is mounted. *)
Definition unmountedWorld : World :=
  mkWorld None 0 0 (mkSelection None None) clearedDragState [].

(** [contentRef.current.innerHTML = html], as the content hook materializes
    a page. *)
Definition materialize (B : Browser) (html_ : string) (w : World) : World :=
  match contentRef w with
  | Some c =>
      let (c', next) := setInnerHTML B html_ c (nextNode w) in
      withNextNode next (withContent c' w)
  | None => w
  end.
(* ================================================================== *)
(** ** A reference browser *)
(* ================================================================== *)

(** A small browser on which closed examples are evaluated.  Its parser
    reads well-formed markup (tags, quoted or bare attribute values, text,
    void elements) and its serializer writes it back; entities, comments,
    implied end tags and raw-text elements are left out. *)

Definition VOID_TAGS : list string :=
  ["AREA"; "BASE"; "BR"; "COL"; "EMBED"; "HR"; "IMG"; "INPUT"; "LINK"; "META";
   "SOURCE"; "TRACK"; "WBR"].

Definition upperChar (c : ascii) : ascii :=
  let n := nat_of_ascii c in
  if ((97 <=? n) && (n <=? 122))%nat then ascii_of_nat (n - 32) else c.

Fixpoint toUpperCase (s : string) : string :=
  match s with
  | EmptyString => EmptyString
  | String c s' => String (upperChar c) (toUpperCase s')
  end.

Definition snoc (s : string) (c : ascii) : string := s ++ String c EmptyString.

Definition serializeAttribute (kv : string * string) : string :=
  " " ++ fst kv ++ "=" ++ dq ++ snd kv ++ dq.

Definition serializeDeclaration (kv : string * string) : string :=
  fst kv ++ ": " ++ snd kv ++ ";".

Definition serializeStyle (decls : list (string * string)) : string :=
  match decls with
  | [] => EmptyString
  | _ => " style=" ++ dq ++ String.concat " " (map serializeDeclaration decls) ++ dq
  end.

Definition startTag (e : Element) : string :=
  "<" ++ toLowerCase (tagName e)
  ++ String.concat EmptyString (map serializeAttribute (attributes e))
  ++ serializeStyle (style e) ++ ">".

Fixpoint refSerializeNode (n : Node) : string :=
  match n with
  | TextNode s => s
  | ElementNode e cs =>
      if inList (tagName e) VOID_TAGS then startTag e
      else startTag e
           ++ String.concat EmptyString (map refSerializeNode cs)
           ++ "</" ++ toLowerCase (tagName e) ++ ">"
  end.

Definition refSerialize (l : list Node) : string :=
  String.concat EmptyString (map refSerializeNode l).

Inductive Token :=
| TokText (s : string)
| TokOpen (tag : string) (attrs : list (string * string))
| TokClose (tag : string).

Inductive LexState :=
| LexData (acc : string)
| LexTagOpen
| LexOpenName (name : string)
| LexCloseName (name : string)
| LexBeforeAttr (tag : string) (attrs : list (string * string))
| LexAttrName (tag : string) (attrs : list (string * string)) (a : string)
| LexValueStart (tag : string) (attrs : list (string * string)) (a : string)
| LexValueQuoted (tag : string) (attrs : list (string * string)) (a v : string)
| LexValueBare (tag : string) (attrs : list (string * string)) (a v : string).

Definition isChar (c : ascii) (n : nat) : bool := Nat.eqb (nat_of_ascii c) n.

Definition textToken (acc : string) : list Token :=
  if truthy acc then [TokText acc] else [].

Fixpoint lex (st : LexState) (s : string) : list Token :=
  match s with
  | EmptyString =>
      match st with
      | LexData acc => textToken acc
      | _ => []
      end
  | String c s' =>
      match st with
      | LexData acc =>
          if isChar c 60 then textToken acc ++ lex LexTagOpen s'
          else lex (LexData (snoc acc c)) s'
      | LexTagOpen =>
          if isChar c 47 then lex (LexCloseName EmptyString) s'
          else lex (LexOpenName (String c EmptyString)) s'
      | LexOpenName name =>
          if isChar c 62 then TokOpen name [] :: lex (LexData EmptyString) s'
          else if isWhiteSpace c || isChar c 47 then lex (LexBeforeAttr name []) s'
          else lex (LexOpenName (snoc name c)) s'
      | LexCloseName name =>
          if isChar c 62 then TokClose name :: lex (LexData EmptyString) s'
          else lex (LexCloseName (snoc name c)) s'
      | LexBeforeAttr tag attrs =>
          if isChar c 62 then TokOpen tag attrs :: lex (LexData EmptyString) s'
          else if isWhiteSpace c || isChar c 47 then lex (LexBeforeAttr tag attrs) s'
          else lex (LexAttrName tag attrs (String c EmptyString)) s'
      | LexAttrName tag attrs a =>
          if isChar c 61 then lex (LexValueStart tag attrs a) s'
          else if isChar c 62
          then TokOpen tag (attrs ++ [(a, EmptyString)]) :: lex (LexData EmptyString) s'
          else if isWhiteSpace c
          then lex (LexBeforeAttr tag (attrs ++ [(a, EmptyString)])) s'
          else lex (LexAttrName tag attrs (snoc a c)) s'
      | LexValueStart tag attrs a =>
          if isChar c 34 then lex (LexValueQuoted tag attrs a EmptyString) s'
          else if isChar c 62
          then TokOpen tag (attrs ++ [(a, EmptyString)]) :: lex (LexData EmptyString) s'
          else lex (LexValueBare tag attrs a (String c EmptyString)) s'
      | LexValueQuoted tag attrs a v =>
          if isChar c 34 then lex (LexBeforeAttr tag (attrs ++ [(a, v)])) s'
          else lex (LexValueQuoted tag attrs a (snoc v c)) s'
      | LexValueBare tag attrs a v =>
          if isChar c 62
          then TokOpen tag (attrs ++ [(a, v)]) :: lex (LexData EmptyString) s'
          else if isWhiteSpace c then lex (LexBeforeAttr tag (attrs ++ [(a, v)])) s'
          else lex (LexValueBare tag attrs a (snoc v c)) s'
      end
  end.

(** Splits at every occurrence of the character with code [sep]. *)
Fixpoint splitAt (sep : nat) (cur : string) (s : string) : list string :=
  match s with
  | EmptyString => [cur]
  | String c s' =>
      if isChar c sep then cur :: splitAt sep EmptyString s'
      else splitAt sep (snoc cur c) s'
  end.

(** One declaration [prop: value] of a [style] attribute. *)
Definition parseDeclaration (d : string) : list (string * string) :=
  match splitAt 58 EmptyString d with
  | p :: v :: rest =>
      if truthy (trim p)
      then [(trim p, trim (String.concat ":" (v :: rest)))]
      else []
  | _ => []
  end.

Definition parseStyle (v : string) : list (string * string) :=
  flat_map parseDeclaration (splitAt 59 EmptyString v).

Definition lowerKey (kv : string * string) : string * string :=
  (toLowerCase (fst kv), snd kv).

Definition elementOfTag (tag : string) (attrs : list (string * string)) : Element :=
  let attrs := map lowerKey attrs in
  mkElement 0 (toUpperCase tag)
    (filter (fun kv => negb (fst kv =? "style")) attrs)
    (match assocGet "style" attrs with
     | Some v => parseStyle v
     | None => []
     end).

(** The stack of open elements, innermost first, each with the children
    read so far (latest first). *)
Definition OpenElements := list (Element * list Node).

Definition addChild (n : Node) (stack : OpenElements) (top : list Node)
  : OpenElements * list Node :=
  match stack with
  | [] => ([], n :: top)
  | (e, cs) :: rest => ((e, n :: cs) :: rest, top)
  end.

Definition popElement (stack : OpenElements) (top : list Node)
  : OpenElements * list Node :=
  match stack with
  | [] => ([], top)
  | (e, cs) :: rest => addChild (ElementNode e (rev cs)) rest top
  end.

Fixpoint isOpen (tag : string) (stack : OpenElements) : bool :=
  match stack with
  | [] => false
  | (e, _) :: rest => (tagName e =? tag) || isOpen tag rest
  end.

(** Closes the open elements down to the innermost one named [tag]. *)
Fixpoint closeTo (tag : string) (stack : OpenElements) (top : list Node)
  (fuel : nat) : OpenElements * list Node :=
  match fuel, stack with
  | S f, (e, cs) :: rest =>
      if tagName e =? tag then popElement stack top
      else let (stack', top') := popElement stack top in closeTo tag stack' top' f
  | _, _ => (stack, top)
  end.

Fixpoint closeAll (stack : OpenElements) (top : list Node) (fuel : nat) : list Node :=
  match fuel, stack with
  | S f, _ :: _ => let (stack', top') := popElement stack top in closeAll stack' top' f
  | _, _ => rev top
  end.

Fixpoint buildTree (toks : list Token) (stack : OpenElements) (top : list Node)
  : list Node :=
  match toks with
  | [] => closeAll stack top (List.length stack)
  | TokText s :: toks' =>
      let (stack', top') := addChild (TextNode s) stack top in
      buildTree toks' stack' top'
  | TokOpen tag attrs :: toks' =>
      let e := elementOfTag tag attrs in
      if inList (tagName e) VOID_TAGS
      then let (stack', top') := addChild (ElementNode e []) stack top in
           buildTree toks' stack' top'
      else buildTree toks' ((e, []) :: stack) top
  | TokClose tag :: toks' =>
      if isOpen (toUpperCase tag) stack
      then let (stack', top') := closeTo (toUpperCase tag) stack top (List.length stack) in
           buildTree toks' stack' top'
      else buildTree toks' stack top
  end.

Definition refParse (s : string) : list Node :=
  buildTree (lex (LexData EmptyString) s) [] [].

(** The fields of a flat JSON object of strings, read from the pieces
    between its quotes: [{], key, [:], value, [,], key, [:], value, [}]. *)
Fixpoint jsonFields (pieces : list string) (fuel : nat)
  : option (list (string * JSONValue)) :=
  match fuel, pieces with
  | S f, k :: colon :: v :: sep :: rest =>
      if trim colon =? ":" then
        if trim sep =? "}" then
          match rest with
          | [] => Some [(k, JSONString v)]
          | _ => None
          end
        else if trim sep =? "," then
          option_map (cons (k, JSONString v)) (jsonFields rest f)
        else None
      else None
  | _, _ => None
  end.

Definition refJSONParse (s : string) : option JSONValue :=
  match splitAt 34 EmptyString s with
  | open :: rest =>
      if trim open =? "{"
      then option_map JSONObject (jsonFields rest (List.length rest))
      else None
  | [] => None
  end.

Definition refBrowser : Browser :=
  mkBrowser refParse refSerialize refJSONParse
    (fun k => (1700000000000 + N.of_nat k)%N)
    (fun k => "r" ++ numberToString (N.of_nat k)).


(* ================================================================== *)
(** ** Notions the properties are stated with *)
(* ================================================================== *)

(** The string has a character that [trim] keeps. *)
Fixpoint hasVisibleChar (s : string) : bool :=
  match s with
  | EmptyString => false
  | String c s' => negb (isWhiteSpace c) || hasVisibleChar s'
  end.

(** The elements of a list of sibling nodes, in document order. *)
Definition forestElements (l : list Node) : list Element := flat_map elements l.
Arguments forestElements : simpl never.

(** The tagged elements of a parsed fragment. *)
Definition taggedIn (l : list Node) : list Element := filter tagged (forestElements l).


(** A paragraph whose text is the name of the identity attribute. *)
Definition MARKED_TEXT : string :=
  "<p " ++ ELEMENT_ID ++ "=" ++ dq ++ "a" ++ dq ++ ">" ++ ELEMENT_ID ++ "</p>".

(** A paragraph that is not tagged, with the name of the identity
    attribute as the value of its [title]. *)
Definition MARKED_TITLE : string :=
  "<p title=" ++ dq ++ ELEMENT_ID ++ dq ++ ">x</p>".

(** [normalize(x)] of the specification, at the [k]-th identifier. *)
Definition normalize (B : Browser) (k : nat) (x : string) : ProcessedContent :=
  fst (processContentForBuilder B x k).

(** [removeNode] on a list of siblings. *)
Fixpoint removeNodeList (i : NodeId) (l : list Node) : list Node :=
  match l with
  | [] => []
  | c :: l' => if isNode i c then removeNodeList i l' else removeNode i c :: removeNodeList i l'
  end.

(** The identities of the elements of a list of siblings. *)
Definition forestIds (l : list Node) : list NodeId := map nid (forestElements l).

(** Every node of the tree is referenced by one identity only. *)
Definition uniqueIds (n : Node) : Prop := NoDup (map nid (elements n)).

(** [l] is [k] with some entries left out. *)
Inductive subseq {A : Type} : list A -> list A -> Prop :=
| subseq_nil : subseq [] []
| subseq_keep (x : A) (l k : list A) : subseq l k -> subseq (x :: l) (x :: k)
| subseq_drop (x : A) (l k : list A) : subseq l k -> subseq l (x :: k).

(** Two snapshots of the same element: the identity, the tag and the
    attributes agree, the inline style may differ. *)
Definition sameIdentity (a b : Element) : Prop :=
  nid a = nid b /\ tagName a = tagName b /\ attributes a = attributes b.

(** A mutation of one node that keeps what the node is, establishes [P] on
    it, and below it only takes nodes out or adds nodes for which [R]
    holds. *)
Definition gentle (P R : Element -> Prop) (f : Node -> Node) : Prop :=
  forall (e : Element) (cs : list Node),
  exists (e' : Element) (cs' : list Node) (kept added : list Element),
    f (ElementNode e cs) = ElementNode e' cs'
    /\ sameIdentity e' e /\ P e'
    /\ forestElements cs' = (kept ++ added)%list
    /\ subseq kept (forestElements cs)
    /\ Forall R added.

(** The element has none of the three selection properties. *)
Definition freeOfSelectionProperties (e : Element) : Prop :=
  getPropertyValue "outline" e = EmptyString
  /\ getPropertyValue "outline-offset" e = EmptyString
  /\ getPropertyValue "box-shadow" e = EmptyString.

(** The tagged elements of the container that carry selection styling. *)
Definition selectedElements (c : Node) : list Element :=
  filter carriesSelectionStyling (querySelectorAll tagged c).

(* ================================================================== *)
(** ** Scenes for the closed examples *)
(* ================================================================== *)

Definition taggedParagraph (id styleText body : string) : string :=
  "<p " ++ ELEMENT_ID ++ "=" ++ dq ++ id ++ dq
  ++ " style=" ++ dq ++ styleText ++ dq ++ ">" ++ body ++ "</p>".

(** Two paragraphs [a] and [b], one below the other. *)
Definition TWO_PARAGRAPHS : string :=
  taggedParagraph "a" "color: #111827" "A" ++ taggedParagraph "b" "color: #111827" "B".

Definition twoParagraphs : World := materialize refBrowser TWO_PARAGRAPHS mountedWorld.

(** The same paragraphs, both carrying the selection outline by mistake. *)
Definition TWO_OUTLINED : string :=
  taggedParagraph "a" "outline: 2px solid #f97316" "A"
  ++ taggedParagraph "b" "outline: 2px solid #f97316; outline-offset: 2px" "B".

Definition twoOutlined : World := materialize refBrowser TWO_OUTLINED mountedWorld.

(** A figure [f] with an image, and a paragraph [b]. *)
Definition FIGURE_AND_PARAGRAPH : string :=
  "<figure " ++ ELEMENT_ID ++ "=" ++ dq ++ "f" ++ dq ++ "><img src=" ++ dq ++ "u.png"
  ++ dq ++ "></figure>" ++ taggedParagraph "b" "color: #111827" "B".

Definition figureAndParagraph : World :=
  materialize refBrowser FIGURE_AND_PARAGRAPH mountedWorld.

(** A list [u] whose two items [x] and [y] are tagged as well, as the
    normalizer tags nested structure. *)
Definition NESTED_LIST : string :=
  "<ul " ++ ELEMENT_ID ++ "=" ++ dq ++ "u" ++ dq ++ ">"
  ++ "<li " ++ ELEMENT_ID ++ "=" ++ dq ++ "x" ++ dq ++ ">X</li>"
  ++ "<li " ++ ELEMENT_ID ++ "=" ++ dq ++ "y" ++ dq ++ ">Y</li></ul>".

Definition nestedList : World := materialize refBrowser NESTED_LIST mountedWorld.

(** A layout that stacks the nodes 1, 2, 3, ... in rows 100 high: node [i]
    spans from [100 (i - 1)] to [100 i]. *)
Definition rows (i : NodeId) : DOMRect :=
  mkRect (inject_Z (100 * (Z.of_nat i - 1))) 100.

(** The list item [y] lies inside the list [u]: the list spans 0 to 200,
    its items [x] and [y] the upper and the lower half. *)
Definition nestedRows (i : NodeId) : DOMRect :=
  match i with
  | 1 => mkRect 0 200
  | 2 => mkRect 0 100
  | 3 => mkRect 100 100
  | _ => mkRect 0 0
  end.

(** The element children of the container: its top-level elements. *)
Definition topLevelElements (c : Node) : list Element :=
  flat_map (fun n => match n with
                     | ElementNode e _ => [e]
                     | TextNode _ => []
                     end) (childrenOf c).



(** A library with the paragraph of the builder's element library. *)
Definition PARAGRAPH_TEMPLATE : string :=
  "<p style=" ++ dq ++ "color: #374151; line-height: 1.7" ++ dq
  ++ ">Write your paragraph content here.</p>".

Definition LIBRARY : list ElementLibraryItem :=
  [mkItem "paragraph" "Paragraph" PARAGRAPH_TEMPLATE].

(** The nodes [tempDiv.innerHTML = template] creates. *)
Definition templateNodes (B : Browser) (template : string) (next : NodeId) : list Node :=
  fst (relabelList (parseFragment B template) next).

(** The template [createNewElement] looks up for an element type. *)
Definition templateOf (elementLibrary : list ElementLibraryItem) (elementType : string)
  : option string :=
  option_map item_template (find (fun el => item_id el =? elementType) elementLibrary).

(** The content updates among the effects of a handler. *)
Definition contentUpdates (l : list Effect) : list string :=
  flat_map (fun x => match x with
                     | Invoke (OnContentUpdate s) => [s]
                     | _ => []
                     end) l.

(* ================================================================== *)
(** ** Notions for the further properties *)
(* ================================================================== *)

(** The base styling [handleDragEnd] re-applies: the element is fully
    opaque and has the affordances of [applyBuilderStyling]. *)
Definition restoredAfterDrag (e : Element) : Prop :=
  getPropertyValue "opacity" e = "1"
  /\ getPropertyValue "cursor" e = "pointer"
  /\ getPropertyValue "min-height" e = "20px"
  /\ getPropertyValue "position" e = "relative".

(** The drop indicators below the container. *)
Definition dropIndicators (c : Node) : list Element :=
  querySelectorAll isDropIndicator c.

(** The payload [handleExistingElementDragStart] puts on a drag. *)
Definition reorderPayload (elementId : string) : string := "existing:" ++ elementId.

(** The world after the removal of drop indicators that opens [handleDrop]. *)
Definition withoutIndicators (w : World) : World :=
  match contentRef w with
  | Some c => withContent (removeDropIndicators c) w
  | None => w
  end.

From Stdlib Require Import Permutation DecimalN Nnat.

(** [findNode] on a list of siblings. *)
Fixpoint findNodeList (i : NodeId) (l : list Node) : option Node :=
  match l with
  | [] => None
  | c :: l' =>
      match findNode i c with
      | Some r => Some r
      | None => findNodeList i l'
      end
  end.


(** The test [handleDrop] makes before it tries [JSON.parse]. *)
Definition looksLikeImagePayload (data : string) : bool :=
  startsWith data "{"
  && includes data (dq ++ "type" ++ dq)
  && includes data (dq ++ "image" ++ dq).

(** What is on the canvas when an element is placed: nothing of a canvas
    without a tagged element or with the placeholder text, else all of
    it. *)
Definition keptOnCanvas (B : Browser) (c : Node) : list Node :=
  if Nat.eqb (List.length (querySelectorAll tagged c)) 0
     || includes (innerHTML B c) PLACEHOLDER_MARK
  then [] else childrenOf c.

(** The payload of a drop is an image for the browser [B]. *)
Definition imageOf (B : Browser) (data : string) : option string :=
  if looksLikeImagePayload data then
    match JSON_parse B data with
    | Some parsedData => imagePayload parsedData
    | None => None
    end
  else None.

(** What the normalizer may change of an element [e]: its style and its
    identity attribute; and nothing at all of an element that has an
    identifier or is not visual. *)
Definition importedFrom (e e' : Element) : Prop :=
  nid e' = nid e
  /\ tagName e' = tagName e
  /\ (forall a, (ELEMENT_ID =? a) = false -> getAttribute a e' = getAttribute a e)
  /\ (attributeTruthy ELEMENT_ID e = true -> e' = e)
  /\ (inList (tagName e) NON_VISUAL_TAGS = true -> e' = e).

(** An element the normalizer has to tag: visual and without identifier. *)
Definition freshForImport (e : Element) : bool :=
  negb (inList (tagName e) NON_VISUAL_TAGS) && negb (attributeTruthy ELEMENT_ID e).

(** The identifiers generated from the [k]-th call on for the elements of
    [l], one after the other. *)
Fixpoint importedIds (B : Browser) (k : nat) (l : list Element) : list (option string) :=
  match l with
  | [] => []
  | e :: l' =>
      Some (generateElementId B k "imported" (Some (tagName e)))
      :: importedIds B (S k) l'
  end.

(** The nodes [tempDiv.innerHTML = content] creates in
    [processContentForBuilder]. *)
Definition importedNodes (B : Browser) (content : string) : list Node :=
  fst (relabelList (parseFragment B content) 1).

(** The tree with [F] applied to every element. *)
Fixpoint mapElements (F : Element -> Element) (n : Node) : Node :=
  match n with
  | TextNode _ => n
  | ElementNode e cs => ElementNode (F e) (map (mapElements F) cs)
  end.

(** The tree with [F] applied to every element below the root. *)
Definition mapDescendants (F : Element -> Element) (n : Node) : Node :=
  match n with
  | TextNode _ => n
  | ElementNode e cs => ElementNode e (map (mapElements F) cs)
  end.

(** A tagged element without the three selection properties; an untagged
    element as it is. *)
Definition cleanedElement (e : Element) : Element :=
  if tagged e then stripSelectionProperties e else e.

(** What the rounds of a loop [l.forEach(el => g(el))] make of an element
    [x], each round changing the element it refers to. *)
Definition afterRounds (g : Element -> Element) (l : list Element) (x : Element)
  : Element :=
  fold_left (fun y el => if Nat.eqb (nid y) (nid el) then g y else y) l x.

(** The four corner handles made at the identities [fresh], ...,
    [fresh + 3]. *)
Definition cornerHandles (fresh : NodeId) : list Node :=
  map (fun ih => handleElement (fst ih) (snd ih)) (combine (seq fresh 4) HANDLES).

(** The resize handles below an element. *)
Definition resizeHandles (n : Node) : list Element := querySelectorAll isResizeHandle n.

(* ================================================================== *)
(** ** Page numbers ([BuilderCanvas]) *)
(* ================================================================== *)

(** [PageNumberSettings['format']]; [OtherFormat] is a value outside the
    declared union, which [formatPageNumber] sends to its default case. *)
Inductive PageNumberFormat :=
| Numeric
| RomanLower
| RomanUpper
| AlphaLower
| AlphaUpper
| OtherFormat (name : string).

Definition ROMAN_VALUES : list nat :=
  [1000; 900; 500; 400; 100; 90; 50; 40; 10; 9; 5; 4; 1]%nat.

Definition ROMAN_SYMBOLS : list string :=
  ["M"; "CM"; "D"; "CD"; "C"; "XC"; "L"; "XL"; "X"; "IX"; "V"; "IV"; "I"].

(** [while (num >= value) { result += symbol; num -= value; }], for at
    most [fuel] rounds. *)
Fixpoint whileAtLeast (fuel value : nat) (symbol : string) (num : nat)
  (result : string) : nat * string :=
  match fuel with
  | O => (num, result)
  | S fuel' =>
      if (value <=? num)%nat
      then whileAtLeast fuel' value symbol (num - value) (result ++ symbol)
      else (num, result)
  end.

(** The [for] loop of [toRoman] over the table; every [while] is given
    [num] rounds, which is as many as it can make with a value above 0. *)
Fixpoint romanFrom (table : list (nat * string)) (num : nat) (result : string) : string :=
  match table with
  | [] => result
  | (value, symbol) :: table' =>
      let (num', result') := whileAtLeast num value symbol num result in
      romanFrom table' num' result'
  end.

(** [toRoman(num)]. *)
Definition toRoman (num : nat) : string :=
  romanFrom (combine ROMAN_VALUES ROMAN_SYMBOLS) num EmptyString.

Definition LETTERS : string := "ABCDEFGHIJKLMNOPQRSTUVWXYZ".

(** [letters[i]] in a string concatenation. *)
Definition letterAt (i : nat) : string :=
  match String.get i LETTERS with
  | Some c => String c EmptyString
  | None => "undefined"
  end.

(** The [while (num > 0)] loop of [toAlpha], for at most [fuel] rounds. *)
Fixpoint alphaLoop (fuel num : nat) (result : string) : string :=
  match fuel with
  | O => result
  | S fuel' =>
      if (0 <? num)%nat then
        let num := (num - 1)%nat in
        let result := letterAt (num mod 26) ++ result in
        alphaLoop fuel' (num / 26) result
      else result
  end.

(** [toAlpha(num)]. *)
Definition toAlpha (num : nat) : string := alphaLoop num num EmptyString.

(** [formatPageNumber(pageNum, format)]. *)
Definition formatPageNumber (pageNum : nat) (format : PageNumberFormat) : string :=
  match format with
  | RomanLower => toLowerCase (toRoman pageNum)
  | RomanUpper => toRoman pageNum
  | AlphaLower => toLowerCase (toAlpha pageNum)
  | AlphaUpper => toAlpha pageNum
  | Numeric | OtherFormat _ => numberToString (N.of_nat pageNum)
  end.

(** The fields of [bookSettings.pageNumbers] that the label is made of. *)
Record PageNumberSettings := mkPageNumbers {
  enabled : bool;
  format : PageNumberFormat;
  prefix_ : option string;
  suffix_ : option string
}.

Definition optionalText (s : option string) : string :=
  match s with
  | Some x => x
  | None => EmptyString
  end.

(** [getPageNumberDisplay()]. *)
Definition getPageNumberDisplay (pageNumbers : PageNumberSettings)
  (currentPageNumber : nat) : string :=
  if negb (enabled pageNumbers) then EmptyString
  else
    let formattedNumber := formatPageNumber currentPageNumber (format pageNumbers) in
    optionalText (prefix_ pageNumbers) ++ formattedNumber
    ++ optionalText (suffix_ pageNumbers).

(** *** Reading a label back *)







(* ================================================================== *)
(** ** The content hook ([useBuilderContent]) *)
(* ================================================================== *)

Record Page := mkPage {
  page_id : string;
  page_number : nat;
  page_content : string;
  page_wordCount : nat
}.

(** Dates are milliseconds since the epoch. *)
Record BookMetadata := mkMetadata {
  createdAt : N;
  updatedAt : N;
  totalPages : nat;
  totalWords : nat;
  language : string;
  genre : option string
}.

(** A book; the hook does not look into its settings, whose type is left
    open. *)
Record Book (Settings : Type) := mkBook {
  book_id : string;
  book_title : string;
  book_author : string;
  book_content : string;
  pages : list Page;
  metadata : BookMetadata;
  settings : option Settings
}.

Arguments mkBook {Settings}.
Arguments book_id {Settings}.
Arguments book_title {Settings}.
Arguments book_author {Settings}.
Arguments book_content {Settings}.
Arguments pages {Settings}.
Arguments metadata {Settings}.
Arguments settings {Settings}.

(** What the hook does to the outside: a call of [onSave], and the timer
    that clears [isUpdatingFromBuilderRef]. *)
Inductive HookEffect (Settings : Type) :=
| OnSave (updatedBook : Book Settings)
| ClearUpdatingAfter (delay : nat).

Arguments OnSave {Settings}.
Arguments ClearUpdatingAfter {Settings}.

(** The props [book] and [currentPageIndex], the state [pageContent], the
    flag [isUpdatingFromBuilderRef.current], and what the hook has done,
    latest last. *)
Record ContentHook (Settings : Type) := mkContentHook {
  book : Book Settings;
  currentPageIndex : nat;
  pageContent : string;
  isUpdatingFromBuilder : bool;
  hookEffects : list (HookEffect Settings)
}.

Arguments mkContentHook {Settings}.
Arguments book {Settings}.
Arguments currentPageIndex {Settings}.
Arguments pageContent {Settings}.
Arguments isUpdatingFromBuilder {Settings}.
Arguments hookEffects {Settings}.

(** [{ ...page, content }]. *)
Definition withPageContent (content : string) (page : Page) : Page :=
  mkPage (page_id page) (page_number page) content (page_wordCount page).

(** [{ ...book, pages: updatedPages }]. *)
Definition withPages {Settings : Type} (updatedPages : list Page)
  (b : Book Settings) : Book Settings :=
  mkBook (book_id b) (book_title b) (book_author b) (book_content b) updatedPages
    (metadata b) (settings b).

(** [array.map((x, index) => f(x, index))], from [index] on. *)
Fixpoint mapWithIndex {A B : Type} (f : A -> nat -> B) (l : list A) (index : nat)
  : list B :=
  match l with
  | [] => []
  | x :: l' => f x index :: mapWithIndex f l' (S index)
  end.

(** [updateContent(content)]. *)
Definition updateContent {Settings : Type} (content : string)
  (h : ContentHook Settings) : ContentHook Settings :=
  let updatedPages :=
    mapWithIndex
      (fun page index =>
         if Nat.eqb index (currentPageIndex h) then withPageContent content page
         else page)
      (pages (book h)) 0 in
  let updatedBook := withPages updatedPages (book h) in
  mkContentHook (book h) (currentPageIndex h) content true
    (hookEffects h ++ [OnSave updatedBook; ClearUpdatingAfter 50])%list.

(** [updateContentFromDOM()]. *)
Definition updateContentFromDOM {Settings : Type} (B : Browser)
  (hw : ContentHook Settings * World) : ContentHook Settings * World :=
  let (h, w) := hw in
  match contentRef w with
  | Some c =>
      let (tempContainer, next') := cleanClone c (nextNode w) in
      let newContent := innerHTML B tempContainer in
      (updateContent newContent h, withNextNode next' w)
  | None => (h, w)
  end.

(** The element the three editing functions work on: the one with the
    identifier when a truthy identifier is given, else the first element
    that the selector on the outline in the [style] attribute matches;
    [outlined] is that selector, as the browser evaluates it. *)
Definition targetElement (outlined : Element -> bool) (elementId : option string)
  (c : Node) : option Element :=
  match elementId with
  | Some id =>
      if truthy id then querySelector (hasElementId id) c
      else querySelector outlined c
  | None => querySelector outlined c
  end.

(** [deleteElement(elementId)]. *)
Definition deleteElement {Settings : Type} (B : Browser) (outlined : Element -> bool)
  (elementId : option string) (hw : ContentHook Settings * World)
  : ContentHook Settings * World :=
  let (h, w) := hw in
  match contentRef w with
  | None => (h, w)
  | Some c =>
      match targetElement outlined elementId c with
      | Some target =>
          updateContentFromDOM B (h, withContent (removeNode (nid target) c) w)
      | None => (h, w)
      end
  end.

Definition TEXT_TAGS : list string := ["P"; "DIV"; "H1"; "H2"; "H3"; "H4"; "H5"; "H6"].

(** [el.textContent = text]. *)
Definition setTextContent (text : string) (n : Node) : Node :=
  setChildren (if truthy text then [TextNode text] else []) n.

(** [updateElementContent(content, elementId)]. *)
Definition updateElementContent {Settings : Type} (B : Browser)
  (outlined : Element -> bool) (content : string) (elementId : option string)
  (hw : ContentHook Settings * World) : ContentHook Settings * World :=
  let (h, w) := hw in
  match contentRef w with
  | None => (h, w)
  | Some c =>
      match targetElement outlined elementId c with
      | None => (h, w)
      | Some target =>
          let w :=
            if tagName target =? "IMG" then
              withContent (updateAt (nid target) (onElement (setAttribute "src" content)) c) w
            else if inList (tagName target) TEXT_TAGS
                    || (includes content "<" && includes content ">") then
              withNextNode (snd (relabelList (parseFragment B content) (nextNode w)))
                (withContent
                   (updateAt (nid target)
                      (fun n => fst (setInnerHTML B content n (nextNode w))) c) w)
            else
              withContent (updateAt (nid target) (setTextContent content) c) w in
          updateContentFromDOM B (h, w)
      end
  end.



(** [handleElementDelete()] of the [Builder] component; [deleteElement]
    treats the empty identifier as it treats [undefined]. *)
Definition handleElementDelete {Settings : Type} (B : Browser)
  (outlined : Element -> bool) (hw : ContentHook Settings * World)
  : ContentHook Settings * World :=
  let (h, w) := deleteElement B outlined (selectedElementId (selection (snd hw))) hw in
  (h, clearSelection w).

(** The books handed to [onSave], latest last. *)
Definition savedBooks {Settings : Type} (l : list (HookEffect Settings))
  : list (Book Settings) :=
  flat_map (fun x => match x with
                     | OnSave b => [b]
                     | ClearUpdatingAfter _ => []
                     end) l.

(** A book of one page with the given content, open at that page. *)
Definition onePage (content : string) : ContentHook unit :=
  mkContentHook
    (mkBook "b" "T" "A" EmptyString [mkPage "p1" 1 content 2]
       (mkMetadata 0 0 1 2 "en" None) None)
    0 content false [].

(** The contents of the current page in the books handed to [onSave]. *)
Definition savedContents {Settings : Type} (h : ContentHook Settings) : list string :=
  flat_map (fun b => match nth_error (pages b) (currentPageIndex h) with
                     | Some page => [page_content page]
                     | None => []
                     end)
    (savedBooks (hookEffects h)).



(* ================================================================== *)
(** ** Editor utilities ([editorUtils]) *)
(* ================================================================== *)

(** [hasBuilderContent(content)]. *)
Definition hasBuilderContent (content : string) : bool :=
  includes content ELEMENT_ID.

Definition GRAY_COLORS : list string := ["gray"; "#6b7280"; "#9ca3af"; "#d1d5db"].

(** One round of the loop of [applyTextStyling], on an element below the
    container. *)
Definition styleText (e : Element) : Element :=
  let e := setProperty "color" "#111827" e in
  let e := setProperty "opacity" "1" e in
  let e :=
    if inList (getPropertyValue "color" e) GRAY_COLORS
    then setProperty "color" "#111827" e else e in
  setAttribute "contenteditable" "true" e.


(** [while (tempDiv.firstChild) container.appendChild(tempDiv.firstChild)],
    for at most [fuel] rounds; appending a child moves it. *)
Fixpoint moveChildren (fuel : nat) (tempDiv container : Node) : Node * Node :=
  match fuel with
  | O => (tempDiv, container)
  | S fuel' =>
      match childrenOf tempDiv with
      | [] => (tempDiv, container)
      | firstChild :: rest =>
          moveChildren fuel' (setChildren rest tempDiv) (appendChild container firstChild)
      end
  end.

(** [setSafeHTMLContent(container, content)]; the loop is given as many
    rounds as [tempDiv] has children. *)
Definition setSafeHTMLContent (B : Browser) (container : Node) (content : string)
  (next : NodeId) : Node * NodeId :=
  if hasBuilderContent content then
    let tempDiv := ElementNode (createElement next "DIV") [] in
    let (tempDiv, next') := setInnerHTML B content tempDiv (S next) in
    let container := setChildren [] container in
    (snd (moveChildren (List.length (childrenOf tempDiv)) tempDiv container), next')
  else
    setInnerHTML B content container next.

(** The tree without the identities of its nodes. *)
Definition withoutIdentities (n : Node) : Node := mapElements (setNid 0) n.

(* ================================================================== *)
(** ** The hover handlers of [attachEventListeners] *)
(* ================================================================== *)

(** [handleMouseEnter] of the element the listener was added to. *)
Definition handleMouseEnter (htmlElement : Element) : Element :=
  if negb (includes (getPropertyValue "outline" htmlElement) "solid") then
    setProperty "outline-offset" "1px"
      (setProperty "outline" "1px dashed #f97316" htmlElement)
  else htmlElement.

(** [handleMouseLeave] of the same element. *)
Definition handleMouseLeave (htmlElement : Element) : Element :=
  if includes (getPropertyValue "outline" htmlElement) "dashed" then
    setProperty "outline" "none" htmlElement
  else htmlElement.

Inductive HoverEvent := MouseEnter | MouseLeave.

Definition hover (ev : HoverEvent) (htmlElement : Element) : Element :=
  match ev with
  | MouseEnter => handleMouseEnter htmlElement
  | MouseLeave => handleMouseLeave htmlElement
  end.

(** The element after the pointer events [evs] on it, in their order. *)
Definition hovered (evs : list HoverEvent) (htmlElement : Element) : Element :=
  fold_left (fun x ev => hover ev x) evs htmlElement.

(* ================================================================== *)
(** ** Identifiers for elements typed in the editor
       ([processExistingDOMContent] of [useBuilderContent]) *)
(* ================================================================== *)

Definition MANUAL_BLOCK_TAGS : list string :=
  ["DIV"; "P"; "H1"; "H2"; "H3"; "H4"; "H5"; "H6"; "BLOCKQUOTE"; "UL"; "OL"; "LI";
   "TABLE"; "FIGURE"; "IMG"].

(** The ancestors of the node referenced by [i] inside [n], outermost
    first; what [closest] walks through, upwards. *)
Fixpoint ancestorsOf (i : NodeId) (n : Node) : option (list Element) :=
  match n with
  | TextNode _ => None
  | ElementNode e cs =>
      if Nat.eqb (nid e) i then Some []
      else
        match (fix inside (l : list Node) : option (list Element) :=
                 match l with
                 | [] => None
                 | c :: l' =>
                     match ancestorsOf i c with
                     | Some p => Some p
                     | None => inside l'
                     end
                 end) cs with
        | Some p => Some (e :: p)
        | None => None
        end
  end.

(** [ancestorsOf] among siblings. *)
Fixpoint ancestorsOfList (i : NodeId) (l : list Node) : option (list Element) :=
  match l with
  | [] => None
  | c :: l' =>
      match ancestorsOf i c with
      | Some p => Some p
      | None => ancestorsOfList i l'
      end
  end.

(** The identifier made at the [k]-th round that adds one: [random5 k] is
    [Math.random().toString(36).substr(2, 5)] there. *)
Definition manualId (B : Browser) (random5 : nat -> string) (k : nat) (tag : string)
  : string :=
  "manual-" ++ toLowerCase tag ++ "-" ++ numberToString (Date_now B k) ++ "-" ++ random5 k.

(** One round of the loop of [processExistingDOMContent], on the container
    and [addedIds].  The element is looked at as it is in the container
    now; [closest] sees the container and what is below it (no ancestor
    of the container is tagged). *)
Definition processExistingElement (B : Browser) (random5 : nat -> string)
  (element : Element) (st : Node * nat) : Node * nat :=
  let (c, addedIds) := st in
  match findNode (nid element) c with
  | Some (ElementNode htmlElement below) =>
      if inList (tagName htmlElement) NON_VISUAL_TAGS then st
      else if hasAttribute ELEMENT_ID htmlElement then st
      else if match ancestorsOf (nid element) c with
              | Some p => existsb tagged p
              | None => false
              end
      then st
      else
        let isBlockElement := inList (tagName htmlElement) MANUAL_BLOCK_TAGS in
        let hasContent :=
          truthy (trim (textContent (ElementNode htmlElement below)))
          || (tagName htmlElement =? "IMG") in
        if isBlockElement && hasContent then
          let elementId := manualId B random5 addedIds (tagName htmlElement) in
          (updateAt (nid element) (onElement (setAttribute ELEMENT_ID elementId)) c,
           S addedIds)
        else st
  | _ => st
  end.

(** [processExistingDOMContent()]. *)
Definition processExistingDOMContent (B : Browser) (random5 : nat -> string)
  (w : World) : bool * World :=
  match contentRef w with
  | None => (false, w)
  | Some c =>
      let allElements := querySelectorAll (fun _ => true) c in
      let (c', addedIds) :=
        forEach allElements (processExistingElement B random5) (c, 0%nat) in
      ((0 <? addedIds)%nat, withContent c' w)
  end.

(** The same round on the changes made so far to the elements of the
    container [c0] the loop started on. *)
Definition decideElement (B : Browser) (random5 : nat -> string) (c0 : Node)
  (element : Element) (st : (Element -> Element) * nat) : (Element -> Element) * nat :=
  let (G, addedIds) := st in
  match findNode (nid element) c0 with
  | Some (ElementNode x0 below) =>
      if inList (tagName x0) NON_VISUAL_TAGS then st
      else if hasAttribute ELEMENT_ID (G x0) then st
      else if match ancestorsOf (nid element) c0 with
              | Some p => existsb tagged (map G p)
              | None => false
              end
      then st
      else if inList (tagName x0) MANUAL_BLOCK_TAGS
              && (truthy (trim (textContent (ElementNode x0 below)))
                  || (tagName x0 =? "IMG"))
      then
        (fun x =>
           if Nat.eqb (nid x) (nid element)
           then setAttribute ELEMENT_ID (manualId B random5 addedIds (tagName x0)) (G x)
           else G x,
         S addedIds)
      else st
  | _ => st
  end.

(** What the pass may do to an element [x]: give it an identifier when
    it has none and is visual; an element of the container that has an
    identifier, or is not visual, stays as it is. *)
Definition manuallyTagged (x x' : Element) : Prop :=
  x' = x
  \/ (tagged x = false
      /\ inList (tagName x) NON_VISUAL_TAGS = false
      /\ inList (tagName x) MANUAL_BLOCK_TAGS = true
      /\ exists v, x' = setAttribute ELEMENT_ID v x).

(** Changes that keep the identity and the tag of every element. *)
Definition roundsKeep (G : Element -> Element) : Prop :=
  (forall x, nid (G x) = nid x) /\ (forall x, tagName (G x) = tagName x).

(** The rounds over a list of references. *)
Definition decideAll (B : Browser) (random5 : nat -> string) (c0 : Node)
  (l : list Element) (st : (Element -> Element) * nat) : (Element -> Element) * nat :=
  forEach l (decideElement B random5 c0) st.

(** A tagged paragraph [a] with a bold word, a block typed in the editor
    that holds a paragraph, and a blank paragraph. *)
Definition TYPED_CONTENT : string :=
  "<p " ++ ELEMENT_ID ++ "=" ++ dq ++ "a" ++ dq ++ "><b>A</b></p>"
  ++ "<div><p>typed</p></div><p> </p>".

Definition typedContent : World := materialize refBrowser TYPED_CONTENT mountedWorld.

(* ================================================================== *)
(** ** Event listeners ([useBuilderContent]) *)
(* ================================================================== *)

Definition isLowerLetter (c : ascii) : bool :=
  let n := nat_of_ascii c in ((97 <=? n) && (n <=? 122))%nat.

Definition isUpperLetter (c : ascii) : bool :=
  let n := nat_of_ascii c in ((65 <=? n) && (n <=? 90))%nat.

(** [s.replace(/([a-z])([A-Z])/g, '$1-$2')]: the matches are found left to
    right, and the search goes on behind a match. *)
Fixpoint dashBeforeCapitals (s : string) : string :=
  match s with
  | EmptyString => EmptyString
  | String a rest =>
      match rest with
      | EmptyString => String a EmptyString
      | String b rest' =>
          if isLowerLetter a && isUpperLetter b
          then String a (String "-" (String b (dashBeforeCapitals rest')))
          else String a (dashBeforeCapitals rest)
      end
  end.

(** The conversion of a camel-case property name to the name of the CSS
    property. *)
Definition cssPropertyName (property : string) : string :=
  toLowerCase (dashBeforeCapitals property).

(** [importantStyles]: the four style properties read off the element
    before it is cloned, under the names the object gives them. *)
Definition importantStyles (htmlElement : Element) : list (string * string) :=
  [("opacity", getPropertyValue "opacity" htmlElement);
   ("outline", getPropertyValue "outline" htmlElement);
   ("outlineOffset", getPropertyValue "outline-offset" htmlElement);
   ("boxShadow", getPropertyValue "box-shadow" htmlElement)].

(** The loop that restores them on the clone. *)
Definition restoreImportant (htmlElement newElement : Element) : Element :=
  forEach (importantStyles htmlElement)
    (fun pv new =>
       if truthy (snd pv) then setProperty (cssPropertyName (fst pv)) (snd pv) new
       else new)
    newElement.

(** [newElement]: the clone of the node, with the styles restored. *)
Definition cloneRestored (next : NodeId) (n : Node) : Node :=
  match n with
  | TextNode _ => n
  | ElementNode htmlElement _ =>
      onElement (restoreImportant htmlElement) (fst (cloneNode n next))
  end.

(** One round of the loop of [removeAllEventListeners]: the element is
    replaced by its clone where it is now.  An element that is no longer
    in the container - it was below an element that has been replaced -
    is replaced in the detached tree it is in, out of sight. *)
Definition replaceByClone (element : Element) (st : Node * NodeId) : Node * NodeId :=
  let (c, next) := st in
  match findNode (nid element) c with
  | Some htmlElement =>
      (updateAt (nid element) (cloneRestored next) c, snd (cloneNode htmlElement next))
  | None => st
  end.

(** [removeAllEventListeners()]. *)
Definition removeAllEventListeners (w : World) : World :=
  match contentRef w with
  | None => w
  | Some c =>
      let elements := querySelectorAll tagged c in
      let (c', next') := forEach elements replaceByClone (c, nextNode w) in
      withNextNode next' (withContent c' w)
  end.

(** What [attachEventListeners] does to the data of an element;
    [hasDragStart] is whether [onExistingElementDragStart] is given. *)
Definition attachTo (hasDragStart : bool) (htmlElement : Element) : Element :=
  if attributeTruthy ELEMENT_ID htmlElement then
    let e := applyBuilderStyling false htmlElement in
    if hasDragStart then setAttribute "draggable" "true" e else e
  else htmlElement.

(** [attachEventListeners()]. *)
Definition attachEventListeners (hasDragStart : bool) (w : World) : World :=
  match contentRef w with
  | None => w
  | Some c =>
      let elements := querySelectorAll tagged c in
      withContent
        (forEach elements
           (fun element cur => updateAt (nid element) (onElement (attachTo hasDragStart)) cur)
           c) w
  end.

(** [refreshListeners()]. *)
Definition refreshListeners (B : Browser) (random5 : nat -> string)
  (hasDragStart : bool) (w : World) : World :=
  match contentRef w with
  | None => w
  | Some _ =>
      attachEventListeners hasDragStart
        (removeAllEventListeners (snd (processExistingDOMContent B random5 w)))
  end.

(** The identities of the nodes of a tree are below [next]. *)
Definition allocatedBelow (next : NodeId) (n : Node) : Prop :=
  Forall (fun i => i < next) (map nid (elements n)).

(* ================================================================== *)
(** ** Resizing an image by its handles *)
(* ================================================================== *)

(** A mouse event: the pointer, in whole CSS pixels. *)
Record MouseEvent := mkMouseEvent {
  mouse_clientX : Z;
  mouse_clientY : Z
}.

(** What the closures of one drag of a handle hold: the node [element],
    the node [imgElement], [startMousePos], [startSize] and [handle]. *)
Record ImageDrag := mkImageDrag {
  drag_element : NodeId;
  drag_imgElement : NodeId;
  startMousePos : Z * Z;
  startSize : Z * Z;
  drag_handle : string
}.

(** [handleImageResize(e, element, handle)] up to the listeners it adds to
    the document; [offsetSize] gives [offsetWidth] and [offsetHeight] of a
    node.  [None] when the element holds no image. *)
Definition handleImageResize (offsetSize : NodeId -> Z * Z) (e : MouseEvent)
  (element : NodeId) (handle : string) (w : World) : option ImageDrag :=
  match contentRef w with
  | Some c =>
      match findNode element c with
      | Some (ElementNode x below) =>
          let imgElement :=
            if isImg x then Some x else querySelector isImg (ElementNode x below) in
          match imgElement with
          | Some img =>
              Some (mkImageDrag element (nid img)
                      (mouse_clientX e, mouse_clientY e) (offsetSize (nid img)) handle)
          | None => None
          end
      | _ => None
      end
  | None => None
  end.

(** [newWidth] and [newHeight] of [handleMouseMove], with the minimum
    enforced. *)
Definition newSize (d : ImageDrag) (moveEvent : MouseEvent) : Z * Z :=
  let deltaX := (mouse_clientX moveEvent - fst (startMousePos d))%Z in
  let deltaY := (mouse_clientY moveEvent - snd (startMousePos d))%Z in
  let width := fst (startSize d) in
  let height := snd (startSize d) in
  let handle := drag_handle d in
  let (newWidth, newHeight) :=
    if handle =? "se" then ((width + deltaX)%Z, (height + deltaY)%Z)
    else if handle =? "sw" then ((width - deltaX)%Z, (height + deltaY)%Z)
    else if handle =? "ne" then ((width + deltaX)%Z, (height - deltaY)%Z)
    else if handle =? "nw" then ((width - deltaX)%Z, (height - deltaY)%Z)
    else (width, height) in
  (Z.max 50 newWidth, Z.max 50 newHeight).

(** The template literal [`${n}px`] for a whole number that is not
    negative. *)
Definition px (n : Z) : string := numberToString (Z.to_N n) ++ "px".

(** What [handleMouseMove] sets on the image. *)
Definition sized (newWidth newHeight : Z) (imgElement : Element) : Element :=
  setProperty "object-fit" "cover"
    (setProperty "height" (px newHeight)
       (setProperty "width" (px newWidth) imgElement)).

(** What it sets on the element when that is a figure. *)
Definition figureSized (newWidth : Z) (element : Element) : Element :=
  if tagName element =? "FIGURE" then setProperty "width" (px newWidth) element
  else element.

(** [handleMouseMove(moveEvent)] of the drag [d]. *)
Definition handleMouseMove (d : ImageDrag) (moveEvent : MouseEvent) (w : World) : World :=
  match contentRef w with
  | None => w
  | Some c =>
      let (newWidth, newHeight) := newSize d moveEvent in
      let c := updateAt (drag_imgElement d) (onElement (sized newWidth newHeight)) c in
      let c := updateAt (drag_element d) (onElement (figureSized newWidth)) c in
      withContent c w
  end.

(** A listener added by [addEventListener(type, f, capture)] at a node. *)
Record Listener := mkListener {
  listener_node : NodeId;
  listener_type : string;
  listener_capture : bool
}.

(** Whether [target.dispatchEvent(event)] runs the listener, for an event
    of the given type: the listeners of the target itself run; those of
    its ancestors run in the capture phase when they were added for it,
    and in the bubble phase when the event bubbles.  A target outside the
    container has no ancestor in it. *)
Definition reaches (c : Node) (target : NodeId) (type : string) (bubbles : bool)
  (l : Listener) : bool :=
  (listener_type l =? type)
  && (Nat.eqb (listener_node l) target
      || match ancestorsOf target c with
         | Some path =>
             existsb (fun a => Nat.eqb (nid a) (listener_node l)) path
             && (listener_capture l || bubbles)
         | None => false
         end).

(** The listener [BuilderCanvas] adds at the container. *)
Definition canvasListener (container : Element) : Listener :=
  mkListener (nid container) "imageResized" false.

(** [handleMouseUp()] of the drag [d]: it dispatches
    [new CustomEvent('imageResized', {detail})] at the element, an event
    that does not bubble; the listener of [BuilderCanvas], when it runs,
    has the builder call [updateContent(contentRef.current.innerHTML)]. *)
Definition handleMouseUp (B : Browser) (d : ImageDrag) (w : World) : World :=
  match contentRef w with
  | Some (ElementNode container cs) =>
      if reaches (ElementNode container cs) (drag_element d) "imageResized" false
           (canvasListener container)
      then emit (Invoke (OnContentUpdate (innerHTML B (ElementNode container cs)))) w
      else w
  | _ => w
  end.

(** What a move of the drag [d] makes of an element of the container. *)
Definition afterMove (d : ImageDrag) (moveEvent : MouseEvent) (y : Element) : Element :=
  if Nat.eqb (nid y) (drag_imgElement d) then
    sized (fst (newSize d moveEvent)) (snd (newSize d moveEvent)) y
  else if Nat.eqb (nid y) (drag_element d) then
    figureSized (fst (newSize d moveEvent)) y
  else y.

(** The state after the moves [moves] of the drag [d], in their order. *)
Definition dragged (d : ImageDrag) (moves : list MouseEvent) (w : World) : World :=
  fold_left (fun w moveEvent => handleMouseMove d moveEvent w) moves w.

(* ================================================================== *)
(** ** Style updates from the sidebar *)
(* ================================================================== *)

(** [updateElementStyle(property, value, elementId)].  [kept p v] is what
    [style.setProperty(p, v)] keeps of the value [v] for the property
    [p]: nothing when the browser rejects the declaration. *)
Definition updateElementStyle {Settings : Type} (B : Browser)
  (outlined : Element -> bool) (kept : string -> string -> option string)
  (property value : string) (elementId : option string)
  (hw : ContentHook Settings * World) : ContentHook Settings * World :=
  let (h, w) := hw in
  match contentRef w with
  | None => (h, w)
  | Some c =>
      match targetElement outlined elementId c with
      | None => (h, w)
      | Some target =>
          let cssProperty := cssPropertyName property in
          let c :=
            match kept cssProperty value with
            | Some v => updateAt (nid target) (onElement (setProperty cssProperty v)) c
            | None => c
            end in
          let (tempContainer, next') := cleanClone c (nextNode w) in
          let newContent := innerHTML B tempContainer in
          let updatedPages :=
            mapWithIndex
              (fun page index =>
                 if Nat.eqb index (currentPageIndex h) then withPageContent newContent page
                 else page)
              (pages (book h)) 0 in
          let updatedBook := withPages updatedPages (book h) in
          (mkContentHook (book h) (currentPageIndex h) (pageContent h) true
             (hookEffects h ++ [OnSave updatedBook; ClearUpdatingAfter 50])%list,
           withNextNode next' (withContent c w))
      end
  end.


(* ================================================================== *)
(** ** Clicks *)
(* ================================================================== *)

(** The click listener [attachEventListeners] adds to an element: the node
    it is added to and the [elementId] its closure holds; none for an
    element without identifier or with an empty one. *)
Definition clickListener (htmlElement : Element) : list (NodeId * string) :=
  match getAttribute ELEMENT_ID htmlElement with
  | Some elementId => if truthy elementId then [(nid htmlElement, elementId)] else []
  | None => []
  end.

(** The click listeners of the container after [attachEventListeners]. *)
Definition clickListeners (c : Node) : list (NodeId * string) :=
  flat_map clickListener (querySelectorAll tagged c).

(** The elements a click at the element [target] passes in the capture
    phase, the container first, the target last. *)
Definition eventPath (c : Node) (target : NodeId) : option (list Element) :=
  match ancestorsOf target c, findNode target c with
  | Some p, Some (ElementNode x _) => Some (p ++ [x])%list
  | _, _ => None
  end.

Definition listenersAt (ls : list (NodeId * string)) (i : NodeId) : list string :=
  map snd (filter (fun l => Nat.eqb (fst l) i) ls).

(** The listeners were added for the capture phase and [handleClick] stops
    the propagation: the listeners of the first element of the path that
    has some are the ones that run. *)
Fixpoint firstHandled (ls : list (NodeId * string)) (path : list Element)
  : option (list string) :=
  match path with
  | [] => None
  | x :: rest =>
      match listenersAt ls (nid x) with
      | [] => firstHandled ls rest
      | ids => Some ids
      end
  end.

(** [handleCanvasClick(e)], which the click reaches when no listener has
    stopped it; [closest] looks at the target and its ancestors, of which
    those outside the container are not tagged. *)
Definition handleCanvasClick (isPreviewMode : bool) (path : list Element) (w : World)
  : World :=
  if isPreviewMode then w
  else if existsb tagged path then w
  else clearSelection w.

(** A click at the element [target] of the container, with the click
    listeners [ls]. *)
Definition click (isPreviewMode : bool) (ls : list (NodeId * string))
  (target : NodeId) (w : World) : World :=
  match contentRef w with
  | Some c =>
      match eventPath c target with
      | Some path =>
          match firstHandled ls path with
          | Some ids => fold_left (fun w elementId => selectElement (Some elementId) w) ids w
          | None => handleCanvasClick isPreviewMode path w
          end
      | None => w
      end
  | None => w
  end.

(** The identifier of the first element of a path that has a non-empty
    one. *)
Fixpoint outermostTagged (path : list Element) : option string :=
  match path with
  | [] => None
  | x :: rest =>
      match getAttribute ELEMENT_ID x with
      | Some id => if truthy id then Some id else outermostTagged rest
      | None => outermostTagged rest
      end
  end.

(** The [dragstart] listeners of the container after
    [attachEventListeners]: on the same elements, with the same
    identifiers, when [onExistingElementDragStart] is given. *)
Definition dragStartListeners (hasDragStart : bool) (c : Node) : list (NodeId * string) :=
  if hasDragStart then clickListeners c else [].

(** A [dragstart] event at the element [target]: the listeners were added
    for the bubble phase and none stops the propagation, so that those of
    the target run first and then those of its ancestors, innermost
    first, each calling [handleExistingElementDragStart] with its
    identifier. *)
Definition dragStart (ls : list (NodeId * string)) (hasDataTransfer : bool)
  (target : NodeId) (w : World) : World :=
  match contentRef w with
  | Some c =>
      match eventPath c target with
      | Some path =>
          fold_left
            (fun w elementId => handleExistingElementDragStart hasDataTransfer elementId w)
            (flat_map (fun x => listenersAt ls (nid x)) (rev path)) w
      | None => w
      end
  | None => w
  end.

(* ================================================================== *)
(** * Properties *)
(* ================================================================== *)

(** ** The reference browser at work *)

Example refParse_paragraphs :
  refParse "<p>Hello</p><h1>Title</h1>"
  = [ElementNode (mkElement 0 "P" [] []) [TextNode "Hello"];
     ElementNode (mkElement 0 "H1" [] []) [TextNode "Title"]].
Proof. reflexivity. Qed.

Example refParse_roundtrip :
  refSerialize (refParse PLACEHOLDER) = PLACEHOLDER.
Proof. vm_compute. reflexivity. Qed.

(** Scenario 2 of the specification: two structural elements, two
    identities. *)
Example normalize_two_blocks :
  elementCount (fst (processContentForBuilder refBrowser "<p>Hello</p><h1>Title</h1>" 0)) = 2
  /\ wasAlreadyProcessed
       (fst (processContentForBuilder refBrowser "<p>Hello</p><h1>Title</h1>" 0)) = false.
Proof. split; vm_compute; reflexivity. Qed.

(** Scenario 3: flat text is wrapped into one tagged container. *)
Example normalize_flat_text :
  elementCount (fst (processContentForBuilder refBrowser "plain text no tags" 0)) = 1.
Proof. vm_compute. reflexivity. Qed.

(* ------------------------------------------------------------------ *)
(** ** Strings *)

Lemma prefix_head (c : ascii) (p s : string) :
  prefix (String c p) s = true -> exists s', s = String c s'.
Proof.
  destruct s as [|b s']; simpl; [discriminate|].
  destruct (ascii_dec c b) as [->|]; [eauto | discriminate].
Qed.

Lemma includes_visible (c : ascii) (p s : string) :
  isWhiteSpace c = false -> includes s (String c p) = true -> hasVisibleChar s = true.
Proof.
  intros Hc. induction s as [|b s' IH]; intros H.
  - simpl in H. discriminate.
  - cbn [includes] in H. apply orb_true_iff in H as [H|H].
    + apply prefix_head in H as [t Ht]. injection Ht as -> _.
      simpl. rewrite Hc. reflexivity.
    + simpl. rewrite (IH H). apply orb_true_r.
Qed.

Lemma trimStart_visible (s : string) :
  hasVisibleChar s = true -> hasVisibleChar (trimStart s) = true.
Proof.
  induction s as [|c s' IH]; simpl; intros H; [discriminate|].
  destruct (isWhiteSpace c) eqn:Hc; simpl in *.
  - auto.
  - rewrite Hc. reflexivity.
Qed.

Lemma trimEnd_visible (s : string) :
  hasVisibleChar s = true -> truthy (trimEnd s) = true.
Proof.
  induction s as [|c s' IH]; simpl; intros H; [discriminate|].
  destruct (trimEnd s') eqn:Ht.
  - destruct (isWhiteSpace c) eqn:Hc; simpl in *; [|reflexivity].
    specialize (IH H). discriminate.
  - reflexivity.
Qed.

Lemma marked_content_not_blank (content : string) :
  hasBuilderElements content = true -> truthy (trim content) = true.
Proof.
  intros H. unfold trim. apply trimEnd_visible, trimStart_visible.
  unfold hasBuilderElements, ELEMENT_ID in H.
  eapply includes_visible; [|exact H]. reflexivity.
Qed.

Lemma processContentForBuilder_marked (B : Browser) (content : string) (k : nat) :
  hasBuilderElements content = true ->
  processContentForBuilder B content k
  = (mkProcessed content true (countMatches content ELEMENT_ID), k).
Proof.
  intros H. unfold processContentForBuilder.
  rewrite (marked_content_not_blank _ H), H. reflexivity.
Qed.

(* ------------------------------------------------------------------ *)
(** ** The content normalizer *)

Lemma assocGet_assocSet (k v : string) (l : list (string * string)) :
  assocGet k (assocSet k v l) = Some v.
Proof.
  induction l as [|[k' v'] l IH]; simpl.
  - rewrite String.eqb_refl. reflexivity.
  - destruct (k' =? k) eqn:E; simpl.
    + rewrite String.eqb_refl. reflexivity.
    + rewrite E. exact IH.
Qed.

Lemma assocGet_assocSet_other (k k' v : string) (l : list (string * string)) :
  (k' =? k) = false -> assocGet k (assocSet k' v l) = assocGet k l.
Proof.
  intros Hk. induction l as [|[a b] l IH]; simpl.
  - rewrite Hk. reflexivity.
  - destruct (a =? k') eqn:E; simpl.
    + apply String.eqb_eq in E. subst a. rewrite Hk. reflexivity.
    + destruct (a =? k); [reflexivity | exact IH].
Qed.

Lemma applyBuilderStyling_attributes (b : bool) (e : Element) :
  attributes (applyBuilderStyling b e) = attributes e.
Proof.
  unfold applyBuilderStyling. cbv zeta.
  repeat match goal with
         | |- context [if ?c then _ else _] => destruct c
         end; reflexivity.
Qed.

Lemma applyBuilderStyling_nid (b : bool) (e : Element) :
  nid (applyBuilderStyling b e) = nid e.
Proof.
  unfold applyBuilderStyling. cbv zeta.
  repeat match goal with
         | |- context [if ?c then _ else _] => destruct c
         end; reflexivity.
Qed.






(** For every browser, the second normalization of blank input is no
    no-op: the placeholder does not show the identity attribute, and no
    other branch sets [wasAlreadyProcessed]. *)
Lemma placeholder_is_processed_again (B : Browser) (k : nat) :
  wasAlreadyProcessed (normalize B k PLACEHOLDER) = false.
Proof.
  unfold normalize, processContentForBuilder.
  replace (truthy (trim PLACEHOLDER)) with true by (vm_compute; reflexivity).
  replace (hasBuilderElements PLACEHOLDER) with false by (vm_compute; reflexivity).
  simpl negb. cbv iota.
  destruct (setInnerHTML B PLACEHOLDER _ 1) as [tempDiv next].
  destruct (_ && _).
  - destruct (setInnerHTML B PLACEHOLDER _ (S next)). reflexivity.
  - destruct (processChildren B (childrenOf tempDiv) k). reflexivity.
Qed.


(** C9.  Content that shows the name of the identity attribute anywhere is
    returned unchanged, and [elementCount] is the number of times the name
    occurs in the raw string, as the global pattern [/data-element-id/g]
    matches it; an occurrence in a text counts, so the count can exceed the
    number of tagged elements. *)
Theorem processContentForBuilder_counts_marker_text :
  (forall (B : Browser) (content : string) (k : nat),
      hasBuilderElements content = true ->
      processContentForBuilder B content k
      = (mkProcessed content true (countMatches content ELEMENT_ID), k))
  /\ (hasBuilderElements MARKED_TEXT = true
      /\ List.length (taggedIn (parseFragment refBrowser MARKED_TEXT)) = 1
      /\ elementCount (normalize refBrowser 0 MARKED_TEXT) = 2).
Proof.
  split; [exact processContentForBuilder_marked|].
  repeat split; vm_compute; reflexivity.
Qed.

(** An occurrence in the value of another attribute counts as well: one
    element is counted where none is tagged. *)
Example marker_in_attribute_value_counts :
  List.length (taggedIn (parseFragment refBrowser MARKED_TITLE)) = 0
  /\ processContentForBuilder refBrowser MARKED_TITLE 0
     = (mkProcessed MARKED_TITLE true 1, 0).
Proof. split; vm_compute; reflexivity. Qed.

(** Matches are counted from left to right and do not overlap, as a global
    pattern finds them: two names that share their [d] count once. *)
Example overlapping_names_count_once :
  countMatches "data-element-idata-element-id" ELEMENT_ID = 1.
Proof. vm_compute. reflexivity. Qed.

(** The property on the paragraph whose text is the name of the attribute:
    two occurrences are counted. *)
Lemma processContentForBuilder_counts_witness :
  hasBuilderElements MARKED_TEXT = true
  /\ processContentForBuilder refBrowser MARKED_TEXT 0
     = (mkProcessed MARKED_TEXT true 2, 0).
Proof.
  split; [vm_compute; reflexivity|].
  exact (proj1 processContentForBuilder_counts_marker_text refBrowser MARKED_TEXT 0
           eq_refl).
Defined.

(* ------------------------------------------------------------------ *)
(** ** Trees and mutation through references *)

Open Scope list_scope.

Lemma Node_forall_ind (P : Node -> Prop) :
  (forall s, P (TextNode s)) ->
  (forall e cs, Forall P cs -> P (ElementNode e cs)) ->
  forall n, P n.
Proof.
  intros HT HE. fix IH 1. intros [s|e cs].
  - apply HT.
  - apply HE. induction cs as [|c cs IHcs]; constructor; [apply IH | exact IHcs].
Qed.

Lemma subseq_refl {A : Type} (l : list A) : subseq l l.
Proof. induction l; constructor; assumption. Qed.

Lemma subseq_nil_l {A : Type} (l : list A) : subseq [] l.
Proof. induction l; constructor; assumption. Qed.

Lemma subseq_trans {A : Type} (a b c : list A) :
  subseq a b -> subseq b c -> subseq a c.
Proof.
  intros Hab Hbc. revert a Hab.
  induction Hbc as [|x l k H IH|x l k H IH]; intros a Hab.
  - exact Hab.
  - inversion Hab; subst.
    + constructor. apply IH. assumption.
    + apply subseq_drop. apply IH. assumption.
  - apply subseq_drop. apply IH. exact Hab.
Qed.

Lemma subseq_app {A : Type} (a a' b b' : list A) :
  subseq a a' -> subseq b b' -> subseq (a ++ b) (a' ++ b').
Proof.
  intros Ha Hb. induction Ha; simpl.
  - exact Hb.
  - constructor. assumption.
  - apply subseq_drop. assumption.
Qed.

Lemma subseq_In {A : Type} (l k : list A) (x : A) :
  subseq l k -> In x l -> In x k.
Proof.
  intros H. induction H; simpl; intros Hx.
  - exact Hx.
  - destruct Hx as [->|Hx]; auto.
  - auto.
Qed.

Lemma subseq_map {A B : Type} (g : A -> B) (l k : list A) :
  subseq l k -> subseq (map g l) (map g k).
Proof. intros H. induction H; simpl; constructor; assumption. Qed.

Lemma subseq_NoDup {A : Type} (l k : list A) :
  subseq l k -> NoDup k -> NoDup l.
Proof.
  intros H. induction H; intros Hk.
  - constructor.
  - inversion Hk; subst. constructor.
    + intros Hin. apply H2. eapply subseq_In; eassumption.
    + auto.
  - inversion Hk; subst. auto.
Qed.

Lemma forestElements_cons (c : Node) (l : list Node) :
  forestElements (c :: l) = elements c ++ forestElements l.
Proof. reflexivity. Qed.

Lemma forestElements_app (l k : list Node) :
  forestElements (l ++ k) = forestElements l ++ forestElements k.
Proof. unfold forestElements. apply flat_map_app. Qed.

Lemma elements_node (e : Element) (cs : list Node) :
  elements (ElementNode e cs) = e :: forestElements cs.
Proof. reflexivity. Qed.

Lemma removeNode_node (i : NodeId) (e : Element) (cs : list Node) :
  removeNode i (ElementNode e cs) = ElementNode e (removeNodeList i cs).
Proof.
  simpl. f_equal. induction cs as [|c cs IH]; simpl; [reflexivity|].
  destruct (isNode i c); rewrite IH; reflexivity.
Qed.

Lemma removeNode_subseq (i : NodeId) (n : Node) :
  subseq (elements (removeNode i n)) (elements n).
Proof.
  induction n as [s|e cs IH] using Node_forall_ind.
  - apply subseq_refl.
  - rewrite removeNode_node, !elements_node. constructor.
    induction IH as [|c cs Hc Hcs IHcs]; cbn [removeNodeList].
    + constructor.
    + destruct (isNode i c).
      * rewrite forestElements_cons.
        apply (subseq_app [] (elements c) _ _ (subseq_nil_l _) IHcs).
      * rewrite !forestElements_cons. apply subseq_app; assumption.
Qed.

Lemma removeNodeList_subseq (i : NodeId) (l : list Node) :
  subseq (forestElements (removeNodeList i l)) (forestElements l).
Proof.
  induction l as [|c l IH]; cbn [removeNodeList].
  - constructor.
  - destruct (isNode i c).
    + rewrite forestElements_cons.
      apply (subseq_app [] (elements c) _ _ (subseq_nil_l _) IH).
    + rewrite !forestElements_cons. apply subseq_app; [apply removeNode_subseq | exact IH].
Qed.

(** Removing nodes one after the other keeps the node they are removed
    from and thins out what is below it. *)
Lemma remove_each_below (ids : list Element) (e : Element) (cs : list Node) :
  exists cs',
    forEach ids (fun h cur => removeNode (nid h) cur) (ElementNode e cs)
    = ElementNode e cs'
    /\ subseq (forestElements cs') (forestElements cs).
Proof.
  unfold forEach. revert cs. induction ids as [|h ids IH]; intros cs; cbn [fold_left].
  - exists cs. split; [reflexivity | apply subseq_refl].
  - rewrite removeNode_node.
    destruct (IH (removeNodeList (nid h) cs)) as [cs' [E S]].
    exists cs'. split; [exact E|].
    eapply subseq_trans; [exact S | apply removeNodeList_subseq].
Qed.

Lemma updateAt_absent (i : NodeId) (f : Node -> Node) (n : Node) :
  ~ In i (map nid (elements n)) -> updateAt i f n = n.
Proof.
  induction n as [s|e cs IH] using Node_forall_ind; intros Hi; [reflexivity|].
  simpl. destruct (Nat.eqb (nid e) i) eqn:E.
  - apply Nat.eqb_eq in E. exfalso. apply Hi. simpl. auto.
  - f_equal. rewrite elements_node in Hi. simpl in Hi.
    assert (Hcs : ~ In i (map nid (forestElements cs))) by tauto.
    clear Hi E. induction IH as [|c cs Hc Hcs' IHcs]; simpl; [reflexivity|].
    rewrite forestElements_cons, map_app in Hcs.
    rewrite Hc, IHcs; [reflexivity| |]; intros H; apply Hcs, in_or_app; auto.
Qed.

Lemma updateAt_absent_list (i : NodeId) (f : Node -> Node) (l : list Node) :
  ~ In i (forestIds l) -> map (updateAt i f) l = l.
Proof.
  unfold forestIds. induction l as [|c l IH]; simpl; intros Hi; [reflexivity|].
  rewrite forestElements_cons, map_app in Hi.
  rewrite updateAt_absent, IH; [reflexivity| |]; intros H; apply Hi, in_or_app; auto.
Qed.

Lemma NoDup_app_l {A : Type} (l k : list A) : NoDup (l ++ k) -> NoDup l.
Proof.
  intros H. eapply subseq_NoDup; [|exact H].
  rewrite <- (app_nil_r l) at 1. apply subseq_app; [apply subseq_refl | apply subseq_nil_l].
Qed.

Lemma NoDup_app_r {A : Type} (l k : list A) : NoDup (l ++ k) -> NoDup k.
Proof.
  intros H. eapply subseq_NoDup; [|exact H].
  apply (subseq_app [] l k k); [apply subseq_nil_l | apply subseq_refl].
Qed.

Lemma NoDup_app_disjoint {A : Type} (l k : list A) (x : A) :
  NoDup (l ++ k) -> In x l -> In x k -> False.
Proof.
  induction l as [|a l IH]; simpl; intros H Hl Hk; [contradiction|].
  inversion H; subst. destruct Hl as [->|Hl].
  - apply H2, in_or_app. auto.
  - eauto.
Qed.

(** The node a reference denotes is found at one place, and an update
    through the reference rewrites that place. *)
Lemma updateAt_split_list (i : NodeId) (f : Node -> Node) (l : list Node) :
  NoDup (forestIds l) -> In i (forestIds l) ->
  exists (pre post : list Element) (e : Element) (cs : list Node),
    nid e = i
    /\ forestElements l = pre ++ elements (ElementNode e cs) ++ post
    /\ forestElements (map (updateAt i f) l)
       = pre ++ elements (f (ElementNode e cs)) ++ post.
Proof.
  revert l.
  assert (Hnode : forall n,
             NoDup (map nid (elements n)) -> In i (map nid (elements n)) ->
             exists pre post e cs,
               nid e = i
               /\ elements n = pre ++ elements (ElementNode e cs) ++ post
               /\ elements (updateAt i f n)
                  = pre ++ elements (f (ElementNode e cs)) ++ post).
  { induction n as [s|e cs IH] using Node_forall_ind; intros Hnd Hin.
    - simpl in Hin. contradiction.
    - simpl. destruct (Nat.eqb (nid e) i) eqn:E.
      + apply Nat.eqb_eq in E. exists [], [], e, cs.
        rewrite !app_nil_r. simpl. auto.
      + apply Nat.eqb_neq in E.
        rewrite elements_node in Hnd, Hin. simpl in Hnd, Hin.
        destruct Hin as [Hin|Hin]; [contradiction|].
        inversion Hnd as [|x xs Hx Hnd']; subst. clear Hnd Hx.
        change (flat_map elements cs) with (forestElements cs).
        change (flat_map elements (map (updateAt i f) cs))
          with (forestElements (map (updateAt i f) cs)).
        assert (Hl : exists pre post e0 cs0,
                   nid e0 = i
                   /\ forestElements cs = pre ++ elements (ElementNode e0 cs0) ++ post
                   /\ forestElements (map (updateAt i f) cs)
                      = pre ++ elements (f (ElementNode e0 cs0)) ++ post).
        { clear E. induction IH as [|c cs Hc Hcs IHcs].
          - simpl in Hin. contradiction.
          - rewrite forestElements_cons, map_app in Hnd', Hin.
            destruct (in_dec Nat.eq_dec i (map nid (elements c))) as [Hc'|Hc'].
            + destruct (Hc (NoDup_app_l _ _ Hnd') Hc') as (pre & post & e0 & cs0 & E0 & E1 & E2).
              exists pre, (post ++ forestElements cs), e0, cs0.
              split; [exact E0|]. simpl map. rewrite !forestElements_cons.
              rewrite updateAt_absent_list.
              * rewrite E1, E2. rewrite <- !app_assoc. auto.
              * intros H. eapply NoDup_app_disjoint; eassumption.
            + apply in_app_or in Hin. destruct Hin as [Hin|Hin]; [contradiction|].
              destruct (IHcs Hin (NoDup_app_r _ _ Hnd'))
                as (pre & post & e0 & cs0 & E0 & E1 & E2).
              exists (elements c ++ pre), post, e0, cs0.
              split; [exact E0|]. simpl map. rewrite !forestElements_cons.
              rewrite updateAt_absent by exact Hc'.
              rewrite E1, E2. rewrite <- !app_assoc. auto. }
        destruct Hl as (pre & post & e0 & cs0 & E0 & E1 & E2).
        exists (e :: pre), post, e0, cs0.
        split; [exact E0|].
        split; [rewrite E1; reflexivity | rewrite elements_node, E2; reflexivity]. }
  induction l as [|c l IH]; intros Hnd Hin.
  - simpl in Hin. contradiction.
  - unfold forestIds in *. rewrite forestElements_cons, map_app in Hnd, Hin.
    destruct (in_dec Nat.eq_dec i (map nid (elements c))) as [Hc'|Hc'].
    + destruct (Hnode c (NoDup_app_l _ _ Hnd) Hc') as (pre & post & e0 & cs0 & E0 & E1 & E2).
      exists pre, (post ++ forestElements l), e0, cs0.
      split; [exact E0|]. simpl map. rewrite !forestElements_cons.
      rewrite updateAt_absent_list.
      * rewrite E1, E2. rewrite <- !app_assoc. auto.
      * intros H. eapply NoDup_app_disjoint; eassumption.
    + apply in_app_or in Hin. destruct Hin as [Hin|Hin]; [contradiction|].
      destruct (IH (NoDup_app_r _ _ Hnd) Hin) as (pre & post & e0 & cs0 & E0 & E1 & E2).
      exists (elements c ++ pre), post, e0, cs0.
      split; [exact E0|]. simpl map. rewrite !forestElements_cons.
      rewrite updateAt_absent by exact Hc'.
      rewrite E1, E2. rewrite <- !app_assoc. auto.
Qed.

(* ------------------------------------------------------------------ *)
(** ** Inline style *)

Lemma getPropertyValue_same (p v : string) (e : Element) :
  getPropertyValue p (setProperty p v e) = v.
Proof. unfold getPropertyValue. simpl. rewrite assocGet_assocSet. reflexivity. Qed.

Lemma getPropertyValue_other (p q v : string) (e : Element) :
  (q =? p)%string = false ->
  getPropertyValue p (setProperty q v e) = getPropertyValue p e.
Proof.
  intros H. unfold getPropertyValue. simpl.
  rewrite assocGet_assocSet_other by exact H. reflexivity.
Qed.

Ltac style_simpl :=
  repeat (rewrite getPropertyValue_same
          || rewrite getPropertyValue_other by reflexivity).

Lemma sameIdentity_refl (e : Element) : sameIdentity e e.
Proof. repeat split. Qed.

Lemma sameIdentity_trans (a b c : Element) :
  sameIdentity a b -> sameIdentity b c -> sameIdentity a c.
Proof. unfold sameIdentity. intuition congruence. Qed.

Lemma sameIdentity_setProperty (p v : string) (e : Element) :
  sameIdentity (setProperty p v e) e.
Proof. repeat split. Qed.

Lemma sameIdentity_tagged (a b : Element) :
  sameIdentity a b -> tagged a = tagged b.
Proof.
  intros (_ & _ & H). unfold tagged, hasAttribute, getAttribute. rewrite H. reflexivity.
Qed.


(* ------------------------------------------------------------------ *)
(** ** Gentle mutations *)

Lemma removeImageResizeHandles_node (e : Element) (cs : list Node) :
  exists cs',
    removeImageResizeHandles (ElementNode e cs) = ElementNode e cs'
    /\ subseq (forestElements cs') (forestElements cs).
Proof. unfold removeImageResizeHandles. apply remove_each_below. Qed.


Lemma handles_untagged (fresh : NodeId) (h : HandleSpec) :
  Forall (fun x => tagged x = false) (elements (handleElement fresh h)).
Proof. repeat constructor. Qed.

Lemma applySelectionStyling_gentle (fresh : NodeId) :
  gentle (fun e => fullySelected e = true) (fun x => tagged x = false)
    (applySelectionStyling fresh).
Proof.
  intros e cs. unfold applySelectionStyling. cbn [onElement].
  set (e1 := setProperty "box-shadow" SELECTION_SHADOW
               (setProperty "outline-offset" SELECTION_OFFSET
                  (setProperty "outline" SELECTION_OUTLINE e))).
  assert (Hid : sameIdentity e1 e) by (repeat split).
  assert (Hc : fullySelected e1 = true).
  { unfold fullySelected, e1. style_simpl. reflexivity. }
  destruct (isImage (ElementNode e1 cs)).
  - unfold addImageResizeHandles.
    destruct (removeImageResizeHandles_node e1 cs) as [cs' [E S]]. rewrite E.
    cbn [onElement].
    set (e2 := if negb (truthy (getPropertyValue "position" e1))
                  || (getPropertyValue "position" e1 =? "static")%string
               then setProperty "position" "relative" e1 else e1).
    assert (Hid2 : sameIdentity e2 e).
    { unfold e2. destruct (_ || _); [|exact Hid].
      eapply sameIdentity_trans; [apply sameIdentity_setProperty | exact Hid]. }
    assert (Hc2 : fullySelected e2 = true).
    { unfold e2. destruct (_ || _); [|exact Hc].
      unfold fullySelected, e1. style_simpl. reflexivity. }
    eexists e2, _, (forestElements cs'), _.
    split; [reflexivity|].
    split; [exact Hid2|]. split; [exact Hc2|].
    split; [|split; [exact S|]].
    + rewrite !forestElements_app. rewrite <- !app_assoc. reflexivity.
    + repeat constructor.
  - exists e1, cs, (forestElements cs), []. rewrite app_nil_r.
    repeat split; auto using subseq_refl; apply Hid.
Qed.

Lemma Forall_False_nil {A : Type} (l : list A) : Forall (fun _ => False) l -> l = [].
Proof. destruct l; [reflexivity|]. intros H. inversion H. contradiction. Qed.

Lemma NoDup_middle (pre mid post : list Element) (e x : Element) :
  NoDup (map nid (pre ++ (e :: mid) ++ post)) ->
  In x (pre ++ mid ++ post) -> nid x <> nid e.
Proof.
  intros Hnd Hx Heq.
  rewrite map_app in Hnd. simpl in Hnd.
  apply NoDup_remove_2 in Hnd. apply Hnd.
  rewrite <- Heq, <- map_app. apply in_map. exact Hx.
Qed.

(** One update through a reference, by a gentle mutation that adds
    nothing: identities stay unique, the updated element satisfies [P], and
    every other element is one that was there before. *)
Lemma gentle_update (P : Element -> Prop) (f : Node -> Node) (i : NodeId)
  (l : list Node) :
  gentle P (fun _ => False) f -> NoDup (forestIds l) ->
  NoDup (forestIds (map (updateAt i f) l))
  /\ forall x, In x (forestElements (map (updateAt i f) l)) ->
       (In x (forestElements l) /\ nid x <> i)
       \/ (nid x = i /\ P x /\ exists x0, In x0 (forestElements l) /\ sameIdentity x x0).
Proof.
  intros Hf Hnd.
  destruct (in_dec Nat.eq_dec i (forestIds l)) as [Hi|Hi].
  - destruct (updateAt_split_list i f l Hnd Hi) as (pre & post & e & cs & E0 & E1 & E2).
    destruct (Hf e cs) as (e' & cs' & kept & added & Ef & Hid & HP & Ek & Hs & Ha).
    apply Forall_False_nil in Ha. subst added. rewrite app_nil_r in Ek.
    rewrite Ef, elements_node, Ek in E2. rewrite elements_node in E1.
    assert (Hsub : subseq (forestElements (map (updateAt i f) l)) 
                     (pre ++ (e' :: forestElements cs) ++ post)).
    { rewrite E2. apply subseq_app; [apply subseq_refl|].
      apply subseq_app; [|apply subseq_refl]. constructor. exact Hs. }
    assert (Hids : map nid (pre ++ (e' :: forestElements cs) ++ post) = forestIds l).
    { unfold forestIds. rewrite E1, !map_app. simpl. destruct Hid as [-> _]. reflexivity. }
    split.
    + unfold forestIds at 1. eapply subseq_NoDup; [apply subseq_map, Hsub|].
      rewrite Hids. exact Hnd.
    + intros x Hx. rewrite E2 in Hx.
      apply in_app_or in Hx. simpl in Hx.
      assert (Hother : In x (pre ++ forestElements cs ++ post) ->
                       In x (forestElements l) /\ nid x <> i).
      { intros H. split.
        - rewrite E1. apply in_app_or in H. apply in_or_app.
          destruct H as [H|H]; [left; exact H|right]. simpl. right. exact H.
        - rewrite <- E0. eapply NoDup_middle; [|exact H].
          unfold forestIds in Hnd. rewrite E1 in Hnd. exact Hnd. }
      destruct Hx as [Hx|[Hx|Hx]].
      * left. apply Hother. apply in_or_app. auto.
      * subst x. right. split; [destruct Hid as [-> _]; exact E0|].
        split; [exact HP|]. exists e. split; [|exact Hid].
        rewrite E1. apply in_or_app. right. simpl. auto.
      * left. apply Hother. apply in_or_app. right.
        apply in_app_or in Hx. apply in_or_app.
        destruct Hx as [Hx|Hx]; [left; eapply subseq_In; eassumption | right; exact Hx].
  - rewrite updateAt_absent_list by exact Hi. split; [exact Hnd|].
    intros x Hx. left. split; [exact Hx|].
    intros Heq. apply Hi. unfold forestIds. rewrite <- Heq. apply in_map. exact Hx.
Qed.

(** The loop [ids.forEach(el => f(el))] over a snapshot: at its end every
    element whose reference is in the snapshot satisfies [P], and every
    element is one of the start. *)
Lemma forEach_gentle (P : Element -> Prop) (f : Node -> Node)
  (ids : list Element) (l0 : list Node) :
  gentle P (fun _ => False) f -> NoDup (forestIds l0) ->
  forall (l : list Node) (done : list NodeId),
    NoDup (forestIds l) ->
    (forall x, In x (forestElements l) ->
       (exists x0, In x0 (forestElements l0) /\ sameIdentity x x0)
       /\ (In (nid x) done -> P x)) ->
    let l' := fold_left (fun cur el => map (updateAt (nid el) f) cur) ids l in
    NoDup (forestIds l')
    /\ forall x, In x (forestElements l') ->
         (exists x0, In x0 (forestElements l0) /\ sameIdentity x x0)
         /\ (In (nid x) (done ++ map nid ids) -> P x).
Proof.
  intros Hf Hnd0. induction ids as [|el ids IH]; intros l done Hnd Hinv; cbn [fold_left].
  - simpl. rewrite app_nil_r. auto.
  - destruct (gentle_update P f (nid el) l Hf Hnd) as [Hnd' Hstep].
    specialize (IH (map (updateAt (nid el) f) l) (done ++ [nid el]) Hnd').
    cbv zeta in IH. simpl map. 
    replace (done ++ nid el :: map nid ids) with ((done ++ [nid el]) ++ map nid ids)
      by (rewrite <- app_assoc; reflexivity).
    apply IH. intros x Hx.
    destruct (Hstep x Hx) as [[Hin Hne]|(Heq & HP & x0 & Hin0 & Hid0)].
    + destruct (Hinv x Hin) as [Hprov Hdone]. split; [exact Hprov|].
      intros H. apply in_app_or in H. destruct H as [H|[H|[]]]; [auto|].
      exfalso. apply Hne. symmetry. exact H.
    + destruct (Hinv x0 Hin0) as [(x1 & Hin1 & Hid1) _]. split.
      * exists x1. split; [exact Hin1|]. eapply sameIdentity_trans; eassumption.
      * intros _. exact HP.
Qed.

Lemma forEach_below_root (f : Node -> Node) (ids : list Element) (e : Element)
  (cs : list Node) :
  (forall el, In el ids -> nid el <> nid e) ->
  forEach ids (fun el cur => updateAt (nid el) f cur) (ElementNode e cs)
  = ElementNode e (fold_left (fun cur el => map (updateAt (nid el) f) cur) ids cs).
Proof.
  unfold forEach. revert cs. induction ids as [|el ids IH]; intros cs H; cbn [fold_left].
  - reflexivity.
  - cbn [updateAt]. 
    destruct (Nat.eqb (nid e) (nid el)) eqn:E.
    + apply Nat.eqb_eq in E. exfalso. apply (H el); [left; reflexivity | congruence].
    + apply IH. intros el' Hel'. apply H. right. exact Hel'.
Qed.

Lemma uniqueIds_node (e : Element) (cs : list Node) :
  uniqueIds (ElementNode e cs) <->
  ~ In (nid e) (forestIds cs) /\ NoDup (forestIds cs).
Proof.
  unfold uniqueIds. rewrite elements_node. simpl. split.
  - intros H. inversion H; subst. auto.
  - intros [H1 H2]. constructor; assumption.
Qed.

Lemma filter_all_false {A : Type} (p : A -> bool) (l : list A) :
  (forall x, In x l -> p x = false) -> filter p l = [].
Proof.
  induction l as [|a l IH]; intros H; simpl; [reflexivity|].
  rewrite (H a) by (left; reflexivity). apply IH. intros x Hx. apply H. right. exact Hx.
Qed.


(** The loop over the tagged elements of a container, with a gentle
    mutation that adds nothing: at its end every tagged element satisfies
    [P]; the container keeps its elements, up to what the mutation changes
    on them and the nodes it takes out. *)
Lemma forEach_tagged_gentle (P : Element -> Prop) (f : Node -> Node)
  (e : Element) (cs : list Node) :
  gentle P (fun _ => False) f ->
  uniqueIds (ElementNode e cs) ->
  exists cs1,
    forEach (querySelectorAll tagged (ElementNode e cs))
      (fun el cur => updateAt (nid el) f cur) (ElementNode e cs)
    = ElementNode e cs1
    /\ uniqueIds (ElementNode e cs1)
    /\ forall x, In x (forestElements cs1) ->
         (exists x0, In x0 (forestElements cs) /\ sameIdentity x x0)
         /\ (tagged x = true -> P x).
Proof.
  intros Hf Hu. apply uniqueIds_node in Hu as [Hroot Hnd].
  unfold querySelectorAll, descendantElements. cbn [childrenOf].
  change (flat_map elements cs) with (forestElements cs).
  set (ids := filter tagged (forestElements cs)).
  rewrite forEach_below_root.
  2:{ intros el Hel Heq. apply Hroot. unfold forestIds. rewrite <- Heq.
      apply in_map. unfold ids in Hel. apply filter_In in Hel. apply Hel. }
  destruct (forEach_gentle _ _ ids cs Hf Hnd cs [] Hnd) as [Hnd1 Hall].
  { intros x Hx. split; [|intros []]. exists x. split; [exact Hx | apply sameIdentity_refl]. }
  eexists. split; [reflexivity|]. split.
  - apply uniqueIds_node. split; [|exact Hnd1].
    intros Hin. unfold forestIds in Hin. apply in_map_iff in Hin as (x & Hx & Hin).
    destruct (Hall x Hin) as [(x0 & Hin0 & Hid0) _].
    apply Hroot. unfold forestIds. rewrite <- Hx. destruct Hid0 as [-> _].
    apply in_map. exact Hin0.
  - intros x Hx. destruct (Hall x Hx) as [(x0 & Hin0 & Hid0) HP].
    split; [eauto|]. intros Ht. apply HP. simpl.
    destruct Hid0 as [Hn Hrest]. rewrite Hn. apply in_map.
    unfold ids. apply filter_In. split; [exact Hin0|].
    rewrite <- Ht. symmetry. apply sameIdentity_tagged. split; assumption.
Qed.


Lemma hd_error_In {A : Type} (l : list A) (x : A) : hd_error l = Some x -> In x l.
Proof. destruct l; simpl; [discriminate|]. intros [= ->]. left. reflexivity. Qed.












(** Scenario 5 of the specification on concrete markup: both paragraphs
    carried the outline, [b] is selected, and [b] alone carries it. *)
Example select_b_among_outlined :
  option_map (fun c => map (getAttribute ELEMENT_ID) (selectedElements c))
    (contentRef (selectElement (Some "b") twoOutlined))
  = Some [Some "b"].
Proof. vm_compute. reflexivity. Qed.




(* ------------------------------------------------------------------ *)
(** ** The nearest insertion point *)







(** The pointer at 120 is closest to the midpoint 150 of paragraph [b] and
    above it: the insertion point is [b]. *)
Example findInsertPosition_before_b :
  option_map (getAttribute ELEMENT_ID)
    (findInsertPosition (mkDragEvent 120 "existing:a" rows) twoParagraphs)
  = Some (Some "b").
Proof. vm_compute. reflexivity. Qed.

(** A tie: at 100 both midpoints, 50 and 150, are 50 away; the first
    element keeps the choice, and the pointer is below its midpoint. *)
Example findInsertPosition_tie :
  findInsertPosition (mkDragEvent 100 "existing:b" rows) twoParagraphs = None.
Proof. vm_compute. reflexivity. Qed.


(* ------------------------------------------------------------------ *)
(** ** Reordering and creation *)




(** Scenario 6 of the specification: [a] is dropped where the insertion
    point is [b], its own next sibling; the drop invokes no content update
    and leaves the container as the drag start left it. *)
Example drop_in_place_saves_nothing :
  let w := handleExistingElementDragStart true "a" twoParagraphs in
  exists w',
    handleDrop refBrowser LIBRARY (mkDragEvent 120 "existing:a" rows) w = Returned tt w'
    /\ contentRef w' = contentRef w
    /\ contentUpdates (effects w') = [].
Proof. eexists. split; [vm_compute; reflexivity|]. split; reflexivity. Qed.

(** The last element with the insertion point null: in place as well. *)
Example reorder_last_to_end :
  reorderElement refBrowser "b" None twoParagraphs = Returned false twoParagraphs.
Proof. vm_compute. reflexivity. Qed.

(** *** Failures that are reported by the return value *)

Lemma reorder_without_container (B : Browser) (w : World) (elementId : string)
  (insertBefore_ : option NodeId) :
  contentRef w = None ->
  reorderElement B elementId insertBefore_ w = Returned false w.
Proof. intros H. unfold reorderElement. rewrite H. reflexivity. Qed.

Lemma reorder_unknown_element (B : Browser) (w : World) (c : Node)
  (elementId : string) (insertBefore_ : option NodeId) :
  contentRef w = Some c ->
  querySelector (hasElementId elementId) c = None ->
  reorderElement B elementId insertBefore_ w = Returned false w.
Proof. intros Hc Hq. unfold reorderElement. rewrite Hc, Hq. reflexivity. Qed.

Lemma create_without_container (B : Browser) (elementLibrary : list ElementLibraryItem)
  (w : World) (elementType : string) :
  contentRef w = None ->
  createNewElement B elementLibrary elementType w = (false, w).
Proof.
  intros H. unfold createNewElement. rewrite H.
  destruct (option_map _ _); reflexivity.
Qed.

Lemma create_unknown_template (B : Browser) (elementLibrary : list ElementLibraryItem)
  (w : World) (elementType : string) :
  templateOf elementLibrary elementType = None ->
  createNewElement B elementLibrary elementType w = (false, w).
Proof.
  unfold templateOf. intros H. unfold createNewElement. rewrite H. reflexivity.
Qed.

Lemma create_image_without_container (B : Browser) (w : World) (imageUrl : string) :
  contentRef w = None ->
  createImageElement B imageUrl w = (false, w).
Proof. intros H. unfold createImageElement. rewrite H. reflexivity. Qed.

(** *** A failure that is thrown *)

(** C8, the failing input.  Paragraph [a] is moved with itself as the
    insertion point, which is what [handleDrop] passes when [a] is dropped
    on its own upper half.  [reorderElement] takes [a] out of the container
    and then asks the container to insert before [a], which is no child of
    it any more: the DOM throws [NotFoundError] out of [reorderElement],
    and the container is left without [a]. *)
Theorem reorder_onto_itself_throws :
  findInsertPosition (mkDragEvent 10 "existing:a" rows) twoParagraphs
    = querySelector (hasElementId "a")
        (ElementNode (createElement 0 "DIV") (fst (relabelList (refParse TWO_PARAGRAPHS) 1)))
  /\ option_map nid (findInsertPosition (mkDragEvent 10 "existing:a" rows) twoParagraphs)
     = Some 1
  /\ exists w',
       reorderElement refBrowser "a" (Some 1) twoParagraphs = Thrown NotFoundError w'
       /\ option_map (fun c => map (getAttribute ELEMENT_ID) (querySelectorAll tagged c))
            (contentRef w')
          = Some [Some "b"].
Proof.
  split; [vm_compute; reflexivity|]. split; [vm_compute; reflexivity|].
  eexists. split; vm_compute; reflexivity.
Qed.

Lemma isNode_removeNode (i j : NodeId) (n : Node) :
  isNode i (removeNode j n) = isNode i n.
Proof. destruct n; reflexivity. Qed.

Lemma insertBeforeChild_removed (node : Node) (i : NodeId) (l : list Node) :
  insertBeforeChild node i (removeNodeList i l) = None.
Proof.
  induction l as [|c l IH]; cbn [removeNodeList]; [reflexivity|].
  destruct (isNode i c) eqn:E; [exact IH|].
  cbn [insertBeforeChild]. rewrite isNode_removeNode, E, IH. reflexivity.
Qed.

(** The throw does not depend on the markup: whenever the insertion point
    is the moved element itself, the element is removed and the insertion
    throws. *)
Lemma reorder_before_itself_throws (B : Browser) (w : World) (ec element : Element)
  (cs : list Node) (elementId : string) :
  contentRef w = Some (ElementNode ec cs) ->
  querySelector (hasElementId elementId) (ElementNode ec cs) = Some element ->
  nid ec <> nid element ->
  sameNode (Some (nid element))
    (option_map nid (nextElementSibling (nid element) (ElementNode ec cs))) = false ->
  exists w',
    reorderElement B elementId (Some (nid element)) w = Thrown NotFoundError w'
    /\ dragState w' = dragState w
    /\ effects w' = effects w.
Proof.
  intros Hc Hq Hne Hsib. unfold reorderElement. rewrite Hc, Hq, Hsib.
  cbn [updateAt]. apply Nat.eqb_neq in Hne. rewrite Hne.
  rewrite removeNode_node. unfold insertBefore.
  rewrite insertBeforeChild_removed. eexists. split; [reflexivity|]. split; reflexivity.
Qed.

(** The drop indicator of [handleDragOver] is inserted the same way: over
    a nested item the insertion point is no child of the container, and
    the handler throws. *)
Example dragOver_nested_throws :
  exists w',
    handleDragOver (mkDragEvent 140 "existing:u" nestedRows)
      (handleExistingElementDragStart true "u" nestedList)
    = Thrown NotFoundError w'.
Proof. eexists. vm_compute. reflexivity. Qed.

(* ------------------------------------------------------------------ *)
(** ** The drag state at the end of a drag *)

Lemma handleDragEnd_clears (w : World) :
  dragState (handleDragEnd w) = clearedDragState.
Proof. unfold handleDragEnd. destruct (contentRef w); reflexivity. Qed.

(** Whenever [handleDrop] returns, the drag state is cleared. *)
Lemma handleDrop_returns_cleared (B : Browser) (elementLibrary : list ElementLibraryItem)
  (e : DragEvent) (w w' : World) :
  handleDrop B elementLibrary e w = Returned tt w' ->
  dragState w' = clearedDragState.
Proof.
  unfold handleDrop.
  repeat match goal with
         | |- context [match ?x with _ => _ end] =>
             match type of x with
             | sumbool _ _ => fail 1
             | _ => destruct x
             end
         end;
    intros H; try discriminate; injection H as <-; reflexivity.
Qed.

(** A drop of anything but an existing element returns. *)
Lemma handleDrop_new_element_returns (B : Browser)
  (elementLibrary : list ElementLibraryItem) (e : DragEvent) (w : World) :
  startsWith (transferData e) "existing:" = false ->
  exists w', handleDrop B elementLibrary e w = Returned tt w'
             /\ dragState w' = clearedDragState.
Proof.
  intros H. unfold handleDrop. rewrite H, andb_false_r.
  repeat match goal with
         | |- context [match ?x with _ => _ end] => destruct x
         end; eexists; split; reflexivity.
Qed.

(** C7, the failing input.  Paragraph [a] is dragged and dropped on its
    own upper half.  [reorderElement] throws, [handleDrop] is left by the
    exception before it reaches [setDragState], and the drag state still
    names [a]. *)
Theorem drop_onto_itself_keeps_drag_state :
  dragState (handleExistingElementDragStart true "a" twoParagraphs)
    = mkDragState None (Some "a")
  /\ exists w',
       handleDrop refBrowser LIBRARY (mkDragEvent 10 "existing:a" rows)
         (handleExistingElementDragStart true "a" twoParagraphs)
       = Thrown NotFoundError w'
       /\ dragState w' = mkDragState None (Some "a").
Proof.
  split; [vm_compute; reflexivity|].
  eexists. split; vm_compute; reflexivity.
Qed.

(* ------------------------------------------------------------------ *)
(** ** A new element from the library *)

Lemma saveCleanContent_contentRef (B : Browser) (w : World) :
  contentRef (saveCleanContent B w) = contentRef w.
Proof.
  unfold saveCleanContent. destruct (contentRef w) as [c|] eqn:E; [|exact E].
  destruct (cleanClone c (nextNode w)). exact E.
Qed.

Lemma saveCleanContent_effects (B : Browser) (w : World) (c : Node) :
  contentRef w = Some c ->
  effects (saveCleanContent B w)
  = effects w
    ++ [Invoke (OnContentUpdate (innerHTML B (fst (cleanClone c (nextNode w)))))].
Proof.
  intros E. unfold saveCleanContent. rewrite E.
  destruct (cleanClone c (nextNode w)). reflexivity.
Qed.

(** C10.  A library element dropped on a mounted container: when the
    container holds no tagged element, or its markup contains
    [Start Building Your Layout], all its children go, untagged ones
    included, and the new element is the only child; otherwise the
    children stay as they are and the new element is appended after them.
    The new element is the first element of the parsed template, with the
    new identifier and the base styling; the rest of the template is not
    used. *)
Theorem createNewElement_placement (B : Browser)
  (elementLibrary : list ElementLibraryItem) (elementType template : string)
  (w : World) (ec e0 : Element) (cs cs0 : list Node) :
  contentRef w = Some (ElementNode ec cs) ->
  templateOf elementLibrary elementType = Some template ->
  truthy template = true ->
  firstElementChild (templateNodes B template (S (nextNode w)))
    = Some (ElementNode e0 cs0) ->
  exists (w' : World) (c' : Node) (content : string),
    createNewElement B elementLibrary elementType w = (true, w')
    /\ contentRef w' = Some c'
    /\ childrenOf c'
       = (if Nat.eqb (List.length (querySelectorAll tagged (ElementNode ec cs))) 0
             || includes (innerHTML B (ElementNode ec cs)) PLACEHOLDER_MARK
          then [] else cs)
         ++ [ElementNode
               (applyBuilderStyling false
                  (setAttribute ELEMENT_ID
                     (generateElementId B (generated w) "element" None) e0))
               cs0]
    /\ effects w'
       = effects w
         ++ [Invoke (OnContentUpdate content);
             SetTimeout 50
               [OnRefreshListeners;
                OnElementSelect (generateElementId B (generated w) "element" None)]].
Proof.
  intros Hc Ht Htr Hfirst.
  unfold createNewElement. unfold templateOf in Ht. rewrite Ht, Hc, Htr. cbn [negb].
  unfold setInnerHTML. unfold templateNodes in Hfirst.
  cbn [nextNode withGenerated].
  destruct (relabelList (parseFragment B template) (S (nextNode w))) as [nodes next].
  cbn [fst] in Hfirst. cbn [setChildren childrenOf]. rewrite Hfirst. cbn [onElement].
  set (newElement := ElementNode _ cs0).
  set (w1 := withContent _ _).
  assert (Hc1 : contentRef w1 = Some (placeOnCanvas B (ElementNode ec cs) newElement))
    by reflexivity.
  exists (emit (SetTimeout 50
                  [OnRefreshListeners;
                   OnElementSelect (generateElementId B (generated w) "element" None)])
            (saveCleanContent B w1)),
    (placeOnCanvas B (ElementNode ec cs) newElement),
    (innerHTML B (fst (cleanClone (placeOnCanvas B (ElementNode ec cs) newElement)
                         (nextNode w1)))).
  split; [reflexivity|]. split.
  - cbn [emit contentRef]. rewrite saveCleanContent_contentRef. exact Hc1.
  - split.
    + unfold placeOnCanvas.
      destruct (Nat.eqb _ 0 || includes _ PLACEHOLDER_MARK); reflexivity.
    + cbn [emit effects]. rewrite (saveCleanContent_effects B w1 _ Hc1).
      rewrite <- app_assoc. reflexivity.
Qed.

(** The property on the two paragraphs and the paragraph of the library. *)
Lemma createNewElement_witness :
  exists (w' : World) (c' : Node) (content : string),
    createNewElement refBrowser LIBRARY "paragraph" twoParagraphs = (true, w')
    /\ contentRef w' = Some c'
    /\ childrenOf c'
       = (if Nat.eqb
               (List.length
                  (querySelectorAll tagged
                     (ElementNode (createElement 0 "DIV")
                        (fst (relabelList (refParse TWO_PARAGRAPHS) 1))))) 0
             || includes
                  (innerHTML refBrowser
                     (ElementNode (createElement 0 "DIV")
                        (fst (relabelList (refParse TWO_PARAGRAPHS) 1))))
                  PLACEHOLDER_MARK
          then [] else fst (relabelList (refParse TWO_PARAGRAPHS) 1))
         ++ [ElementNode
               (applyBuilderStyling false
                  (setAttribute ELEMENT_ID
                     (generateElementId refBrowser (generated twoParagraphs) "element" None)
                     (mkElement 4 "P" []
                        [("color", "#374151"); ("line-height", "1.7")])))
               [TextNode "Write your paragraph content here."]]
    /\ effects w'
       = effects twoParagraphs
         ++ [Invoke (OnContentUpdate content);
             SetTimeout 50
               [OnRefreshListeners;
                OnElementSelect
                  (generateElementId refBrowser (generated twoParagraphs) "element" None)]].
Proof.
  apply (createNewElement_placement refBrowser LIBRARY "paragraph" PARAGRAPH_TEMPLATE
           twoParagraphs).
  - vm_compute. reflexivity.
  - vm_compute. reflexivity.
  - vm_compute. reflexivity.
  - vm_compute. reflexivity.
Defined.

(** Scenario 4 of the specification: a paragraph dropped on a canvas that
    shows only untagged text replaces that text; the container then holds
    the one tagged paragraph, one content update was made, and one
    selection of the new element is scheduled. *)
Example drop_on_untagged_canvas :
  let w := materialize refBrowser "<div>typed by hand</div>" mountedWorld in
  exists w',
    handleDrop refBrowser LIBRARY (mkDragEvent 0 "paragraph" rows) w = Returned tt w'
    /\ option_map (fun c => map tagName (descendantElements c)) (contentRef w')
       = Some ["P"]
    /\ List.length (contentUpdates (effects w')) = 1
    /\ last (effects w') (SetData EmptyString)
       = SetTimeout 50 [OnRefreshListeners; OnElementSelect "element-1700000000000-r0"].
Proof. eexists. split; [vm_compute; reflexivity|]. repeat split. Qed.

(** Only the first element of a template is used. *)
Example createNewElement_first_element_only :
  option_map (fun c => map tagName (descendantElements c))
    (contentRef
       (snd (createNewElement refBrowser
               [mkItem "pair" "Pair" "lead<h2>One</h2><p>Two</p>"] "pair" mountedWorld)))
  = Some ["H2"].
Proof. vm_compute. reflexivity. Qed.

(* ------------------------------------------------------------------ *)
(** ** Serialization *)

(** The live container is not touched by a save. *)
Lemma saveCleanContent_keeps_container (B : Browser) (w : World) :
  contentRef (saveCleanContent B w) = contentRef w
  /\ selection (saveCleanContent B w) = selection w
  /\ dragState (saveCleanContent B w) = dragState w.
Proof.
  split; [apply saveCleanContent_contentRef|].
  unfold saveCleanContent. destruct (contentRef w) as [c|]; [|auto].
  destruct (cleanClone c (nextNode w)). auto.
Qed.

(** C2, the failing input.  The figure [f] holds an image and is selected,
    so [applySelectionStyling] has given it the four corner handles.
    [saveCleanContent] removes the three selection properties from the
    tagged elements of the clone and nothing else: the content it hands to
    [onContentUpdate] still contains the four handle nodes, each with its
    own [box-shadow]. *)
Theorem saved_content_keeps_resize_handles :
  exists content,
    effects (saveCleanContent refBrowser (selectElement (Some "f") figureAndParagraph))
      = [Invoke (OnContentUpdate content)]
    /\ countMatches content HANDLE_CLASS = 4
    /\ countMatches content "box-shadow" = 4
    /\ includes content "outline" = false.
Proof. eexists. split; [vm_compute; reflexivity|]. repeat split. Qed.

(** *** What a save does remove *)

Lemma relabel_node (e : Element) (cs : list Node) (k : NodeId) :
  relabel (ElementNode e cs) k
  = (ElementNode (setNid k e) (fst (relabelList cs (S k))), snd (relabelList cs (S k))).
Proof.
  cbn [relabel].
  assert (H : forall j,
             (fix go (l : list Node) (k0 : NodeId) {struct l} : list Node * NodeId :=
                match l with
                | [] => ([], k0)
                | c :: l' =>
                    let (c', k1) := relabel c k0 in
                    let (l'', k2) := go l' k1 in (c' :: l'', k2)
                end) cs j = relabelList cs j).
  { induction cs as [|c cs IH]; intros j; cbn [relabelList]; [reflexivity|].
    destruct (relabel c j) as [c' k1]. rewrite IH. reflexivity. }
  rewrite H. destruct (relabelList cs (S k)). reflexivity.
Qed.

(** A created tree is numbered in document order, without gaps. *)
Lemma relabel_ids (n : Node) (k : NodeId) :
  map nid (elements (fst (relabel n k))) = seq k (List.length (elements n))
  /\ snd (relabel n k) = k + List.length (elements n).
Proof.
  revert k. induction n as [s|e cs IH] using Node_forall_ind; intros k.
  - simpl. split; [reflexivity | lia].
  - rewrite relabel_node. cbn [fst snd]. rewrite !elements_node.
    assert (H : forall j,
               forestIds (fst (relabelList cs j)) = seq j (List.length (forestElements cs))
               /\ snd (relabelList cs j) = j + List.length (forestElements cs)).
    { induction IH as [|c cs Hc Hcs IHcs]; intros j; cbn [relabelList].
      - split; [reflexivity | simpl; lia].
      - destruct (relabel c j) as [c' k1] eqn:Ec.
        destruct (relabelList cs k1) as [l'' k2] eqn:El.
        destruct (Hc j) as [H1 H2]. rewrite Ec in H1, H2. cbn [fst snd] in H1, H2.
        destruct (IHcs k1) as [H3 H4]. rewrite El in H3, H4. cbn [fst snd] in H3, H4.
        cbn [fst snd]. unfold forestIds in *. rewrite !forestElements_cons.
        rewrite map_app, length_app, seq_app, H1, H3, H2.
        split; [reflexivity | lia]. }
    destruct (H (S k)) as [H1 H2]. cbn [List.length map nid setNid seq].
    unfold forestIds in H1. rewrite H1, H2. split; [reflexivity | lia].
Qed.

Lemma cloneNode_uniqueIds (n : Node) (k : NodeId) : uniqueIds (fst (cloneNode n k)).
Proof.
  unfold uniqueIds, cloneNode. rewrite (proj1 (relabel_ids n k)). apply seq_NoDup.
Qed.

Lemma assocGet_assocRemove (p : string) (l : list (string * string)) :
  assocGet p (assocRemove p l) = None.
Proof.
  induction l as [|[k v] l IH]; simpl; [reflexivity|].
  destruct (k =? p)%string eqn:E; simpl; [exact IH|]. rewrite E. exact IH.
Qed.

Lemma assocGet_assocRemove_other (p q : string) (l : list (string * string)) :
  (q =? p)%string = false -> assocGet p (assocRemove q l) = assocGet p l.
Proof.
  intros H. induction l as [|[k v] l IH]; simpl; [reflexivity|].
  destruct (k =? q)%string eqn:E; simpl.
  - apply String.eqb_eq in E. subst k. rewrite H. exact IH.
  - rewrite IH. reflexivity.
Qed.

Lemma getPropertyValue_removed (p : string) (e : Element) :
  getPropertyValue p (removeProperty p e) = EmptyString.
Proof. unfold getPropertyValue. simpl. rewrite assocGet_assocRemove. reflexivity. Qed.

Lemma getPropertyValue_removed_other (p q : string) (e : Element) :
  (q =? p)%string = false ->
  getPropertyValue p (removeProperty q e) = getPropertyValue p e.
Proof.
  intros H. unfold getPropertyValue. simpl.
  rewrite assocGet_assocRemove_other by exact H. reflexivity.
Qed.

Lemma stripSelectionProperties_gentle :
  gentle freeOfSelectionProperties (fun _ => False) (onElement stripSelectionProperties).
Proof.
  intros e cs. exists (stripSelectionProperties e), cs, (forestElements cs), [].
  rewrite app_nil_r. split; [reflexivity|]. split; [repeat split|].
  split; [|auto using subseq_refl].
  unfold freeOfSelectionProperties, stripSelectionProperties.
  repeat split;
    repeat (rewrite getPropertyValue_removed
            || rewrite getPropertyValue_removed_other by reflexivity); reflexivity.
Qed.

(** In the clone that [saveCleanContent] serializes, no tagged element has
    an [outline], an [outline-offset] or a [box-shadow] of its own; the
    untagged nodes below them, resize handles included, are as they were. *)
Lemma cleanClone_strips_tagged (c : Node) (next : NodeId) (x : Element) :
  In x (querySelectorAll tagged (fst (cleanClone c next))) ->
  freeOfSelectionProperties x.
Proof.
  unfold cleanClone.
  pose proof (cloneNode_uniqueIds c next) as Hu.
  destruct (cloneNode c next) as [tempContainer next']. cbn [fst] in *.
  destruct tempContainer as [s|e cs].
  - intros [].
  - destruct (forEach_tagged_gentle _ _ e cs stripSelectionProperties_gentle Hu)
      as (cs1 & E & _ & Hall).
    rewrite E. unfold querySelectorAll, descendantElements. cbn [childrenOf].
    intros Hx. apply filter_In in Hx as [Hx Ht]. apply (Hall x Hx). exact Ht.
Qed.

(* ================================================================== *)
(** * Further properties of the engine *)
(* ================================================================== *)

(* ------------------------------------------------------------------ *)
(** ** Removal of nodes *)

Lemma removeNodeList_absent (i : NodeId) (l : list Node) :
  ~ In i (forestIds (removeNodeList i l)).
Proof.
  assert (Hnode : forall n, isNode i n = false ->
                            ~ In i (map nid (elements (removeNode i n)))).
  { induction n as [s|e cs IH] using Node_forall_ind; intros Hn.
    - simpl. tauto.
    - rewrite removeNode_node, elements_node. simpl in Hn. apply Nat.eqb_neq in Hn.
      simpl. intros [H|H]; [contradiction|].
      clear Hn. induction IH as [|c cs Hc Hcs IHcs]; cbn [removeNodeList] in H.
      + exact H.
      + destruct (isNode i c) eqn:E; [exact (IHcs H)|].
        rewrite forestElements_cons, map_app in H. apply in_app_or in H.
        destruct H as [H|H]; [exact (Hc eq_refl H) | exact (IHcs H)]. }
  unfold forestIds. induction l as [|c l IH]; cbn [removeNodeList].
  - simpl. tauto.
  - destruct (isNode i c) eqn:E; [exact IH|].
    rewrite forestElements_cons, map_app. intros H. apply in_app_or in H.
    destruct H as [H|H]; [exact (Hnode c E H) | exact (IH H)].
Qed.

(** Removing the nodes of a snapshot one after the other leaves none of
    them below the node they are removed from. *)
Lemma remove_each_absent (ids : list Element) (e : Element) (cs : list Node) :
  exists cs',
    forEach ids (fun h cur => removeNode (nid h) cur) (ElementNode e cs)
    = ElementNode e cs'
    /\ subseq (forestElements cs') (forestElements cs)
    /\ forall h, In h ids -> ~ In (nid h) (forestIds cs').
Proof.
  unfold forEach. revert cs. induction ids as [|h ids IH]; intros cs; cbn [fold_left].
  - exists cs. split; [reflexivity|]. split; [apply subseq_refl | intros h []].
  - rewrite removeNode_node.
    destruct (IH (removeNodeList (nid h) cs)) as (cs' & E & S & Habs).
    exists cs'. split; [exact E|]. split.
    + eapply subseq_trans; [exact S | apply removeNodeList_subseq].
    + intros h' [<-|Hh']; [|apply Habs; exact Hh'].
      intros Hin. apply (removeNodeList_absent (nid h) cs).
      unfold forestIds in *. eapply subseq_In; [apply subseq_map; exact S | exact Hin].
Qed.

(** The loop [querySelectorAll(sel).forEach(n => n.remove())] leaves no node
    that matches [sel], and takes nothing else than nodes out. *)
Lemma remove_all_matching (sel : Element -> bool) (e : Element) (cs : list Node) :
  exists cs',
    forEach (querySelectorAll sel (ElementNode e cs))
      (fun h cur => removeNode (nid h) cur) (ElementNode e cs)
    = ElementNode e cs'
    /\ subseq (forestElements cs') (forestElements cs)
    /\ querySelectorAll sel (ElementNode e cs') = [].
Proof.
  destruct (remove_each_absent (querySelectorAll sel (ElementNode e cs)) e cs)
    as (cs' & E & S & Habs).
  exists cs'. split; [exact E|]. split; [exact S|].
  unfold querySelectorAll, descendantElements. cbn [childrenOf].
  apply filter_all_false. intros x Hx.
  destruct (sel x) eqn:Hs; [|reflexivity]. exfalso.
  apply (Habs x).
  - unfold querySelectorAll, descendantElements. cbn [childrenOf].
    apply filter_In. split; [|exact Hs]. eapply subseq_In; eassumption.
  - unfold forestIds. apply in_map. exact Hx.
Qed.

Lemma removeDropIndicators_node (e : Element) (cs : list Node) :
  exists cs',
    removeDropIndicators (ElementNode e cs) = ElementNode e cs'
    /\ subseq (forestElements cs') (forestElements cs)
    /\ dropIndicators (ElementNode e cs') = [].
Proof. unfold removeDropIndicators, dropIndicators. apply remove_all_matching. Qed.

(* ------------------------------------------------------------------ *)
(** ** The drop indicator *)

Lemma insertBeforeChild_split (node : Node) (r : NodeId) (l l' : list Node) :
  insertBeforeChild node r l = Some l' ->
  exists pre tgt post,
    l = pre ++ tgt :: post /\ isNode r tgt = true /\ l' = pre ++ node :: tgt :: post.
Proof.
  revert l'. induction l as [|c l IH]; intros l'; cbn [insertBeforeChild]; [discriminate|].
  destruct (isNode r c) eqn:E.
  - intros [= <-]. exists [], c, l. auto.
  - destruct (insertBeforeChild node r l) as [l0|]; [|discriminate].
    intros [= <-]. destruct (IH l0 eq_refl) as (pre & tgt & post & -> & Ht & ->).
    exists (c :: pre), tgt, post. auto.
Qed.

Lemma dropIndicators_node (e : Element) (cs : list Node) :
  dropIndicators (ElementNode e cs) = filter isDropIndicator (forestElements cs).
Proof. reflexivity. Qed.

(** X1.  While an existing element is dragged, [handleDragOver] leaves at
    most one drop indicator in the container: the indicators of earlier
    events are removed first, and when the handler returns the container
    holds exactly the one it has just created; when the insertion throws,
    it holds none. *)
Theorem handleDragOver_single_indicator (e : DragEvent) (w : World) (ec : Element)
  (cs : list Node) (id : string) :
  contentRef w = Some (ElementNode ec cs) ->
  draggedElementId (dragState w) = Some id ->
  truthy id = true ->
  match handleDragOver e w with
  | Returned _ w' =>
      exists c' x, contentRef w' = Some c' /\ dropIndicators c' = [x]
                   /\ nid x = nextNode w
  | Thrown _ w' =>
      exists c', contentRef w' = Some c' /\ dropIndicators c' = []
  end.
Proof.
  intros Hc Hd Ht. unfold handleDragOver. rewrite Hd, Ht, Hc.
  destruct (removeDropIndicators_node ec cs) as (cs1 & E & _ & Hnone).
  rewrite E. cbn [nextNode withContent].
  rewrite dropIndicators_node in Hnone.
  destruct (findInsertPosition e _) as [r|].
  - unfold insertBefore.
    destruct (insertBeforeChild (dropIndicator (nextNode w)) (nid r) cs1) as [cs2|] eqn:Ei.
    + apply insertBeforeChild_split in Ei as (pre & tgt & post & -> & _ & ->).
      eexists _, _. split; [reflexivity|].
      rewrite dropIndicators_node.
      rewrite forestElements_app, filter_app in Hnone.
      apply app_eq_nil in Hnone as [Hpre Hpost].
      rewrite forestElements_app, forestElements_cons, !filter_app, Hpre, Hpost.
      split; reflexivity.
    + eexists. split; [reflexivity|]. rewrite dropIndicators_node. exact Hnone.
  - eexists _, _. split; [reflexivity|].
    cbn [appendChild]. rewrite dropIndicators_node, forestElements_app, filter_app, Hnone.
    split; reflexivity.
Qed.

(** The property on the two paragraphs while [a] is dragged, with a stale
    indicator of an earlier event still in the container. *)
Lemma handleDragOver_single_indicator_witness :
  match handleDragOver (mkDragEvent 120 "existing:a" rows)
          (worldOf (handleDragOver (mkDragEvent 120 "existing:a" rows)
                      (handleExistingElementDragStart true "a" twoParagraphs))) with
  | Returned _ w' =>
      exists c' x, contentRef w' = Some c' /\ dropIndicators c' = [x]
                   /\ nid x = nextNode
                                (worldOf (handleDragOver (mkDragEvent 120 "existing:a" rows)
                                  (handleExistingElementDragStart true "a" twoParagraphs)))
  | Thrown _ w' =>
      exists c', contentRef w' = Some c' /\ dropIndicators c' = []
  end.
Proof.
  apply (handleDragOver_single_indicator (mkDragEvent 120 "existing:a" rows)
           (worldOf (handleDragOver (mkDragEvent 120 "existing:a" rows)
                       (handleExistingElementDragStart true "a" twoParagraphs)))
           (createElement 0 "DIV")
           (childrenOf
              (match contentRef
                       (worldOf (handleDragOver (mkDragEvent 120 "existing:a" rows)
                                   (handleExistingElementDragStart true "a" twoParagraphs)))
               with Some c => c | None => TextNode EmptyString end))
           "a").
  - vm_compute. reflexivity.
  - vm_compute. reflexivity.
  - vm_compute. reflexivity.
Defined.

(** Two events in a row on the two paragraphs: one indicator, before [b]. *)
Example second_dragOver_replaces_indicator :
  option_map (fun c => map (fun x => (tagName x, getAttribute ELEMENT_ID x,
                                      getAttribute "class" x))
                         (descendantElements c))
    (contentRef
       (worldOf (handleDragOver (mkDragEvent 120 "existing:a" rows)
          (worldOf (handleDragOver (mkDragEvent 120 "existing:a" rows)
                      (handleExistingElementDragStart true "a" twoParagraphs))))))
  = Some [("P", Some "a", None); ("DIV", None, Some "drop-indicator");
          ("P", Some "b", None)].
Proof. vm_compute. reflexivity. Qed.

(* ------------------------------------------------------------------ *)
(** ** The end of a drag *)

Lemma applyBuilderStyling_sameIdentity (b : bool) (e : Element) :
  sameIdentity (applyBuilderStyling b e) e.
Proof.
  unfold applyBuilderStyling. cbv zeta.
  repeat match goal with
         | |- context [if ?c then _ else _] => destruct c
         end; repeat split.
Qed.

Lemma sameIdentity_hasClass (c : string) (a b : Element) :
  sameIdentity a b -> hasClass c a = hasClass c b.
Proof.
  intros (_ & _ & H). unfold hasClass, getAttribute. rewrite H. reflexivity.
Qed.

Lemma applyBuilderStyling_base (e : Element) :
  getPropertyValue "cursor" (applyBuilderStyling false e) = "pointer"
  /\ getPropertyValue "min-height" (applyBuilderStyling false e) = "20px"
  /\ getPropertyValue "position" (applyBuilderStyling false e) = "relative".
Proof.
  unfold applyBuilderStyling. cbv zeta.
  repeat match goal with
         | |- context [if ?c then _ else _] => destruct c
         end; repeat split; style_simpl; reflexivity.
Qed.

Lemma applyBuilderStyling_keeps_full_opacity (e : Element) :
  getPropertyValue "opacity" e = "1" ->
  getPropertyValue "opacity" (applyBuilderStyling false e) = "1".
Proof.
  intros H. unfold applyBuilderStyling. cbv zeta.
  repeat match goal with
         | |- context [if ?c then _ else _] => destruct c
         end; style_simpl; first [exact H | reflexivity].
Qed.

Lemma dragEnd_mutation_gentle :
  gentle restoredAfterDrag (fun _ => False)
    (onElement (fun e => applyBuilderStyling false (setProperty "opacity" "1" e))).
Proof.
  intros e cs.
  exists (applyBuilderStyling false (setProperty "opacity" "1" e)), cs,
    (forestElements cs), [].
  rewrite app_nil_r. split; [reflexivity|]. split.
  - eapply sameIdentity_trans; [apply applyBuilderStyling_sameIdentity|].
    apply sameIdentity_setProperty.
  - split; [|auto using subseq_refl].
    unfold restoredAfterDrag. split.
    + apply applyBuilderStyling_keeps_full_opacity. apply getPropertyValue_same.
    + apply applyBuilderStyling_base.
Qed.

Lemma uniqueIds_thinned (e : Element) (cs cs' : list Node) :
  uniqueIds (ElementNode e cs) ->
  subseq (forestElements cs') (forestElements cs) ->
  uniqueIds (ElementNode e cs').
Proof.
  intros Hu S. apply uniqueIds_node in Hu as [Hroot Hnd]. apply uniqueIds_node.
  assert (Sid : subseq (forestIds cs') (forestIds cs)) by (apply subseq_map; exact S).
  split.
  - intros H. apply Hroot. eapply subseq_In; eassumption.
  - eapply subseq_NoDup; eassumption.
Qed.

(** X2.  [handleDragEnd] always clears the drag state; in a mounted
    container it leaves no drop indicator, and every tagged element is
    fully opaque again and has the base styling ([cursor], [min-height],
    [position]); the elements keep their identity, tag and attributes. *)
Theorem handleDragEnd_restores (w : World) (ec : Element) (cs : list Node) :
  contentRef w = Some (ElementNode ec cs) ->
  uniqueIds (ElementNode ec cs) ->
  dragState (handleDragEnd w) = clearedDragState
  /\ exists c',
       contentRef (handleDragEnd w) = Some c'
       /\ dropIndicators c' = []
       /\ (forall x, In x (querySelectorAll tagged c') -> restoredAfterDrag x)
       /\ (forall x, In x (descendantElements c') ->
             exists x0, In x0 (forestElements cs) /\ sameIdentity x x0).
Proof.
  intros Hc Hu. unfold handleDragEnd. rewrite Hc.
  cbn [setDragState dragState contentRef withContent].
  split; [reflexivity|].
  destruct (removeDropIndicators_node ec cs) as (cs1 & E & S & Hnone). rewrite E.
  destruct (forEach_tagged_gentle _ _ ec cs1 dragEnd_mutation_gentle
              (uniqueIds_thinned _ _ _ Hu S)) as (cs2 & E2 & _ & Hall).
  rewrite E2. exists (ElementNode ec cs2). split; [reflexivity|].
  assert (Hprov : forall x, In x (forestElements cs2) ->
                    exists x0, In x0 (forestElements cs1) /\ sameIdentity x x0).
  { intros x Hx. apply (Hall x Hx). }
  split; [|split].
  - rewrite dropIndicators_node. apply filter_all_false. intros x Hx.
    destruct (Hprov x Hx) as (x0 & Hx0 & Hs).
    unfold isDropIndicator. rewrite (sameIdentity_hasClass _ _ _ Hs).
    rewrite dropIndicators_node in Hnone.
    destruct (hasClass "drop-indicator" x0) eqn:Ec; [|reflexivity].
    exfalso. assert (Hin : In x0 (filter isDropIndicator (forestElements cs1)))
      by (apply filter_In; split; assumption).
    rewrite Hnone in Hin. exact Hin.
  - intros x Hx. unfold querySelectorAll, descendantElements in Hx. cbn [childrenOf] in Hx.
    apply filter_In in Hx as [Hx Ht]. apply (Hall x Hx). exact Ht.
  - intros x Hx. destruct (Hprov x Hx) as (x0 & Hx0 & Hs).
    exists x0. split; [eapply subseq_In; eassumption | exact Hs].
Qed.

(** The property on the two paragraphs after [a] was picked up (and
    dimmed) and an indicator was drawn. *)
Lemma handleDragEnd_restores_witness :
  dragState
    (handleDragEnd
       (worldOf (handleDragOver (mkDragEvent 120 "existing:a" rows)
                   (handleExistingElementDragStart true "a" twoParagraphs))))
  = clearedDragState
  /\ exists c',
       contentRef
         (handleDragEnd
            (worldOf (handleDragOver (mkDragEvent 120 "existing:a" rows)
                        (handleExistingElementDragStart true "a" twoParagraphs))))
       = Some c'
       /\ dropIndicators c' = []
       /\ (forall x, In x (querySelectorAll tagged c') -> restoredAfterDrag x)
       /\ (forall x, In x (descendantElements c') ->
             exists x0,
               In x0 (forestElements
                        (childrenOf
                           (match contentRef
                                    (worldOf
                                       (handleDragOver (mkDragEvent 120 "existing:a" rows)
                                          (handleExistingElementDragStart true "a"
                                             twoParagraphs)))
                            with Some c => c | None => TextNode EmptyString end)))
               /\ sameIdentity x x0).
Proof.
  apply (handleDragEnd_restores
           (worldOf (handleDragOver (mkDragEvent 120 "existing:a" rows)
                       (handleExistingElementDragStart true "a" twoParagraphs)))
           (createElement 0 "DIV")).
  - vm_compute. reflexivity.
  - unfold uniqueIds. vm_compute. repeat constructor; simpl; intuition discriminate.
Defined.

(** The dimmed paragraph is opaque again after the drag ends. *)
Example dragEnd_undims :
  option_map (fun c => map (getPropertyValue "opacity") (querySelectorAll tagged c))
    (contentRef (handleExistingElementDragStart true "a" twoParagraphs))
  = Some ["0.7"; EmptyString]
  /\ option_map (fun c => map (getPropertyValue "opacity") (querySelectorAll tagged c))
       (contentRef (handleDragEnd (handleExistingElementDragStart true "a" twoParagraphs)))
     = Some ["1"; "1"].
Proof. split; vm_compute; reflexivity. Qed.

(* ------------------------------------------------------------------ *)
(** ** The payload of a reorder drag *)

Lemma reorderPayload_decodes (id : string) :
  startsWith (reorderPayload id) "existing:" = true
  /\ truthy (reorderPayload id) = true
  /\ replaceFirst "existing:" EmptyString (reorderPayload id) = id.
Proof.
  assert (H : prefix EmptyString id = true) by (destruct id; reflexivity).
  unfold startsWith, reorderPayload. cbn. rewrite H. repeat split.
Qed.

(** X3.  The payload of a reorder drag round-trips: [handleDrop] reads
    from the payload that [handleExistingElementDragStart] wrote for an
    element exactly that element's identifier, whatever characters it is
    made of, and reorders that element at the insertion point of the
    drop; when the reorder returns, the drag state is cleared. *)
Theorem reorder_payload_round_trip (B : Browser)
  (elementLibrary : list ElementLibraryItem) (e : DragEvent) (w0 w : World)
  (elementId : string) :
  truthy elementId = true ->
  transferData e = reorderPayload elementId ->
  effects (handleExistingElementDragStart true elementId w0)
    = effects w0 ++ [SetData (transferData e)]
  /\ draggedElementId (dragState (handleExistingElementDragStart true elementId w0))
     = Some elementId
  /\ handleDrop B elementLibrary e w
     = match reorderElement B elementId
               (option_map nid (findInsertPosition e (withoutIndicators w)))
               (withoutIndicators w) with
       | Thrown exn w' => Thrown exn w'
       | Returned _ w' => Returned tt (setDragState clearedDragState w')
       end.
Proof.
  intros Ht He. split; [|split].
  - unfold handleExistingElementDragStart. rewrite Ht, He. cbn [negb orb].
    destruct (contentRef _) as [c|]; [|reflexivity].
    destruct (querySelector _ c); reflexivity.
  - unfold handleExistingElementDragStart. rewrite Ht. cbn [negb orb].
    destruct (contentRef _) as [c|]; [|reflexivity].
    destruct (querySelector _ c); reflexivity.
  - unfold handleDrop. fold (withoutIndicators w). rewrite He.
    destruct (reorderPayload_decodes elementId) as (H1 & H2 & H3).
    rewrite H1, H2, H3, Ht. reflexivity.
Qed.

(** The property on paragraph [a] of the two paragraphs. *)
Lemma reorder_payload_witness :
  effects (handleExistingElementDragStart true "a" twoParagraphs)
    = effects twoParagraphs
      ++ [SetData (transferData (mkDragEvent 160 "existing:a" rows))]
  /\ draggedElementId (dragState (handleExistingElementDragStart true "a" twoParagraphs))
     = Some "a"
  /\ handleDrop refBrowser LIBRARY (mkDragEvent 160 "existing:a" rows)
       (handleExistingElementDragStart true "a" twoParagraphs)
     = match reorderElement refBrowser "a"
               (option_map nid
                  (findInsertPosition (mkDragEvent 160 "existing:a" rows)
                     (withoutIndicators
                        (handleExistingElementDragStart true "a" twoParagraphs))))
               (withoutIndicators (handleExistingElementDragStart true "a" twoParagraphs))
       with
       | Thrown exn w' => Thrown exn w'
       | Returned _ w' => Returned tt (setDragState clearedDragState w')
       end.
Proof.
  apply (reorder_payload_round_trip refBrowser LIBRARY (mkDragEvent 160 "existing:a" rows)
           twoParagraphs (handleExistingElementDragStart true "a" twoParagraphs) "a").
  - reflexivity.
  - reflexivity.
Defined.

(** An identifier that itself contains the prefix is read back whole. *)
Example payload_with_prefix_inside :
  replaceFirst "existing:" EmptyString (reorderPayload "existing:x") = "existing:x".
Proof. reflexivity. Qed.

(** A drag start without a transfer channel or with an empty identifier
    changes nothing. *)
Lemma invalid_drag_start_is_noop (w : World) (elementId : string) :
  handleExistingElementDragStart false elementId w = w
  /\ handleExistingElementDragStart true EmptyString w = w.
Proof. split; reflexivity. Qed.

(* ------------------------------------------------------------------ *)
(** ** The selection state and the lookup *)






(* ------------------------------------------------------------------ *)
(** ** A reorder that succeeds *)

Lemma findNode_node (i : NodeId) (e : Element) (cs : list Node) :
  findNode i (ElementNode e cs)
  = if Nat.eqb (nid e) i then Some (ElementNode e cs) else findNodeList i cs.
Proof.
  cbn [findNode]. destruct (Nat.eqb (nid e) i); [reflexivity|].
  induction cs as [|c cs IH]; cbn [findNodeList]; [reflexivity|].
  destruct (findNode i c); [reflexivity | exact IH].
Qed.

Lemma findNode_absent (i : NodeId) (n : Node) :
  ~ In i (map nid (elements n)) -> findNode i n = None.
Proof.
  induction n as [s|e cs IH] using Node_forall_ind; intros Hi; [reflexivity|].
  rewrite findNode_node. rewrite elements_node in Hi. simpl in Hi.
  destruct (Nat.eqb (nid e) i) eqn:E.
  - apply Nat.eqb_eq in E. tauto.
  - assert (Hcs : ~ In i (map nid (forestElements cs))) by tauto. clear Hi E.
    induction IH as [|c cs Hc Hcs' IHcs]; cbn [findNodeList]; [reflexivity|].
    rewrite forestElements_cons, map_app in Hcs.
    rewrite Hc, IHcs; [reflexivity| |]; intros H; apply Hcs, in_or_app; auto.
Qed.

Lemma findNodeList_absent (i : NodeId) (l : list Node) :
  ~ In i (forestIds l) -> findNodeList i l = None.
Proof.
  unfold forestIds. induction l as [|c l IH]; intros Hi; cbn [findNodeList]; [reflexivity|].
  rewrite forestElements_cons, map_app in Hi.
  rewrite findNode_absent, IH; [reflexivity| |]; intros H; apply Hi, in_or_app; auto.
Qed.

Lemma removeNode_absent (i : NodeId) (n : Node) :
  ~ In i (map nid (elements n)) -> removeNode i n = n.
Proof.
  induction n as [s|e cs IH] using Node_forall_ind; intros Hi; [reflexivity|].
  rewrite removeNode_node. f_equal. rewrite elements_node in Hi. simpl in Hi.
  assert (Hcs : ~ In i (map nid (forestElements cs))) by tauto. clear Hi.
  induction IH as [|c cs Hc Hcs' IHcs]; cbn [removeNodeList]; [reflexivity|].
  rewrite forestElements_cons, map_app in Hcs.
  destruct (isNode i c) eqn:E.
  - exfalso. apply Hcs, in_or_app. left. destruct c as [s|ec ccs]; [discriminate|].
    simpl in E. apply Nat.eqb_eq in E. rewrite elements_node. simpl. auto.
  - rewrite Hc, IHcs; [reflexivity| |]; intros H; apply Hcs, in_or_app; auto.
Qed.

Lemma removeNodeList_absent_id (i : NodeId) (l : list Node) :
  ~ In i (forestIds l) -> removeNodeList i l = l.
Proof.
  unfold forestIds. induction l as [|c l IH]; intros Hi; cbn [removeNodeList]; [reflexivity|].
  rewrite forestElements_cons, map_app in Hi.
  destruct (isNode i c) eqn:E.
  - exfalso. apply Hi, in_or_app. left. destruct c as [s|ec ccs]; [discriminate|].
    simpl in E. apply Nat.eqb_eq in E. rewrite elements_node. simpl. auto.
  - rewrite removeNode_absent, IH; [reflexivity| |]; intros H; apply Hi, in_or_app; auto.
Qed.

(** The node a reference denotes is found at one place; [remove] takes it
    out with everything below it and nothing else. *)
Lemma removeNode_split_list (i : NodeId) (l : list Node) :
  NoDup (forestIds l) -> In i (forestIds l) ->
  exists (pre post : list Element) (e : Element) (cs : list Node),
    nid e = i
    /\ forestElements l = pre ++ elements (ElementNode e cs) ++ post
    /\ forestElements (removeNodeList i l) = pre ++ post
    /\ findNodeList i l = Some (ElementNode e cs).
Proof.
  revert l.
  assert (Hnode : forall n,
             isNode i n = false ->
             NoDup (map nid (elements n)) -> In i (map nid (elements n)) ->
             exists pre post e cs,
               nid e = i
               /\ elements n = pre ++ elements (ElementNode e cs) ++ post
               /\ elements (removeNode i n) = pre ++ post
               /\ findNode i n = Some (ElementNode e cs)).
  { induction n as [s|e cs IH] using Node_forall_ind; intros Hroot Hnd Hin.
    - simpl in Hin. contradiction.
    - rewrite removeNode_node, findNode_node. simpl in Hroot. rewrite Hroot.
      apply Nat.eqb_neq in Hroot.
      rewrite elements_node in Hnd, Hin. simpl in Hnd, Hin.
      destruct Hin as [Hin|Hin]; [contradiction|].
      inversion Hnd as [|x xs Hx Hnd']; subst. clear Hnd Hx.
      assert (Hl : exists pre post e0 cs0,
                 nid e0 = i
                 /\ forestElements cs = pre ++ elements (ElementNode e0 cs0) ++ post
                 /\ forestElements (removeNodeList i cs) = pre ++ post
                 /\ findNodeList i cs = Some (ElementNode e0 cs0)).
      { clear Hroot. induction IH as [|c cs Hc Hcs IHcs].
        - simpl in Hin. contradiction.
        - rewrite forestElements_cons, map_app in Hnd', Hin.
          cbn [removeNodeList findNodeList].
          destruct (isNode i c) eqn:Ec.
          + destruct c as [s|e0 cs0]; [discriminate|]. simpl in Ec.
            apply Nat.eqb_eq in Ec.
            exists [], (forestElements cs), e0, cs0.
            split; [exact Ec|]. rewrite forestElements_cons.
            split; [reflexivity|].
            rewrite findNode_node. apply Nat.eqb_eq in Ec. rewrite Ec.
            split; [|reflexivity]. cbn [app].
            rewrite removeNodeList_absent_id; [reflexivity|].
            intros H. apply Nat.eqb_eq in Ec.
            eapply (NoDup_app_disjoint _ _ i Hnd'); [|exact H].
            rewrite elements_node. simpl. auto.
          + destruct (in_dec Nat.eq_dec i (map nid (elements c))) as [Hc'|Hc'].
            * destruct (Hc eq_refl (NoDup_app_l _ _ Hnd') Hc')
                as (pre & post & e0 & cs0 & E0 & E1 & E2 & E3).
              exists pre, (post ++ forestElements cs), e0, cs0.
              split; [exact E0|]. rewrite !forestElements_cons, E1, E2, E3.
              rewrite removeNodeList_absent_id.
              -- rewrite <- !app_assoc. auto.
              -- intros H. eapply NoDup_app_disjoint; eassumption.
            * apply in_app_or in Hin. destruct Hin as [Hin|Hin]; [contradiction|].
              destruct (IHcs Hin (NoDup_app_r _ _ Hnd'))
                as (pre & post & e0 & cs0 & E0 & E1 & E2 & E3).
              exists (elements c ++ pre), post, e0, cs0.
              split; [exact E0|]. rewrite !forestElements_cons.
              rewrite removeNode_absent, findNode_absent by exact Hc'.
              rewrite E1, E2, E3. rewrite <- !app_assoc. auto. }
      destruct Hl as (pre & post & e0 & cs0 & E0 & E1 & E2 & E3).
      exists (e :: pre), post, e0, cs0. rewrite !elements_node, E1, E2, E3. auto. }
  induction l as [|c l IH]; intros Hnd Hin.
  - simpl in Hin. contradiction.
  - unfold forestIds in *. rewrite forestElements_cons, map_app in Hnd, Hin.
    cbn [removeNodeList findNodeList].
    destruct (isNode i c) eqn:Ec.
    + destruct c as [s|e0 cs0]; [discriminate|]. simpl in Ec.
      apply Nat.eqb_eq in Ec.
      exists [], (forestElements l), e0, cs0.
      split; [exact Ec|]. rewrite forestElements_cons.
      split; [reflexivity|].
      rewrite findNode_node. apply Nat.eqb_eq in Ec. rewrite Ec.
      split; [|reflexivity]. cbn [app].
      rewrite removeNodeList_absent_id; [reflexivity|].
      intros H. apply Nat.eqb_eq in Ec.
      eapply (NoDup_app_disjoint _ _ i Hnd); [|exact H].
      rewrite elements_node. simpl. auto.
    + destruct (in_dec Nat.eq_dec i (map nid (elements c))) as [Hc'|Hc'].
      * destruct (Hnode c Ec (NoDup_app_l _ _ Hnd) Hc')
          as (pre & post & e0 & cs0 & E0 & E1 & E2 & E3).
        exists pre, (post ++ forestElements l), e0, cs0.
        split; [exact E0|]. rewrite !forestElements_cons, E1, E2, E3.
        rewrite removeNodeList_absent_id.
        -- rewrite <- !app_assoc. auto.
        -- intros H. eapply NoDup_app_disjoint; eassumption.
      * apply in_app_or in Hin. destruct Hin as [Hin|Hin]; [contradiction|].
        destruct (IH (NoDup_app_r _ _ Hnd) Hin)
          as (pre & post & e0 & cs0 & E0 & E1 & E2 & E3).
        exists (elements c ++ pre), post, e0, cs0.
        split; [exact E0|]. rewrite !forestElements_cons.
        rewrite removeNode_absent, findNode_absent by exact Hc'.
        rewrite E1, E2, E3. rewrite <- !app_assoc. auto.
Qed.






Lemma nid_stripSelectionProperties (e : Element) :
  nid (stripSelectionProperties e) = nid e.
Proof. reflexivity. Qed.

Lemma forestIds_app (l k : list Node) : forestIds (l ++ k) = forestIds l ++ forestIds k.
Proof. unfold forestIds. rewrite forestElements_app, map_app. reflexivity. Qed.

Lemma forestIds_cons (c : Node) (l : list Node) :
  forestIds (c :: l) = map nid (elements c) ++ forestIds l.
Proof. unfold forestIds. rewrite forestElements_cons, map_app. reflexivity. Qed.




(** The order of the paragraphs and the saved markup after [b] was moved
    before [a], and after [a] was moved to the end. *)
Example reorder_b_before_a :
  option_map (fun c => map (getAttribute ELEMENT_ID) (topLevelElements c))
    (contentRef (worldOf (reorderElement refBrowser "b" (Some 1) twoParagraphs)))
  = Some [Some "b"; Some "a"]
  /\ option_map (fun c => map (getAttribute ELEMENT_ID) (topLevelElements c))
       (contentRef (worldOf (reorderElement refBrowser "a" None twoParagraphs)))
     = Some [Some "b"; Some "a"].
Proof. split; vm_compute; reflexivity. Qed.

(* ------------------------------------------------------------------ *)
(** ** Dropped images and unknown payloads *)

Lemma placeOnCanvas_children (B : Browser) (e : Element) (cs : list Node)
  (newElement : Node) :
  placeOnCanvas B (ElementNode e cs) newElement
  = ElementNode e (keptOnCanvas B (ElementNode e cs) ++ [newElement]).
Proof.
  unfold placeOnCanvas, keptOnCanvas.
  destruct (Nat.eqb _ 0 || includes _ PLACEHOLDER_MARK); reflexivity.
Qed.

Lemma createImageElement_places (B : Browser) (imageUrl : string) (w : World)
  (ec : Element) (cs : list Node) :
  contentRef w = Some (ElementNode ec cs) ->
  exists (w' : World) (figure img : Element) (caption : Node) (content : string),
    createImageElement B imageUrl w = (true, w')
    /\ contentRef w'
       = Some (ElementNode ec
                 (keptOnCanvas B (ElementNode ec cs)
                  ++ [ElementNode figure [ElementNode img []; caption]]))
    /\ (tagName figure = "FIGURE"
        /\ getAttribute ELEMENT_ID figure
           = Some (generateElementId B (generated w) "element" None)
        /\ getPropertyValue "cursor" figure = "pointer")
    /\ (tagName img = "IMG" /\ getAttribute "src" img = Some imageUrl)
    /\ textContent caption = "Image caption goes here"
    /\ effects w'
       = effects w
         ++ [Invoke (OnContentUpdate content);
             SetTimeout 50
               [OnRefreshListeners;
                OnElementSelect (generateElementId B (generated w) "element" None)]].
Proof.
  intros Hc. unfold createImageElement. rewrite Hc. cbv zeta.
  cbn [nextNode withGenerated withNextNode contentRef].
  rewrite placeOnCanvas_children.
  set (c' := ElementNode ec _). set (w1 := withContent c' _).
  assert (Hc1 : contentRef w1 = Some c') by reflexivity.
  eexists _, _, _, _, _. split; [reflexivity|].
  split. { cbn [emit contentRef]. rewrite saveCleanContent_contentRef. exact Hc1. }
  split.
  { split; [reflexivity|]. split.
    - unfold getAttribute. rewrite applyBuilderStyling_attributes. reflexivity.
    - apply applyBuilderStyling_base. }
  split; [split; reflexivity|].
  split; [reflexivity|].
  cbn [emit effects]. rewrite (saveCleanContent_effects B w1 _ Hc1).
  rewrite <- app_assoc. reflexivity.
Qed.

Lemma brace_is_no_reorder (data : string) :
  startsWith data "{" = true ->
  truthy data = true /\ startsWith data "existing:" = false.
Proof.
  unfold startsWith. intros H. destruct (prefix_head _ _ _ H) as [s' ->].
  split; reflexivity.
Qed.

(** X6.  An image dropped on a mounted container.  When the payload of the
    drop is an image for the browser (it passes the textual test, parses
    as JSON, has [type] ['image'] and a truthy [imageUrl]), [handleDrop]
    returns with the drag state cleared; the container keeps what
    [createNewElement] would keep of it after the indicators are removed,
    and gets one more child at the end: a [figure] that carries the new
    identifier and the base styling, whose children are an [img] with the
    dropped URL as [src] and the caption.  The content is saved once and
    the new figure is selected after 50 ms. *)
Theorem image_drop_appends_figure (B : Browser)
  (elementLibrary : list ElementLibraryItem) (e : DragEvent) (w : World)
  (ec : Element) (cs : list Node) (imageUrl : string) :
  contentRef w = Some (ElementNode ec cs) ->
  imageOf B (transferData e) = Some imageUrl ->
  exists (w' : World) (figure img : Element) (caption : Node) (content : string),
    handleDrop B elementLibrary e w = Returned tt w'
    /\ dragState w' = clearedDragState
    /\ contentRef w'
       = Some (ElementNode ec
                 (keptOnCanvas B (removeDropIndicators (ElementNode ec cs))
                  ++ [ElementNode figure [ElementNode img []; caption]]))
    /\ (tagName figure = "FIGURE"
        /\ getAttribute ELEMENT_ID figure
           = Some (generateElementId B (generated w) "element" None)
        /\ getPropertyValue "cursor" figure = "pointer")
    /\ (tagName img = "IMG" /\ getAttribute "src" img = Some imageUrl)
    /\ textContent caption = "Image caption goes here"
    /\ effects w'
       = effects w
         ++ [Invoke (OnContentUpdate content);
             SetTimeout 50
               [OnRefreshListeners;
                OnElementSelect (generateElementId B (generated w) "element" None)]].
Proof.
  intros Hc Himg. unfold imageOf in Himg.
  destruct (looksLikeImagePayload (transferData e)) eqn:Hl; [|discriminate].
  destruct (JSON_parse B (transferData e)) as [parsedData|] eqn:Hp; [|discriminate].
  assert (Hb : startsWith (transferData e) "{" = true).
  { unfold looksLikeImagePayload in Hl.
    apply andb_prop in Hl. destruct Hl as [Hl _].
    apply andb_prop in Hl. destruct Hl as [Hl _]. exact Hl. }
  destruct (brace_is_no_reorder _ Hb) as [Ht Hn].
  destruct (removeDropIndicators_node ec cs) as (cs' & Er & _ & _).
  destruct (createImageElement_places B imageUrl
              (withContent (ElementNode ec cs') w) ec cs' eq_refl)
    as (w' & figure & img & caption & content & E1 & E2 & E3 & E4 & E5 & E6).
  exists (setDragState clearedDragState w'), figure, img, caption, content.
  split.
  { unfold handleDrop. rewrite Hc, Er, Ht, Hn. cbn [andb].
    unfold looksLikeImagePayload in Hl. rewrite Hl, Hp, Himg, E1. reflexivity. }
  split; [reflexivity|].
  split. { cbn [contentRef setDragState]. rewrite Er. exact E2. }
  split; [exact E3|]. split; [exact E4|]. split; [exact E5|]. exact E6.
Qed.

(** The property on the two paragraphs, for a payload as the image panel
    of the builder writes it. *)
Lemma image_drop_witness :
  exists (w' : World) (figure img : Element) (caption : Node) (content : string),
    handleDrop refBrowser LIBRARY
      (mkDragEvent 120
         ("{" ++ dq ++ "type" ++ dq ++ ":" ++ dq ++ "image" ++ dq ++ ","
          ++ dq ++ "imageUrl" ++ dq ++ ":" ++ dq ++ "u.png" ++ dq ++ "}") rows)
      twoParagraphs
    = Returned tt w'
    /\ dragState w' = clearedDragState
    /\ contentRef w'
       = Some (ElementNode (createElement 0 "DIV")
                 (keptOnCanvas refBrowser
                    (removeDropIndicators
                       (ElementNode (createElement 0 "DIV")
                          (fst (relabelList (refParse TWO_PARAGRAPHS) 1))))
                  ++ [ElementNode figure [ElementNode img []; caption]]))
    /\ (tagName figure = "FIGURE"
        /\ getAttribute ELEMENT_ID figure
           = Some (generateElementId refBrowser (generated twoParagraphs) "element" None)
        /\ getPropertyValue "cursor" figure = "pointer")
    /\ (tagName img = "IMG" /\ getAttribute "src" img = Some "u.png")
    /\ textContent caption = "Image caption goes here"
    /\ effects w'
       = effects twoParagraphs
         ++ [Invoke (OnContentUpdate content);
             SetTimeout 50
               [OnRefreshListeners;
                OnElementSelect
                  (generateElementId refBrowser (generated twoParagraphs) "element"
                     None)]].
Proof.
  apply (image_drop_appends_figure refBrowser LIBRARY
           (mkDragEvent 120
              ("{" ++ dq ++ "type" ++ dq ++ ":" ++ dq ++ "image" ++ dq ++ ","
               ++ dq ++ "imageUrl" ++ dq ++ ":" ++ dq ++ "u.png" ++ dq ++ "}") rows)
           twoParagraphs (createElement 0 "DIV")
           (fst (relabelList (refParse TWO_PARAGRAPHS) 1)) "u.png").
  - vm_compute. reflexivity.
  - vm_compute. reflexivity.
Defined.

(** The figure goes after the two paragraphs, and the saved markup holds
    it. *)
Example image_drop_after_paragraphs :
  option_map (fun c => map tagName (topLevelElements c))
    (contentRef
       (worldOf
          (handleDrop refBrowser LIBRARY
             (mkDragEvent 120
                ("{" ++ dq ++ "type" ++ dq ++ ":" ++ dq ++ "image" ++ dq ++ ","
                 ++ dq ++ "imageUrl" ++ dq ++ ":" ++ dq ++ "u.png" ++ dq ++ "}") rows)
             twoParagraphs)))
  = Some ["P"; "P"; "FIGURE"].
Proof. vm_compute. reflexivity. Qed.

(** X7.  A drop whose payload names nothing: it is no reorder payload, no
    image for the browser, and no element type of the library (the empty
    payload, a mistyped element type, JSON of another shape, text that
    fails to parse).  [handleDrop] then returns, and has done nothing but
    remove the drop indicators and clear the drag state: no element is
    created, no callback is invoked, no timer is set. *)
Theorem unknown_drop_changes_nothing (B : Browser)
  (elementLibrary : list ElementLibraryItem) (e : DragEvent) (w : World) :
  startsWith (transferData e) "existing:" = false ->
  imageOf B (transferData e) = None ->
  templateOf elementLibrary (transferData e) = None ->
  handleDrop B elementLibrary e w
  = Returned tt (setDragState clearedDragState (withoutIndicators w)).
Proof.
  intros Hn Himg Ht. unfold handleDrop. fold (withoutIndicators w).
  rewrite Hn, andb_false_r.
  assert (Hcreate : snd (createNewElement B elementLibrary (transferData e)
                           (withoutIndicators w)) = withoutIndicators w).
  { unfold createNewElement. unfold templateOf in Ht. rewrite Ht. reflexivity. }
  destruct (truthy (transferData e)); [|reflexivity].
  unfold imageOf, looksLikeImagePayload in Himg.
  destruct (startsWith (transferData e) "{" && _ && _).
  - destruct (JSON_parse B (transferData e)) as [parsedData|].
    + rewrite Himg, Hcreate. reflexivity.
    + rewrite Hcreate. reflexivity.
  - rewrite Hcreate. reflexivity.
Qed.

(** The property for JSON of another shape dropped on the two paragraphs. *)
Lemma unknown_drop_witness :
  handleDrop refBrowser LIBRARY
    (mkDragEvent 120
       ("{" ++ dq ++ "type" ++ dq ++ ":" ++ dq ++ "image" ++ dq ++ "}") rows)
    twoParagraphs
  = Returned tt (setDragState clearedDragState (withoutIndicators twoParagraphs)).
Proof.
  apply (unknown_drop_changes_nothing refBrowser LIBRARY
           (mkDragEvent 120
              ("{" ++ dq ++ "type" ++ dq ++ ":" ++ dq ++ "image" ++ dq ++ "}") rows)
           twoParagraphs).
  - vm_compute. reflexivity.
  - vm_compute. reflexivity.
  - vm_compute. reflexivity.
Defined.

(* ------------------------------------------------------------------ *)
(** ** What the normalizer does to imported markup *)

Lemma processElementForBuilder_node (B : Browser) (e : Element) (cs : list Node)
  (k : nat) :
  processElementForBuilder B (ElementNode e cs) k
  = if inList (tagName e) NON_VISUAL_TAGS then (ElementNode e cs, k)
    else if attributeTruthy ELEMENT_ID e then (ElementNode e cs, k)
    else
      let (cs', k') := processChildren B cs (S k) in
      (ElementNode
         (applyBuilderStyling true
            (setAttribute ELEMENT_ID
               (generateElementId B k "imported" (Some (tagName e))) e)) cs', k').
Proof.
  cbn [processElementForBuilder].
  destruct (inList (tagName e) NON_VISUAL_TAGS); [reflexivity|].
  destruct (attributeTruthy ELEMENT_ID e); [reflexivity|].
  cbv zeta.
  match goal with
  | |- (let (_, _) := ?f cs (S k) in _) = _ =>
      assert (H : forall l j, f l j = processChildren B l j)
  end.
  { induction l as [|c l IH]; intros j; [reflexivity|].
    cbn [processChildren]. destruct (processElementForBuilder B c j) as [c' j1].
    rewrite IH. reflexivity. }
  rewrite H. reflexivity.
Qed.

Lemma importedFrom_refl (e : Element) : importedFrom e e.
Proof. repeat split. Qed.

Lemma importedFrom_tagging (id : string) (e : Element) :
  inList (tagName e) NON_VISUAL_TAGS = false ->
  attributeTruthy ELEMENT_ID e = false ->
  importedFrom e (applyBuilderStyling true (setAttribute ELEMENT_ID id e)).
Proof.
  intros Hv Ht. unfold importedFrom.
  rewrite applyBuilderStyling_nid. split; [reflexivity|]. split.
  { unfold applyBuilderStyling. cbv zeta.
    repeat match goal with
           | |- context [if ?c then _ else _] => destruct c
           end; reflexivity. }
  split.
  { intros a Ha. unfold getAttribute. rewrite applyBuilderStyling_attributes.
    cbn [setAttribute attributes]. apply assocGet_assocSet_other. exact Ha. }
  split; intros H; congruence.
Qed.

(** The text of a node is not touched. *)
Lemma processChildren_text (B : Browser) (l : list Node) (k : nat) :
  map textContent (fst (processChildren B l k)) = map textContent l.
Proof.
  revert k.
  assert (Hnode : forall n k,
             textContent (fst (processElementForBuilder B n k)) = textContent n).
  { induction n as [s|e cs IH] using Node_forall_ind; intros k; [reflexivity|].
    rewrite processElementForBuilder_node.
    destruct (inList _ _); [reflexivity|].
    destruct (attributeTruthy _ _); [reflexivity|].
    destruct (processChildren B cs (S k)) as [cs' k'] eqn:E.
    cbn [fst textContent]. f_equal.
    change cs' with (fst (cs', k')). rewrite <- E. clear E.
    generalize (S k). induction IH as [|c cs Hc Hcs IHcs]; intros j; [reflexivity|].
    cbn [processChildren]. specialize (Hc j).
    destruct (processElementForBuilder B c j) as [c' j1].
    specialize (IHcs j1). destruct (processChildren B cs j1) as [l'' j2].
    cbn [fst map] in *. rewrite Hc, IHcs. reflexivity. }
  induction l as [|c l IH]; intros k; [reflexivity|].
  cbn [processChildren]. specialize (Hnode c k).
  destruct (processElementForBuilder B c k) as [c' k1].
  specialize (IH k1). destruct (processChildren B l k1) as [l'' k2].
  cbn [fst map] in *. rewrite Hnode, IH. reflexivity.
Qed.

(** X8.  The normalizer's pass over parsed markup
    ([Array.from(children).forEach(processElementForBuilder)]) keeps the
    document as it is but for styles and identifiers: the elements after
    the pass are the elements before it, one for one in document order,
    with the same identity, tag and attributes other than
    [data-element-id]; an element that has a non-empty identifier, or is
    not visual, is not changed at all (the pass never re-tags); the text
    of every node is the same; and the counter of generated identifiers
    does not go down. *)
Theorem processChildren_keeps_document (B : Browser) (l : list Node) (k : nat) :
  Forall2 importedFrom (forestElements l) (forestElements (fst (processChildren B l k)))
  /\ map textContent (fst (processChildren B l k)) = map textContent l
  /\ k <= snd (processChildren B l k).
Proof.
  split; [|split; [apply processChildren_text|]].
  - revert k.
    assert (Hnode : forall n k,
               Forall2 importedFrom (elements n)
                 (elements (fst (processElementForBuilder B n k)))).
    { induction n as [s|e cs IH] using Node_forall_ind; intros k; [constructor|].
      rewrite processElementForBuilder_node.
      assert (Hsame : Forall2 importedFrom (elements (ElementNode e cs))
                        (elements (ElementNode e cs))).
      { generalize (elements (ElementNode e cs)).
        induction l0; constructor; [apply importedFrom_refl | assumption]. }
      destruct (inList _ _) eqn:Hv; [exact Hsame|].
      destruct (attributeTruthy _ _) eqn:Ht; [exact Hsame|]. clear Hsame.
      destruct (processChildren B cs (S k)) as [cs' k'] eqn:E.
      cbn [fst]. rewrite !elements_node. constructor.
      { apply importedFrom_tagging; assumption. }
      change cs' with (fst (cs', k')). rewrite <- E. clear E.
      generalize (S k). induction IH as [|c cs Hc Hcs IHcs]; intros j; [constructor|].
      cbn [processChildren]. specialize (Hc j).
      destruct (processElementForBuilder B c j) as [c' j1].
      specialize (IHcs j1). destruct (processChildren B cs j1) as [l'' j2].
      cbn [fst] in *. rewrite !forestElements_cons.
      apply Forall2_app; assumption. }
    induction l as [|c l IH]; intros k; [constructor|].
    cbn [processChildren]. specialize (Hnode c k).
    destruct (processElementForBuilder B c k) as [c' k1].
    specialize (IH k1). destruct (processChildren B l k1) as [l'' k2].
    cbn [fst] in *. rewrite !forestElements_cons.
    apply Forall2_app; assumption.
  - revert k.
    assert (Hnode : forall n k, k <= snd (processElementForBuilder B n k)).
    { induction n as [s|e cs IH] using Node_forall_ind; intros k; [apply Nat.le_refl|].
      rewrite processElementForBuilder_node.
      destruct (inList _ _); [apply Nat.le_refl|].
      destruct (attributeTruthy _ _); [apply Nat.le_refl|].
      destruct (processChildren B cs (S k)) as [cs' k'] eqn:E.
      cbn [snd]. change k' with (snd (cs', k')). rewrite <- E. clear E.
      apply Nat.le_trans with (S k); [lia|].
      generalize (S k). induction IH as [|c cs Hc Hcs IHcs]; intros j; [apply Nat.le_refl|].
      cbn [processChildren]. specialize (Hc j).
      destruct (processElementForBuilder B c j) as [c' j1].
      specialize (IHcs j1). destruct (processChildren B cs j1) as [l'' j2].
      cbn [snd] in *. lia. }
    induction l as [|c l IH]; intros k; [apply Nat.le_refl|].
    cbn [processChildren]. specialize (Hnode c k).
    destruct (processElementForBuilder B c k) as [c' k1].
    specialize (IH k1). destruct (processChildren B l k1) as [l'' k2].
    cbn [snd] in *. lia.
Qed.

Lemma importedIds_app (B : Browser) (k : nat) (l l' : list Element) :
  importedIds B k (l ++ l') = importedIds B k l ++ importedIds B (k + List.length l) l'.
Proof.
  revert k. induction l as [|e l IH]; intros k; cbn [importedIds app List.length].
  - rewrite Nat.add_0_r. reflexivity.
  - rewrite IH. do 3 f_equal. lia.
Qed.

Lemma importedIds_tagged (B : Browser) (k : nat) (l l' : list Element) :
  map (getAttribute ELEMENT_ID) l' = importedIds B k l ->
  filter tagged l' = l' /\ List.length l' = List.length l.
Proof.
  revert k l. induction l' as [|e' l' IH]; intros k [|e l] H; try discriminate.
  - split; reflexivity.
  - cbn [map importedIds] in H. injection H as He Hl.
    destruct (IH _ _ Hl) as [IH1 IH2].
    cbn [filter List.length]. unfold tagged at 1, hasAttribute. rewrite He, IH1, IH2.
    split; reflexivity.
Qed.

Lemma getAttribute_after_tagging (b : bool) (id : string) (e : Element) :
  getAttribute ELEMENT_ID (applyBuilderStyling b (setAttribute ELEMENT_ID id e)) = Some id.
Proof.
  unfold getAttribute. rewrite applyBuilderStyling_attributes.
  cbn [setAttribute attributes]. apply assocGet_assocSet.
Qed.

(** On markup none of whose elements is tagged or not visual, the pass
    tags every element, in document order, and counts each once. *)
Lemma processChildren_fresh (B : Browser) (l : list Node) (k : nat) :
  forallb freshForImport (forestElements l) = true ->
  snd (processChildren B l k) = k + List.length (forestElements l)
  /\ map (getAttribute ELEMENT_ID) (forestElements (fst (processChildren B l k)))
     = importedIds B k (forestElements l).
Proof.
  revert k.
  assert (Hnode : forall n k,
             forallb freshForImport (elements n) = true ->
             snd (processElementForBuilder B n k) = k + List.length (elements n)
             /\ map (getAttribute ELEMENT_ID)
                  (elements (fst (processElementForBuilder B n k)))
                = importedIds B k (elements n)).
  { induction n as [s|e cs IH] using Node_forall_ind; intros k Hf.
    { split; [simpl; lia | reflexivity]. }
    rewrite elements_node in Hf. cbn [forallb] in Hf.
    apply andb_prop in Hf. destruct Hf as [He Hcs].
    unfold freshForImport in He. apply andb_prop in He. destruct He as [Hv Ht].
    apply negb_true_iff in Hv, Ht.
    rewrite processElementForBuilder_node, Hv, Ht.
    assert (Hl : snd (processChildren B cs (S k)) = S k + List.length (forestElements cs)
                 /\ map (getAttribute ELEMENT_ID)
                      (forestElements (fst (processChildren B cs (S k))))
                    = importedIds B (S k) (forestElements cs)).
    { generalize (S k). clear Hv Ht.
      induction IH as [|c cs Hc Hcs' IHcs]; intros j.
      { split; [simpl; lia | reflexivity]. }
      rewrite forestElements_cons, forallb_app in Hcs.
      apply andb_prop in Hcs. destruct Hcs as [H1 H2].
      cbn [processChildren]. specialize (Hc j H1).
      destruct (processElementForBuilder B c j) as [c' j1].
      specialize (IHcs H2 j1). destruct (processChildren B cs j1) as [l'' j2].
      cbn [fst snd] in *. destruct Hc as [Hc1 Hc2]. destruct IHcs as [I1 I2].
      rewrite !forestElements_cons, map_app, importedIds_app, length_app.
      rewrite Hc2, I2, I1, Hc1. split; [lia | reflexivity]. }
    destruct (processChildren B cs (S k)) as [cs' k'].
    cbn [fst snd] in *. destruct Hl as [Hl1 Hl2].
    rewrite !elements_node. cbn [map importedIds List.length].
    rewrite getAttribute_after_tagging, Hl2, Hl1. split; [lia | reflexivity]. }
  induction l as [|c l IH]; intros k Hf.
  { split; [simpl; lia | reflexivity]. }
  rewrite forestElements_cons, forallb_app in Hf.
  apply andb_prop in Hf. destruct Hf as [H1 H2].
  cbn [processChildren]. specialize (Hnode c k H1).
  destruct (processElementForBuilder B c k) as [c' k1].
  specialize (IH k1 H2). destruct (processChildren B l k1) as [l'' k2].
  cbn [fst snd] in *. destruct Hnode as [Hc1 Hc2]. destruct IH as [I1 I2].
  rewrite !forestElements_cons, map_app, importedIds_app, length_app.
  rewrite Hc2, I2, I1, Hc1. split; [lia | reflexivity].
Qed.

Lemma querySelector_existsb (sel : Element -> bool) (e : Element) (cs : list Node) :
  existsb sel (forestElements cs) = true ->
  exists x, querySelector sel (ElementNode e cs) = Some x.
Proof.
  unfold querySelector, querySelectorAll, descendantElements. cbn [childrenOf].
  change (flat_map elements cs) with (forestElements cs).
  induction (forestElements cs) as [|x l IH]; [discriminate|].
  cbn [existsb filter]. destruct (sel x); [intros _; exists x; reflexivity | exact IH].
Qed.

(** X9.  The import of markup with a block element, none of whose elements
    has an identifier or is not visual.  [processContentForBuilder] reports
    it as not processed before; the markup it returns is the serialization
    of the parsed nodes with every element tagged; the identifiers are
    those of consecutive calls of [generateElementId('imported', tagName)]
    in document order (a parent before its children, a node before its
    next sibling); [elementCount] is the number of elements of the
    markup, and the call has generated as many identifiers; the text of
    the nodes is the text that was parsed. *)
Theorem import_tags_in_document_order (B : Browser) (content : string) (k : nat) :
  truthy (trim content) = true ->
  hasBuilderElements content = false ->
  existsb isBlockTag (forestElements (importedNodes B content)) = true ->
  forallb freshForImport (forestElements (importedNodes B content)) = true ->
  exists nodes' : list Node,
    fst (processContentForBuilder B content k)
    = mkProcessed (serializeFragment B nodes') false
        (List.length (forestElements (importedNodes B content)))
    /\ snd (processContentForBuilder B content k)
       = k + List.length (forestElements (importedNodes B content))
    /\ map (getAttribute ELEMENT_ID) (forestElements nodes')
       = importedIds B k (forestElements (importedNodes B content))
    /\ map textContent nodes' = map textContent (importedNodes B content).
Proof.
  intros Ht Hb Hblock Hfresh.
  unfold processContentForBuilder. rewrite Ht, Hb. cbn [negb].
  unfold setInnerHTML. unfold importedNodes in *.
  destruct (relabelList (parseFragment B content) 1) as [cs next].
  cbn [fst] in *. cbn [setChildren].
  destruct (querySelector_existsb isBlockTag (createElement 0 "DIV") cs Hblock)
    as [x Hx].
  rewrite Hx. cbn [andb childrenOf].
  destruct (processChildren_fresh B cs k Hfresh) as [Hk Hids].
  pose proof (processChildren_text B cs k) as Htext.
  destruct (processChildren B cs k) as [cs' k']. cbn [fst snd] in *.
  exists cs'. destruct (importedIds_tagged _ _ _ _ Hids) as [Hall Hlen].
  split; [|auto].
  unfold innerHTML, querySelectorAll, descendantElements. cbn [childrenOf].
  change (flat_map elements cs') with (forestElements cs').
  rewrite Hall, Hlen. reflexivity.
Qed.

(** The property on a heading with an emphasised word and a paragraph. *)
Lemma import_tags_witness :
  exists nodes' : list Node,
    fst (processContentForBuilder refBrowser "<h1>A <em>b</em></h1><p>C</p>" 5)
    = mkProcessed (serializeFragment refBrowser nodes') false
        (List.length
           (forestElements (importedNodes refBrowser "<h1>A <em>b</em></h1><p>C</p>")))
    /\ snd (processContentForBuilder refBrowser "<h1>A <em>b</em></h1><p>C</p>" 5)
       = 5 + List.length
               (forestElements (importedNodes refBrowser "<h1>A <em>b</em></h1><p>C</p>"))
    /\ map (getAttribute ELEMENT_ID) (forestElements nodes')
       = importedIds refBrowser 5
           (forestElements (importedNodes refBrowser "<h1>A <em>b</em></h1><p>C</p>"))
    /\ map textContent nodes'
       = map textContent (importedNodes refBrowser "<h1>A <em>b</em></h1><p>C</p>").
Proof.
  apply (import_tags_in_document_order refBrowser "<h1>A <em>b</em></h1><p>C</p>" 5).
  - vm_compute. reflexivity.
  - vm_compute. reflexivity.
  - vm_compute. reflexivity.
  - vm_compute. reflexivity.
Defined.

(** The three elements get the identifiers of the calls 5, 6 and 7, the
    emphasised word before the paragraph. *)
Example import_numbers_nested_first :
  importedIds refBrowser 5
    (forestElements (importedNodes refBrowser "<h1>A <em>b</em></h1><p>C</p>"))
  = [Some "imported-h1-1700000000005-r5"; Some "imported-em-1700000000006-r6";
     Some "imported-p-1700000000007-r7"]
  /\ elementCount
       (fst (processContentForBuilder refBrowser "<h1>A <em>b</em></h1><p>C</p>" 5))
     = 3.
Proof. split; vm_compute; reflexivity. Qed.

(** A tagged element is passed over with everything below it: its
    untagged descendants stay untagged. *)
Example import_skips_below_tagged :
  map (getAttribute ELEMENT_ID)
    (forestElements
       (fst (processChildren refBrowser
               [ElementNode (mkElement 1 "DIV" [(ELEMENT_ID, "x")] [])
                  [ElementNode (createElement 2 "P") [TextNode "A"]];
                ElementNode (createElement 3 "P") [TextNode "B"]] 0)))
  = [Some "x"; None; Some "imported-p-1700000000000-r0"].
Proof. vm_compute. reflexivity. Qed.

(* ------------------------------------------------------------------ *)
(** ** Page numbers *)




(** *** Roman numerals *)










(** *** Letters *)









(** Page 1994 in the five formats, and the label of page 0. *)
Example page_1994 :
  map (formatPageNumber 1994) [Numeric; RomanLower; RomanUpper; AlphaLower; AlphaUpper]
  = ["1994"; "mcmxciv"; "MCMXCIV"; "bxr"; "BXR"]
  /\ map (formatPageNumber 0) [RomanUpper; AlphaUpper] = [EmptyString; EmptyString]
  /\ map (fun n => formatPageNumber n AlphaUpper) [1; 26; 27; 52; 53; 702; 703]%nat
     = ["A"; "Z"; "AA"; "AZ"; "BA"; "ZZ"; "AAA"].
Proof. repeat split; vm_compute; reflexivity. Qed.

(* ------------------------------------------------------------------ *)
(** ** Saving the page *)

Lemma mapWithIndex_length {A B : Type} (f : A -> nat -> B) (l : list A) (index : nat) :
  List.length (mapWithIndex f l index) = List.length l.
Proof.
  revert index. induction l as [|x l IH]; intros index; simpl; [reflexivity|].
  rewrite IH. reflexivity.
Qed.

Lemma mapWithIndex_nth {A B : Type} (f : A -> nat -> B) (l : list A) (index i : nat) :
  nth_error (mapWithIndex f l index) i
  = option_map (fun x => f x (index + i)) (nth_error l i).
Proof.
  revert index i. induction l as [|x l IH]; intros index [|i]; cbn [mapWithIndex nth_error].
  - reflexivity.
  - reflexivity.
  - cbn [option_map]. rewrite Nat.add_0_r. reflexivity.
  - rewrite IH. replace (S index + i) with (index + S i) by lia. reflexivity.
Qed.

Lemma mapWithIndex_map {A B C : Type} (f : A -> nat -> B) (g : B -> C) (g0 : A -> C)
  (l : list A) (index : nat) :
  (forall x i, g (f x i) = g0 x) ->
  map g (mapWithIndex f l index) = map g0 l.
Proof.
  intros H. revert index. induction l as [|x l IH]; intros index; simpl; [reflexivity|].
  rewrite H, IH. reflexivity.
Qed.

Lemma mapWithIndex_id {A : Type} (f : A -> nat -> A) (l : list A) (index : nat) :
  (forall x i, index <= i < index + List.length l -> f x i = x) ->
  mapWithIndex f l index = l.
Proof.
  revert index. induction l as [|x l IH]; intros index H; cbn [mapWithIndex]; [reflexivity|].
  rewrite H by (simpl; lia). rewrite IH; [reflexivity|].
  intros y i Hi. apply H. simpl. lia.
Qed.

Lemma savedBooks_app {Settings : Type} (l k : list (HookEffect Settings)) :
  savedBooks (l ++ k) = savedBooks l ++ savedBooks k.
Proof. unfold savedBooks. apply flat_map_app. Qed.

(** X11.  [updateContent(content)] hands to [onSave], once, a book that
    differs from the book of the hook in the content of the current page
    only: it has as many pages; the page at [currentPageIndex] has the new
    content and its old id, number and word count; every other page is the
    page it was; the word counts of the pages and the metadata of the book
    (its totals among them) are not recomputed; the other fields are kept.
    When [currentPageIndex] is not the index of a page, the book is saved
    as it is.  The hook shows the new content, and is marked as updating
    until the timer of 50 ms fires. *)
Theorem updateContent_touches_current_page {Settings : Type} (content : string)
  (h : ContentHook Settings) :
  exists updatedBook : Book Settings,
    hookEffects (updateContent content h)
    = hookEffects h ++ [OnSave updatedBook; ClearUpdatingAfter 50]
    /\ List.length (pages updatedBook) = List.length (pages (book h))
    /\ (forall i page,
          nth_error (pages (book h)) i = Some page ->
          nth_error (pages updatedBook) i
          = Some (if Nat.eqb i (currentPageIndex h)
                  then mkPage (page_id page) (page_number page) content
                         (page_wordCount page)
                  else page))
    /\ map page_wordCount (pages updatedBook) = map page_wordCount (pages (book h))
    /\ withPages (pages (book h)) updatedBook = book h
    /\ (List.length (pages (book h)) <= currentPageIndex h -> updatedBook = book h)
    /\ pageContent (updateContent content h) = content
    /\ isUpdatingFromBuilder (updateContent content h) = true
    /\ book (updateContent content h) = book h
    /\ currentPageIndex (updateContent content h) = currentPageIndex h.
Proof.
  eexists. split; [reflexivity|]. cbn [pages withPages].
  split; [apply mapWithIndex_length|].
  split.
  { intros i page Hi. rewrite mapWithIndex_nth, Hi. reflexivity. }
  split.
  { apply mapWithIndex_map. intros x i. destruct (Nat.eqb _ _); reflexivity. }
  split. { destruct (book h). reflexivity. }
  split; [|repeat split].
  intros Hout. rewrite mapWithIndex_id.
  - destruct (book h). reflexivity.
  - intros x i Hi. destruct (Nat.eqb i (currentPageIndex h)) eqn:E; [|reflexivity].
    apply Nat.eqb_eq in E. lia.
Qed.

(** A book of three pages whose second page gets new content. *)
Example updateContent_second_page :
  map page_content
    (flat_map pages
       (savedBooks
          (hookEffects
             (updateContent "<p>new</p>"
                (mkContentHook
                   (mkBook "b" "T" "A" EmptyString
                      [mkPage "p1" 1 "one" 1; mkPage "p2" 2 "two" 1; mkPage "p3" 3 "three" 1]
                      (mkMetadata 0 0 3 3 "en" None) (None : option unit))
                   1 "two" false [])))))
  = ["one"; "<p>new</p>"; "three"].
Proof. reflexivity. Qed.

(* ------------------------------------------------------------------ *)
(** ** Deleting an element *)

Lemma NoDup_map_same {A B : Type} (f : A -> B) (l : list A) (a b : A) :
  NoDup (map f l) -> In a l -> In b l -> f a = f b -> a = b.
Proof.
  induction l as [|x l IH]; intros Hnd Ha Hb Hf; [contradiction|].
  cbn [map] in Hnd. inversion Hnd as [|y ys Hx Hnd']; subst.
  destruct Ha as [->|Ha], Hb as [->|Hb]; auto.
  - exfalso. apply Hx. rewrite Hf. apply in_map. exact Hb.
  - exfalso. apply Hx. rewrite <- Hf. apply in_map. exact Ha.
Qed.





(** Deleting the list leaves an empty page; deleting the item [x] leaves
    the list with the item [y]. *)
Example delete_list_and_item :
  savedContents
    (fst (deleteElement refBrowser (fun _ => false) (Some "u")
            (onePage NESTED_LIST, nestedList)))
  = [EmptyString]
  /\ savedContents
       (fst (deleteElement refBrowser (fun _ => false) (Some "x")
               (onePage NESTED_LIST, nestedList)))
     = ["<ul " ++ ELEMENT_ID ++ "=" ++ dq ++ "u" ++ dq ++ ">"
        ++ "<li " ++ ELEMENT_ID ++ "=" ++ dq ++ "y" ++ dq ++ ">Y</li></ul>"]%string.
Proof. split; vm_compute; reflexivity. Qed.



(** The page that is saved holds paragraph [b] alone, without selection
    styling. *)
Example delete_selected_paragraph :
  savedContents
    (fst (handleElementDelete refBrowser (fun _ => false)
            (onePage TWO_PARAGRAPHS, selectElement (Some "a") twoParagraphs)))
  = [taggedParagraph "b" "color: #111827;" "B"].
Proof. vm_compute. reflexivity. Qed.

(* ------------------------------------------------------------------ *)
(** ** Editing the content of an element *)





(** The page saved after the edit; and an edit of the figure [f] with
    plain text, which takes the image out of the figure. *)
Example edit_item_and_figure :
  savedContents
    (fst (updateElementContent refBrowser (fun _ => false) "Milk" (Some "x")
            (onePage NESTED_LIST, nestedList)))
  = ["<ul " ++ ELEMENT_ID ++ "=" ++ dq ++ "u" ++ dq ++ ">"
     ++ "<li " ++ ELEMENT_ID ++ "=" ++ dq ++ "x" ++ dq ++ ">Milk</li>"
     ++ "<li " ++ ELEMENT_ID ++ "=" ++ dq ++ "y" ++ dq ++ ">Y</li></ul>"]%string
  /\ option_map (fun c => map tagName (descendantElements c))
       (contentRef
          (snd (updateElementContent refBrowser (fun _ => false) "A caption" (Some "f")
                  (onePage FIGURE_AND_PARAGRAPH, figureAndParagraph))))
     = Some ["FIGURE"; "P"].
Proof. split; vm_compute; reflexivity. Qed.

(* ------------------------------------------------------------------ *)
(** ** The markup that is saved *)

Lemma mapElements_ext (F G : Element -> Element) (n : Node) :
  (forall x, In x (elements n) -> F x = G x) -> mapElements F n = mapElements G n.
Proof.
  induction n as [s|e cs IH] using Node_forall_ind; intros H; [reflexivity|].
  cbn [mapElements]. rewrite elements_node in H. f_equal.
  - apply H. left. reflexivity.
  - assert (Hcs : forall x, In x (forestElements cs) -> F x = G x)
      by (intros x Hx; apply H; right; exact Hx).
    clear H. induction IH as [|c cs Hc Hcs' IHcs]; [reflexivity|].
    rewrite forestElements_cons in Hcs. cbn [map]. f_equal.
    + apply Hc. intros x Hx. apply Hcs, in_or_app. auto.
    + apply IHcs. intros x Hx. apply Hcs, in_or_app. auto.
Qed.

Lemma mapElements_id (F : Element -> Element) (n : Node) :
  (forall x, In x (elements n) -> F x = x) -> mapElements F n = n.
Proof.
  induction n as [s|e cs IH] using Node_forall_ind; intros H; [reflexivity|].
  cbn [mapElements]. rewrite elements_node in H. rewrite (H e) by (left; reflexivity).
  f_equal.
  assert (Hcs : forall x, In x (forestElements cs) -> F x = x)
    by (intros x Hx; apply H; right; exact Hx).
  clear H. induction IH as [|c cs Hc Hcs' IHcs]; [reflexivity|].
  rewrite forestElements_cons in Hcs. cbn [map]. f_equal.
  - apply Hc. intros x Hx. apply Hcs, in_or_app. auto.
  - apply IHcs. intros x Hx. apply Hcs, in_or_app. auto.
Qed.

Lemma mapElements_compose (F G : Element -> Element) (n : Node) :
  mapElements F (mapElements G n) = mapElements (fun x => F (G x)) n.
Proof.
  induction n as [s|e cs IH] using Node_forall_ind; [reflexivity|].
  cbn [mapElements]. f_equal. rewrite map_map.
  induction IH as [|c cs Hc Hcs IHcs]; [reflexivity|].
  cbn [map]. rewrite Hc, IHcs. reflexivity.
Qed.

Lemma mapElements_ids (F : Element -> Element) (n : Node) :
  (forall x, nid (F x) = nid x) ->
  map nid (elements (mapElements F n)) = map nid (elements n).
Proof.
  intros HF. induction n as [s|e cs IH] using Node_forall_ind; [reflexivity|].
  cbn [mapElements]. rewrite !elements_node. cbn [map]. rewrite HF. f_equal.
  induction IH as [|c cs Hc Hcs IHcs]; [reflexivity|].
  cbn [map]. rewrite !forestElements_cons, !map_app, Hc, IHcs. reflexivity.
Qed.

(** In a tree whose nodes have one identity each, a change of the element
    data at a reference is a change of that one element. *)
Lemma updateAt_mapElements (g : Element -> Element) (i : NodeId) (n : Node) :
  uniqueIds n ->
  updateAt i (onElement g) n
  = mapElements (fun x => if Nat.eqb (nid x) i then g x else x) n.
Proof.
  unfold uniqueIds.
  induction n as [s|e cs IH] using Node_forall_ind; intros Hu; [reflexivity|].
  rewrite elements_node in Hu. cbn [map] in Hu.
  inversion Hu as [|y ys Hroot Hnd]; subst.
  cbn [updateAt mapElements]. destruct (Nat.eqb (nid e) i) eqn:E.
  - cbn [onElement]. f_equal. symmetry.
    change (map (mapElements (fun x => if Nat.eqb (nid x) i then g x else x)) cs = cs).
    apply Nat.eqb_eq in E. subst i. clear IH Hu.
    induction cs as [|c cs IHcs]; [reflexivity|].
    rewrite forestElements_cons, map_app in Hroot, Hnd. cbn [map]. f_equal.
    + apply mapElements_id. intros x Hx.
      destruct (Nat.eqb (nid x) (nid e)) eqn:Ex; [|reflexivity].
      exfalso. apply Hroot, in_or_app. left. apply Nat.eqb_eq in Ex.
      rewrite <- Ex. apply in_map. exact Hx.
    + apply IHcs.
      * intros H. apply Hroot, in_or_app. auto.
      * eapply NoDup_app_r. exact Hnd.
  - f_equal. clear Hu Hroot E.
    induction IH as [|c cs Hc Hcs IHcs]; [reflexivity|].
    rewrite forestElements_cons, map_app in Hnd. cbn [map]. f_equal.
    + apply Hc. eapply NoDup_app_l. exact Hnd.
    + apply IHcs. eapply NoDup_app_r. exact Hnd.
Qed.

(** The loop [l.forEach(el => g(el))] over references into such a tree. *)
Lemma forEach_mapElements (g : Element -> Element) (l : list Element) (n : Node) :
  (forall x, nid (g x) = nid x) ->
  uniqueIds n ->
  forEach l (fun el cur => updateAt (nid el) (onElement g) cur) n
  = mapElements (afterRounds g l) n.
Proof.
  intros Hg. unfold forEach. revert n.
  induction l as [|el l IH]; intros n Hu; cbn [fold_left].
  - symmetry. apply mapElements_id. reflexivity.
  - rewrite updateAt_mapElements by exact Hu. rewrite IH.
    + rewrite mapElements_compose. reflexivity.
    + unfold uniqueIds. rewrite mapElements_ids; [exact Hu|].
      intros x. destruct (Nat.eqb (nid x) (nid el)); [apply Hg | reflexivity].
Qed.

Lemma afterRounds_other (g : Element -> Element) (l : list Element) (x : Element) :
  ~ In (nid x) (map nid l) -> afterRounds g l x = x.
Proof.
  unfold afterRounds. induction l as [|el l IH]; intros H; cbn [fold_left]; [reflexivity|].
  cbn [map] in H. destruct (Nat.eqb (nid x) (nid el)) eqn:E.
  - apply Nat.eqb_eq in E. exfalso. apply H. left. symmetry. exact E.
  - apply IH. intros Hin. apply H. right. exact Hin.
Qed.

Lemma afterRounds_once (g : Element -> Element) (l : list Element) (x : Element) :
  (forall y, nid (g y) = nid y) ->
  NoDup (map nid l) -> In (nid x) (map nid l) -> afterRounds g l x = g x.
Proof.
  intros Hg. unfold afterRounds.
  induction l as [|el l IH]; intros Hnd Hin; [contradiction|].
  cbn [map] in Hnd, Hin. inversion Hnd as [|y ys Hel Hnd']; subst.
  cbn [fold_left]. destruct (Nat.eqb (nid x) (nid el)) eqn:E.
  - apply Nat.eqb_eq in E. apply (afterRounds_other g l (g x)).
    rewrite Hg, E. exact Hel.
  - apply IH; [exact Hnd'|]. destruct Hin as [Hin|Hin]; [|exact Hin].
    apply Nat.eqb_neq in E. congruence.
Qed.

(** The loop over the elements a selector finds below the root changes
    the elements that match, and no other. *)
Lemma forEach_selected (sel : Element -> bool) (g : Element -> Element)
  (e : Element) (cs : list Node) :
  (forall x, nid (g x) = nid x) ->
  uniqueIds (ElementNode e cs) ->
  forEach (querySelectorAll sel (ElementNode e cs))
    (fun el cur => updateAt (nid el) (onElement g) cur) (ElementNode e cs)
  = mapDescendants (fun x => if sel x then g x else x) (ElementNode e cs).
Proof.
  intros Hg Hu. rewrite forEach_mapElements by assumption.
  apply uniqueIds_node in Hu as [Hroot Hnd].
  unfold querySelectorAll, descendantElements. cbn [childrenOf mapElements mapDescendants].
  change (flat_map elements cs) with (forestElements cs).
  assert (Hsub : subseq (map nid (filter sel (forestElements cs))) (forestIds cs)).
  { unfold forestIds. apply subseq_map.
    induction (forestElements cs) as [|x l IH]; cbn [filter]; [constructor|].
    destruct (sel x); constructor; exact IH. }
  f_equal.
  - apply afterRounds_other. intros H. apply Hroot. eapply subseq_In; eassumption.
  - assert (Hpoint : forall x, In x (forestElements cs) ->
               afterRounds g (filter sel (forestElements cs)) x
               = if sel x then g x else x).
    { intros x Hx. destruct (sel x) eqn:Es.
      - apply afterRounds_once; [exact Hg | eapply subseq_NoDup; eassumption |].
        apply in_map, filter_In. auto.
      - apply afterRounds_other. intros Hin. apply in_map_iff in Hin.
        destruct Hin as (y & Hy & Hin). apply filter_In in Hin as [Hin Hsy].
        assert (y = x) by (apply (NoDup_map_same nid (forestElements cs)); auto).
        congruence. }
    revert Hpoint. generalize (afterRounds g (filter sel (forestElements cs))).
    intros F HF. clear Hsub Hnd Hroot.
    induction cs as [|c cs IH]; [reflexivity|].
    rewrite forestElements_cons in HF. cbn [map]. f_equal.
    + apply mapElements_ext. intros x Hx. apply HF, in_or_app. auto.
    + apply IH. intros x Hx. apply HF, in_or_app. auto.
Qed.

Lemma relabelList_mapElements (F : Element -> Element) (l : list Node) (k : NodeId) :
  (forall i e, F (setNid i e) = setNid i (F e)) ->
  relabelList (map (mapElements F) l) k
  = (map (mapElements F) (fst (relabelList l k)), snd (relabelList l k)).
Proof.
  intros HF. revert k.
  assert (Hnode : forall n k,
             relabel (mapElements F n) k
             = (mapElements F (fst (relabel n k)), snd (relabel n k))).
  { induction n as [s|e cs IH] using Node_forall_ind; intros k; [reflexivity|].
    cbn [mapElements]. rewrite !relabel_node. cbn [fst snd mapElements].
    assert (Hl : forall j,
               relabelList (map (mapElements F) cs) j
               = (map (mapElements F) (fst (relabelList cs j)), snd (relabelList cs j))).
    { induction IH as [|c cs Hc Hcs IHcs]; intros j; [reflexivity|].
      cbn [map relabelList]. rewrite Hc.
      destruct (relabel c j) as [c' k1]. cbn [fst snd]. rewrite IHcs.
      destruct (relabelList cs k1) as [l'' k2]. reflexivity. }
    rewrite Hl. cbn [fst snd]. rewrite HF. reflexivity. }
  induction l as [|c l IH]; intros k; [reflexivity|].
  cbn [map relabelList]. rewrite Hnode.
  destruct (relabel c k) as [c' k1]. cbn [fst snd]. rewrite IH.
  destruct (relabelList l k1) as [l'' k2]. reflexivity.
Qed.

Lemma cleanedElement_setNid (i : NodeId) (e : Element) :
  cleanedElement (setNid i e) = setNid i (cleanedElement e).
Proof.
  unfold cleanedElement. change (tagged (setNid i e)) with (tagged e).
  destruct (tagged e); reflexivity.
Qed.

(** The clone that is serialized for a save is the clone of the container
    with the three selection properties taken from its tagged elements. *)
Lemma cleanClone_cleaned (c : Node) (next : NodeId) :
  cleanClone c next = cloneNode (mapDescendants cleanedElement c) next.
Proof.
  unfold cleanClone. pose proof (cloneNode_uniqueIds c next) as Hu.
  unfold cloneNode in *. destruct c as [s|e cs]; [reflexivity|].
  cbn [mapDescendants]. rewrite relabel_node in Hu |- *. rewrite relabel_node.
  cbn [fst] in Hu.
  rewrite (forEach_selected tagged stripSelectionProperties) by (auto; reflexivity).
  cbn [mapDescendants].
  rewrite (relabelList_mapElements cleanedElement cs (S next) cleanedElement_setNid).
  reflexivity.
Qed.

(** X15.  What a save writes.  Both ways of saving the canvas - 
    [saveCleanContent] of the drag-and-drop hook and [updateContentFromDOM]
    of the content hook - leave the container as it is and pass on the
    markup of a copy of it that differs from it in this only: the tagged
    elements below the container have no [outline], [outline-offset] and
    [box-shadow]; every node, attribute, text and other style property,
    and all of the style of untagged elements, is as in the container. *)
Theorem saves_cleaned_markup {Settings : Type} (B : Browser)
  (h : ContentHook Settings) (w : World) (c : Node) :
  contentRef w = Some c ->
  effects (saveCleanContent B w)
  = effects w
    ++ [Invoke (OnContentUpdate
                  (innerHTML B
                     (fst (cloneNode (mapDescendants cleanedElement c) (nextNode w)))))]
  /\ contentRef (saveCleanContent B w) = Some c
  /\ fst (updateContentFromDOM B (h, w))
     = updateContent
         (innerHTML B (fst (cloneNode (mapDescendants cleanedElement c) (nextNode w)))) h
  /\ contentRef (snd (updateContentFromDOM B (h, w))) = Some c.
Proof.
  intros Hc. rewrite (saveCleanContent_effects B w c Hc), saveCleanContent_contentRef.
  unfold updateContentFromDOM. rewrite Hc, cleanClone_cleaned.
  destruct (cloneNode _ (nextNode w)) as [tempContainer next']. cbn [fst snd].
  repeat split; assumption.
Qed.

(** The property on the two paragraphs with [a] selected. *)
Lemma saves_cleaned_witness :
  effects (saveCleanContent refBrowser (selectElement (Some "a") twoParagraphs))
  = effects (selectElement (Some "a") twoParagraphs)
    ++ [Invoke (OnContentUpdate
                  (innerHTML refBrowser
                     (fst (cloneNode
                             (mapDescendants cleanedElement
                                (ElementNode (createElement 0 "DIV")
                                   (childrenOf
                                      (match contentRef
                                               (selectElement (Some "a") twoParagraphs)
                                       with
                                       | Some c => c
                                       | None => TextNode EmptyString
                                       end))))
                             (nextNode (selectElement (Some "a") twoParagraphs))))))]
  /\ contentRef (saveCleanContent refBrowser (selectElement (Some "a") twoParagraphs))
     = Some (ElementNode (createElement 0 "DIV")
               (childrenOf
                  (match contentRef (selectElement (Some "a") twoParagraphs) with
                   | Some c => c
                   | None => TextNode EmptyString
                   end)))
  /\ fst (updateContentFromDOM refBrowser
            (onePage TWO_PARAGRAPHS, selectElement (Some "a") twoParagraphs))
     = updateContent
         (innerHTML refBrowser
            (fst (cloneNode
                    (mapDescendants cleanedElement
                       (ElementNode (createElement 0 "DIV")
                          (childrenOf
                             (match contentRef (selectElement (Some "a") twoParagraphs)
                              with
                              | Some c => c
                              | None => TextNode EmptyString
                              end))))
                    (nextNode (selectElement (Some "a") twoParagraphs)))))
         (onePage TWO_PARAGRAPHS)
  /\ contentRef
       (snd (updateContentFromDOM refBrowser
               (onePage TWO_PARAGRAPHS, selectElement (Some "a") twoParagraphs)))
     = Some (ElementNode (createElement 0 "DIV")
               (childrenOf
                  (match contentRef (selectElement (Some "a") twoParagraphs) with
                   | Some c => c
                   | None => TextNode EmptyString
                   end))).
Proof.
  apply (saves_cleaned_markup refBrowser (onePage TWO_PARAGRAPHS)
           (selectElement (Some "a") twoParagraphs)).
  vm_compute. reflexivity.
Defined.

(** The selected paragraph is saved without its outline; the live
    paragraph keeps it. *)
Example save_of_selected_paragraph :
  savedContents
    (fst (updateContentFromDOM refBrowser
            (onePage TWO_PARAGRAPHS, selectElement (Some "a") twoParagraphs)))
  = [taggedParagraph "a" "color: #111827;" "A"
     ++ taggedParagraph "b" "color: #111827;" "B"]%string
  /\ option_map (fun c => map (getPropertyValue "outline") (querySelectorAll tagged c))
       (contentRef
          (snd (updateContentFromDOM refBrowser
                  (onePage TWO_PARAGRAPHS, selectElement (Some "a") twoParagraphs))))
     = Some [SELECTION_OUTLINE; "none"].
Proof. split; vm_compute; reflexivity. Qed.

(* ------------------------------------------------------------------ *)
(** ** The editor's text styling *)

Lemma elements_mapElements (F : Element -> Element) (n : Node) :
  elements (mapElements F n) = map F (elements n).
Proof.
  induction n as [s|e cs IH] using Node_forall_ind; [reflexivity|].
  cbn [mapElements]. rewrite !elements_node. cbn [map]. f_equal.
  induction IH as [|c cs Hc Hcs IHcs]; [reflexivity|].
  cbn [map]. rewrite !forestElements_cons, map_app, Hc, IHcs. reflexivity.
Qed.

Lemma forestElements_mapElements (F : Element -> Element) (l : list Node) :
  forestElements (map (mapElements F) l) = map F (forestElements l).
Proof.
  induction l as [|c l IH]; [reflexivity|].
  cbn [map]. rewrite !forestElements_cons, map_app, elements_mapElements, IH.
  reflexivity.
Qed.

Lemma textContent_mapElements (F : Element -> Element) (n : Node) :
  textContent (mapElements F n) = textContent n.
Proof.
  induction n as [s|e cs IH] using Node_forall_ind; [reflexivity|].
  cbn [mapElements textContent]. f_equal. rewrite map_map.
  induction IH as [|c cs Hc Hcs IHcs]; [reflexivity|].
  cbn [map]. rewrite Hc, IHcs. reflexivity.
Qed.








(* ------------------------------------------------------------------ *)
(** ** Setting the editor's content *)

Lemma moveChildren_all (t e : Element) (l acc : list Node) :
  moveChildren (List.length l) (ElementNode t l) (ElementNode e acc)
  = (ElementNode t [], ElementNode e (acc ++ l)).
Proof.
  revert acc. induction l as [|c l IH]; intros acc; cbn [List.length moveChildren childrenOf].
  - rewrite app_nil_r. reflexivity.
  - cbn [setChildren appendChild]. rewrite IH, <- app_assoc. reflexivity.
Qed.

(** Fresh identities change nothing but the identities. *)
Lemma relabelList_shape (l : list Node) (k : NodeId) :
  map withoutIdentities (fst (relabelList l k)) = map withoutIdentities l.
Proof.
  revert k.
  assert (Hnode : forall n k, withoutIdentities (fst (relabel n k)) = withoutIdentities n).
  { induction n as [s|e cs IH] using Node_forall_ind; intros k; [reflexivity|].
    rewrite relabel_node. cbn [fst]. unfold withoutIdentities. cbn [mapElements].
    f_equal. generalize (S k).
    induction IH as [|c cs Hc Hcs IHcs]; intros j; [reflexivity|].
    cbn [relabelList]. specialize (Hc j). destruct (relabel c j) as [c' k1].
    specialize (IHcs k1). destruct (relabelList cs k1) as [l'' k2].
    cbn [fst map] in *. unfold withoutIdentities in Hc. rewrite Hc, IHcs.
    reflexivity. }
  induction l as [|c l IH]; intros k; [reflexivity|].
  cbn [relabelList]. specialize (Hnode c k). destruct (relabel c k) as [c' k1].
  specialize (IH k1). destruct (relabelList l k1) as [l'' k2].
  cbn [fst map] in *. rewrite Hnode, IH. reflexivity.
Qed.

(** X17.  [setSafeHTMLContent(container, content)] does what
    [container.innerHTML = content] does, whether or not the content
    shows [data-element-id]: the container element is kept, its old
    children are gone, and its new children are the nodes the content
    parses to, the same nodes in the same order in both branches (the
    branch for builder content creates them in a temporary [div] and
    moves them over one by one, so that they are other nodes, one
    identity later). *)
Theorem setSafeHTMLContent_is_innerHTML (B : Browser) (e : Element) (cs : list Node)
  (content : string) (next : NodeId) :
  exists cs' : list Node,
    fst (setSafeHTMLContent B (ElementNode e cs) content next) = ElementNode e cs'
    /\ cs' = fst (relabelList (parseFragment B content)
                    (if hasBuilderContent content then S next else next))
    /\ map withoutIdentities cs'
       = map withoutIdentities
           (childrenOf (fst (setInnerHTML B content (ElementNode e cs) next)))
    /\ map withoutIdentities cs' = map withoutIdentities (parseFragment B content).
Proof.
  pose proof (relabelList_shape (parseFragment B content) next) as H0.
  pose proof (relabelList_shape (parseFragment B content) (S next)) as H1.
  unfold setSafeHTMLContent, setInnerHTML.
  destruct (hasBuilderContent content).
  - destruct (relabelList (parseFragment B content) (S next)) as [nodes k].
    destruct (relabelList (parseFragment B content) next) as [nodes0 k0].
    cbn [setChildren childrenOf fst] in *. rewrite moveChildren_all. cbn [snd fst app].
    exists nodes. rewrite H0, H1. repeat split.
  - destruct (relabelList (parseFragment B content) next) as [nodes k].
    cbn [setChildren childrenOf fst] in *.
    exists nodes. rewrite H0. repeat split.
Qed.

(** Builder content and plain content set into a container that held a
    paragraph. *)
Example setSafeHTMLContent_both_branches :
  map refSerializeNode
    [fst (setSafeHTMLContent refBrowser
            (ElementNode (createElement 0 "DIV")
               [ElementNode (createElement 1 "P") [TextNode "old"]])
            TWO_PARAGRAPHS 2);
     fst (setSafeHTMLContent refBrowser
            (ElementNode (createElement 0 "DIV")
               [ElementNode (createElement 1 "P") [TextNode "old"]])
            "<p>A</p>" 2)]
  = ["<div>" ++ taggedParagraph "a" "color: #111827;" "A"
      ++ taggedParagraph "b" "color: #111827;" "B" ++ "</div>";
     "<div><p>A</p></div>"]%string.
Proof. vm_compute. reflexivity. Qed.

(* ------------------------------------------------------------------ *)
(** ** Identifiers for elements typed in the editor *)

Lemma ancestorsOf_node (i : NodeId) (e : Element) (cs : list Node) :
  ancestorsOf i (ElementNode e cs)
  = if Nat.eqb (nid e) i then Some []
    else option_map (cons e) (ancestorsOfList i cs).
Proof.
  cbn [ancestorsOf]. destruct (Nat.eqb (nid e) i); [reflexivity|].
  assert (H : forall l,
             (fix inside (l : list Node) : option (list Element) :=
                match l with
                | [] => None
                | c :: l' =>
                    match ancestorsOf i c with
                    | Some p => Some p
                    | None => inside l'
                    end
                end) l = ancestorsOfList i l).
  { induction l as [|c l IH]; [reflexivity|]. cbn [ancestorsOfList].
    destruct (ancestorsOf i c); [reflexivity | exact IH]. }
  rewrite H. destruct (ancestorsOfList i cs); reflexivity.
Qed.

Section UnderChanges.

Variable G : Element -> Element.
Hypothesis G_nid : forall x, nid (G x) = nid x.

Lemma findNode_mapElements (i : NodeId) (n : Node) :
  findNode i (mapElements G n) = option_map (mapElements G) (findNode i n).
Proof.
  induction n as [s|e cs IH] using Node_forall_ind; [reflexivity|].
  cbn [mapElements]. rewrite !findNode_node, G_nid.
  destruct (Nat.eqb (nid e) i); [reflexivity|].
  induction IH as [|c cs Hc Hcs IHcs]; [reflexivity|].
  cbn [map findNodeList]. rewrite Hc.
  destruct (findNode i c); [reflexivity | exact IHcs].
Qed.

Lemma ancestorsOf_mapElements (i : NodeId) (n : Node) :
  ancestorsOf i (mapElements G n) = option_map (map G) (ancestorsOf i n).
Proof.
  induction n as [s|e cs IH] using Node_forall_ind; [reflexivity|].
  cbn [mapElements]. rewrite !ancestorsOf_node, G_nid.
  destruct (Nat.eqb (nid e) i); [reflexivity|].
  assert (H : ancestorsOfList i (map (mapElements G) cs)
              = option_map (map G) (ancestorsOfList i cs)).
  { induction IH as [|c cs Hc Hcs IHcs]; [reflexivity|].
    cbn [map ancestorsOfList]. rewrite Hc.
    destruct (ancestorsOf i c); [reflexivity | exact IHcs]. }
  rewrite H. destruct (ancestorsOfList i cs); reflexivity.
Qed.

Lemma updateAt_under_changes (g : Element -> Element) (i : NodeId) (n : Node) :
  uniqueIds n ->
  updateAt i (onElement g) (mapElements G n)
  = mapElements (fun x => if Nat.eqb (nid x) i then g (G x) else G x) n.
Proof.
  intros Hu. rewrite updateAt_mapElements.
  - rewrite mapElements_compose. apply mapElements_ext.
    intros x _. rewrite G_nid. reflexivity.
  - unfold uniqueIds. rewrite mapElements_ids; [exact Hu | exact G_nid].
Qed.

End UnderChanges.

Lemma findNode_element (e el : Element) (cs : list Node) :
  uniqueIds (ElementNode e cs) -> In el (forestElements cs) ->
  exists below, findNode (nid el) (ElementNode e cs) = Some (ElementNode el below).
Proof.
  intros Hu Hin. apply uniqueIds_node in Hu as [Hroot Hnd].
  assert (Hi : In (nid el) (forestIds cs)) by (apply in_map; exact Hin).
  destruct (removeNode_split_list (nid el) cs Hnd Hi)
    as (pre & post & e0 & below & E0 & E1 & _ & Efind).
  assert (He : e0 = el).
  { apply (NoDup_map_same nid (forestElements cs)); auto.
    rewrite E1. apply in_or_app. right. rewrite elements_node. left. reflexivity. }
  subst e0. exists below. rewrite findNode_node.
  destruct (Nat.eqb (nid e) (nid el)) eqn:E; [|exact Efind].
  apply Nat.eqb_eq in E. exfalso. apply Hroot. rewrite E. exact Hi.
Qed.

(** A round of the loop on the container is the round on the changes made
    to the container it started on. *)
Lemma processExistingElement_decides (B : Browser) (random5 : nat -> string)
  (c0 : Node) (G : Element -> Element) (element : Element) (k : nat) :
  (forall x, nid (G x) = nid x) ->
  (forall x, tagName (G x) = tagName x) ->
  uniqueIds c0 ->
  processExistingElement B random5 element (mapElements G c0, k)
  = (mapElements (fst (decideElement B random5 c0 element (G, k))) c0,
     snd (decideElement B random5 c0 element (G, k))).
Proof.
  intros Hn Ht Hu. unfold processExistingElement, decideElement.
  rewrite findNode_mapElements, ancestorsOf_mapElements by exact Hn.
  destruct (findNode (nid element) c0) as [[s|x0 below]|]; [reflexivity| |reflexivity].
  cbn [option_map mapElements]. rewrite Ht.
  change (ElementNode (G x0) (map (mapElements G) below))
    with (mapElements G (ElementNode x0 below)).
  rewrite textContent_mapElements.
  destruct (inList (tagName x0) NON_VISUAL_TAGS); [reflexivity|].
  destruct (hasAttribute ELEMENT_ID (G x0)); [reflexivity|].
  destruct (ancestorsOf (nid element) c0) as [p|]; cbn [option_map].
  - destruct (existsb tagged (map G p)); [reflexivity|].
    destruct (inList (tagName x0) MANUAL_BLOCK_TAGS && _); [|reflexivity].
    cbn [fst snd]. rewrite updateAt_under_changes by assumption. reflexivity.
  - destruct (inList (tagName x0) MANUAL_BLOCK_TAGS && _); [|reflexivity].
    cbn [fst snd]. rewrite updateAt_under_changes by assumption. reflexivity.
Qed.

Lemma findNode_sound (i : NodeId) (n : Node) (x : Element) (below : list Node) :
  findNode i n = Some (ElementNode x below) -> In x (elements n) /\ nid x = i.
Proof.
  induction n as [s|e cs IH] using Node_forall_ind; [discriminate|].
  rewrite findNode_node, elements_node.
  destruct (Nat.eqb (nid e) i) eqn:E.
  - intros [= -> ->]. apply Nat.eqb_eq in E. split; [left; reflexivity | exact E].
  - intros H. assert (Hl : In x (forestElements cs) /\ nid x = i).
    { induction IH as [|c cs Hc Hcs IHcs]; [discriminate|].
      cbn [findNodeList] in H. rewrite forestElements_cons.
      destruct (findNode i c) as [r|] eqn:Ec.
      - injection H as ->. destruct (Hc eq_refl) as [H1 H2].
        split; [apply in_or_app; left; exact H1 | exact H2].
      - destruct (IHcs H) as [H1 H2].
        split; [apply in_or_app; right; exact H1 | exact H2]. }
    destruct Hl as [H1 H2]. split; [right; exact H1 | exact H2].
Qed.

Lemma tagged_setAttribute (v : string) (x : Element) :
  tagged (setAttribute ELEMENT_ID v x) = true.
Proof.
  unfold tagged, hasAttribute, getAttribute. cbn [setAttribute attributes].
  rewrite assocGet_assocSet. reflexivity.
Qed.

Section Rounds.

Variable c0 : Node.
Hypothesis c0_unique : uniqueIds c0.

(** A round leaves the changes as they are, or tags its element. *)
Lemma decideElement_cases (B : Browser) (random5 : nat -> string) (element : Element)
  (G : Element -> Element) (k : nat) :
  decideElement B random5 c0 element (G, k) = (G, k)
  \/ exists x0 below,
       findNode (nid element) c0 = Some (ElementNode x0 below)
       /\ inList (tagName x0) NON_VISUAL_TAGS = false
       /\ hasAttribute ELEMENT_ID (G x0) = false
       /\ inList (tagName x0) MANUAL_BLOCK_TAGS = true
       /\ match ancestorsOf (nid element) c0 with
          | Some p => existsb tagged (map G p)
          | None => false
          end = false
       /\ truthy (trim (textContent (ElementNode x0 below))) || (tagName x0 =? "IMG")
          = true
       /\ decideElement B random5 c0 element (G, k)
          = (fun x =>
               if Nat.eqb (nid x) (nid element)
               then setAttribute ELEMENT_ID (manualId B random5 k (tagName x0)) (G x)
               else G x,
             S k).
Proof.
  unfold decideElement.
  destruct (findNode (nid element) c0) as [[s|x0 below]|]; auto.
  destruct (inList (tagName x0) NON_VISUAL_TAGS) eqn:Hv; auto.
  destruct (hasAttribute ELEMENT_ID (G x0)) eqn:Ha; auto.
  destruct (match ancestorsOf (nid element) c0 with
            | Some p => existsb tagged (map G p)
            | None => false
            end) eqn:Hp; auto.
  destruct (inList (tagName x0) MANUAL_BLOCK_TAGS) eqn:Hb; cbn [andb]; auto.
  destruct (truthy _ || _) eqn:Hc; auto.
  right. exists x0, below. repeat split; auto.
Qed.

Lemma decideElement_keeps (B : Browser) (random5 : nat -> string) (element : Element)
  (G : Element -> Element) (k : nat) :
  roundsKeep G -> roundsKeep (fst (decideElement B random5 c0 element (G, k))).
Proof.
  intros [Hn Ht].
  destruct (decideElement_cases B random5 element G k)
    as [->|(x0 & below & _ & _ & _ & _ & _ & _ & ->)]; [split; assumption|].
  cbn [fst]. split; intros x; destruct (Nat.eqb (nid x) (nid element)); auto.
  - apply Hn.
  - apply Ht.
Qed.

Lemma decideElement_more_tagged (B : Browser) (random5 : nat -> string)
  (element : Element) (G : Element -> Element) (k : nat) (x : Element) :
  tagged (G x) = true ->
  tagged (fst (decideElement B random5 c0 element (G, k)) x) = true.
Proof.
  intros H.
  destruct (decideElement_cases B random5 element G k)
    as [->|(x0 & below & _ & _ & _ & _ & _ & _ & ->)]; [exact H|].
  cbn [fst]. destruct (Nat.eqb (nid x) (nid element)); [apply tagged_setAttribute | exact H].
Qed.

Lemma decideElement_manually (B : Browser) (random5 : nat -> string)
  (element : Element) (G : Element -> Element) (k : nat) :
  (forall x, In x (elements c0) -> manuallyTagged x (G x)) ->
  forall x, In x (elements c0) ->
    manuallyTagged x (fst (decideElement B random5 c0 element (G, k)) x).
Proof.
  intros HG x Hx.
  destruct (decideElement_cases B random5 element G k)
    as [->|(x0 & below & Hfind & Hv & Ha & Hb & _ & _ & ->)]; [apply HG; exact Hx|].
  cbn [fst]. destruct (Nat.eqb (nid x) (nid element)) eqn:E; [|apply HG; exact Hx].
  apply Nat.eqb_eq in E. apply findNode_sound in Hfind as [Hx0 Hn0].
  assert (x = x0).
  { apply (NoDup_map_same nid (elements c0)); auto. congruence. }
  subst x0. destruct (HG x Hx) as [Hsame|(_ & _ & _ & v & Hset)].
  - rewrite Hsame in Ha |- *. right. repeat split; auto. eexists. reflexivity.
  - rewrite Hset in Ha. unfold hasAttribute in Ha.
    pose proof (tagged_setAttribute v x) as Htag.
    unfold tagged, hasAttribute in Htag.
    destruct (getAttribute ELEMENT_ID (setAttribute ELEMENT_ID v x)); discriminate.
Qed.

Lemma decideElement_elsewhere (B : Browser) (random5 : nat -> string)
  (element : Element) (G : Element -> Element) (k : nat) (x : Element) :
  nid x <> nid element ->
  fst (decideElement B random5 c0 element (G, k)) x = G x.
Proof.
  intros Hx.
  destruct (decideElement_cases B random5 element G k)
    as [->|(x0 & below & _ & _ & _ & _ & _ & _ & ->)]; [reflexivity|].
  cbn [fst]. apply Nat.eqb_neq in Hx. rewrite Hx. reflexivity.
Qed.

Lemma decideElement_count (B : Browser) (random5 : nat -> string)
  (element : Element) (G : Element -> Element) (k : nat) :
  k <= snd (decideElement B random5 c0 element (G, k))
  /\ (snd (decideElement B random5 c0 element (G, k)) = k ->
      decideElement B random5 c0 element (G, k) = (G, k)).
Proof.
  destruct (decideElement_cases B random5 element G k)
    as [->|(x0 & below & _ & _ & _ & _ & _ & _ & ->)]; cbn [snd]; split; auto; lia.
Qed.

Lemma decideAll_cons (B : Browser) (random5 : nat -> string) (element : Element)
  (l : list Element) (st : (Element -> Element) * nat) :
  decideAll B random5 c0 (element :: l) st
  = decideAll B random5 c0 l (decideElement B random5 c0 element st).
Proof. reflexivity. Qed.

Lemma decideAll_invariants (B : Browser) (random5 : nat -> string)
  (l : list Element) (G : Element -> Element) (k : nat) :
  roundsKeep G ->
  (forall x, In x (elements c0) -> manuallyTagged x (G x)) ->
  roundsKeep (fst (decideAll B random5 c0 l (G, k)))
  /\ (forall x, In x (elements c0) ->
        manuallyTagged x (fst (decideAll B random5 c0 l (G, k)) x))
  /\ (forall x, tagged (G x) = true ->
        tagged (fst (decideAll B random5 c0 l (G, k)) x) = true)
  /\ (forall x, ~ In (nid x) (map nid l) ->
        fst (decideAll B random5 c0 l (G, k)) x = G x)
  /\ k <= snd (decideAll B random5 c0 l (G, k))
  /\ (snd (decideAll B random5 c0 l (G, k)) = k ->
      decideAll B random5 c0 l (G, k) = (G, k)).
Proof.
  revert G k. induction l as [|element l IH]; intros G k Hk Hm.
  - cbn. repeat split; auto; apply Hk.
  - rewrite decideAll_cons.
    pose proof (decideElement_keeps B random5 element G k Hk) as Hk1.
    pose proof (decideElement_manually B random5 element G k Hm) as Hm1.
    pose proof (decideElement_count B random5 element G k) as [Hc1 Hc2].
    pose proof (decideElement_more_tagged B random5 element G k) as Hmore.
    pose proof (decideElement_elsewhere B random5 element G k) as Helse.
    destruct (decideElement B random5 c0 element (G, k)) as [G1 k1].
    cbn [fst snd] in *.
    destruct (IH G1 k1 Hk1 Hm1) as (I1 & I2 & I3 & I4 & I5 & I6).
    split; [exact I1|]. split; [exact I2|]. split.
    { intros x Hx. apply I3, Hmore, Hx. }
    split.
    { intros x Hx. cbn [map] in Hx. rewrite I4.
      - apply Helse. intros Heq. apply Hx. left. symmetry. exact Heq.
      - intros H. apply Hx. right. exact H. }
    split; [lia|].
    intros Hsame. assert (k1 = k) by lia. subst k1.
    rewrite I6 by exact Hsame. apply Hc2. reflexivity.
Qed.

(** After the rounds, a round for one of the references changes nothing
    any more, whatever identifier it would give. *)
Lemma decideAll_settled (B B' : Browser) (random5 random5' : nat -> string)
  (l : list Element) (G : Element -> Element) (k : nat) :
  roundsKeep G ->
  (forall x, In x (elements c0) -> manuallyTagged x (G x)) ->
  forall element j, In element l ->
    decideElement B' random5' c0 element (fst (decideAll B random5 c0 l (G, k)), j)
    = (fst (decideAll B random5 c0 l (G, k)), j).
Proof.
  revert G k. induction l as [|a l IH]; intros G k Hk Hm element j Hin; [contradiction|].
  rewrite decideAll_cons.
  pose proof (decideElement_keeps B random5 a G k Hk) as Hk1.
  pose proof (decideElement_manually B random5 a G k Hm) as Hm1.
  destruct Hin as [->|Hin].
  2:{ destruct (decideElement B random5 c0 a (G, k)) as [G1 k1].
      apply IH; assumption. }
  pose proof (decideElement_more_tagged B random5 element G k) as Hmono1.
  pose proof (decideElement_cases B random5 element G k) as Hstep.
  destruct (decideElement B random5 c0 element (G, k)) as [G1 k1] eqn:Estep.
  cbn [fst snd] in *.
  destruct (decideAll_invariants B random5 l G1 k1 Hk1 Hm1) as (_ & _ & Hmono2 & _).
  set (G2 := fst (decideAll B random5 c0 l (G1, k1))) in *.
  destruct (decideElement_cases B' random5' element G2 j)
    as [E|(x0 & below & Hfind & Hv & Ha & Hb & Hp & Hc & _)]; [exact E|].
  exfalso.
  assert (Hmono : forall x, tagged (G x) = true -> tagged (G2 x) = true)
    by (intros x Hx; apply Hmono2, Hmono1, Hx).
  assert (Hanc : forall p, existsb tagged (map G2 p) = false ->
                           existsb tagged (map G p) = false).
  { induction p as [|y p IHp]; [reflexivity|]. cbn [map existsb].
    intros H. apply orb_false_iff in H as [H1 H2]. apply orb_false_iff. split.
    - destruct (tagged (G y)) eqn:Ey; [|reflexivity].
      rewrite (Hmono y Ey) in H1. discriminate.
    - apply IHp, H2. }
  assert (Ha0 : hasAttribute ELEMENT_ID (G x0) = false).
  { destruct (hasAttribute ELEMENT_ID (G x0)) eqn:Ey; [|reflexivity].
    pose proof (Hmono x0 Ey) as H. unfold tagged in H. rewrite H in Ha. discriminate. }
  assert (Hp0 : match ancestorsOf (nid element) c0 with
                | Some p => existsb tagged (map G p)
                | None => false
                end = false).
  { destruct (ancestorsOf (nid element) c0) as [p|]; [apply Hanc, Hp | reflexivity]. }
  assert (Htagged : tagged (G1 x0) = true).
  { destruct Hstep as [E|(x1 & below1 & Hfind1 & _ & _ & _ & _ & _ & E)].
    - unfold decideElement in Estep. rewrite Hfind, Hv, Ha0, Hp0, Hb, Hc in Estep.
      cbn [andb] in Estep. injection Estep as _ Ek. injection E as _ Ek'. lia.
    - injection E as -> _. rewrite Hfind in Hfind1. injection Hfind1 as <- <-.
      apply findNode_sound in Hfind as [_ Hn0]. rewrite Hn0, Nat.eqb_refl.
      apply tagged_setAttribute. }
  pose proof (Hmono2 x0 Htagged) as H. unfold tagged in H. rewrite H in Ha. discriminate.
Qed.

End Rounds.

Lemma decideElement_by_reference (B : Browser) (random5 : nat -> string) (c0 : Node)
  (a b : Element) (st : (Element -> Element) * nat) :
  nid a = nid b ->
  decideElement B random5 c0 a st = decideElement B random5 c0 b st.
Proof. intros H. unfold decideElement. rewrite H. reflexivity. Qed.

(** The loop on the container is the loop on the changes. *)
Lemma rounds_decide (B : Browser) (random5 : nat -> string) (c0 : Node)
  (l : list Element) (G : Element -> Element) (k : nat) :
  uniqueIds c0 -> roundsKeep G ->
  forEach l (processExistingElement B random5) (mapElements G c0, k)
  = (mapElements (fst (decideAll B random5 c0 l (G, k))) c0,
     snd (decideAll B random5 c0 l (G, k))).
Proof.
  intros Hu. revert G k. induction l as [|element l IH]; intros G k Hk; [reflexivity|].
  rewrite decideAll_cons. unfold forEach in *. cbn [fold_left].
  rewrite processExistingElement_decides by (apply Hk || exact Hu).
  pose proof (decideElement_keeps c0 B random5 element G k Hk) as Hk1.
  destruct (decideElement B random5 c0 element (G, k)) as [G1 k1].
  cbn [fst snd] in *. apply IH. exact Hk1.
Qed.

Lemma Forall2_map_right {A : Type} (R : A -> A -> Prop) (F : A -> A) (l : list A) :
  (forall x, In x l -> R x (F x)) -> Forall2 R l (map F l).
Proof.
  induction l as [|x l IH]; intros H; constructor.
  - apply H. left. reflexivity.
  - apply IH. intros y Hy. apply H. right. exact Hy.
Qed.

(** The pass as the rounds over the elements below the container. *)
Lemma manual_pass_changes (B : Browser) (random5 : nat -> string) (w : World)
  (e : Element) (cs : list Node) :
  contentRef w = Some (ElementNode e cs) ->
  uniqueIds (ElementNode e cs) ->
  processExistingDOMContent B random5 w
  = ((0 <? snd (decideAll B random5 (ElementNode e cs) (forestElements cs)
                  (fun x => x, 0)))%nat,
     withContent
       (mapElements
          (fst (decideAll B random5 (ElementNode e cs) (forestElements cs)
                  (fun x => x, 0)))
          (ElementNode e cs)) w).
Proof.
  intros Hc Hu.
  assert (Hk0 : roundsKeep (fun x : Element => x)) by (split; reflexivity).
  pose proof (rounds_decide B random5 (ElementNode e cs) (forestElements cs)
                (fun x => x) 0 Hu Hk0) as Hpass.
  rewrite (mapElements_id (fun x => x) (ElementNode e cs)) in Hpass by reflexivity.
  unfold processExistingDOMContent. rewrite Hc.
  unfold querySelectorAll, descendantElements. cbn [childrenOf].
  change (flat_map elements cs) with (forestElements cs).
  assert (HL : forall l : list Element, filter (fun _ : Element => true) l = l).
  { induction l as [|x l IH]; [reflexivity|]. cbn [filter]. rewrite IH. reflexivity. }
  rewrite HL, Hpass. reflexivity.
Qed.

(** X18.  [processExistingDOMContent()] on a mounted container whose
    nodes have one identity each.  The pass changes the container in
    this only: some elements below it that had no identifier, are visual
    and have one of the block tags get a [data-element-id]; elements that
    have an identifier are never given another, and nodes, order, tags,
    styles, other attributes and text stay.  When the pass returns
    [false], the container is as it was.  And the pass settles at once:
    run again on its result - with whatever clock and random numbers -
    it adds nothing and returns [false], so that the effect that calls it
    on a timer and refreshes the listeners when it returns [true] does
    not repeat itself. *)
Theorem processExistingDOMContent_settles (B : Browser) (random5 : nat -> string)
  (w : World) (e : Element) (cs : list Node) :
  contentRef w = Some (ElementNode e cs) ->
  uniqueIds (ElementNode e cs) ->
  exists cs1 : list Node,
    contentRef (snd (processExistingDOMContent B random5 w)) = Some (ElementNode e cs1)
    /\ Forall2 manuallyTagged (forestElements cs) (forestElements cs1)
    /\ map textContent cs1 = map textContent cs
    /\ (fst (processExistingDOMContent B random5 w) = false -> cs1 = cs)
    /\ forall (B' : Browser) (random5' : nat -> string),
         processExistingDOMContent B' random5'
           (snd (processExistingDOMContent B random5 w))
         = (false, snd (processExistingDOMContent B random5 w)).
Proof.
  intros Hc Hu. set (c0 := ElementNode e cs) in *.
  set (L := forestElements cs).
  assert (Hk0 : roundsKeep (fun x : Element => x)) by (split; reflexivity).
  assert (Hm0 : forall x, In x (elements c0) -> manuallyTagged x x)
    by (intros x _; left; reflexivity).
  destruct (decideAll_invariants c0 Hu B random5 L (fun x => x) 0 Hk0 Hm0)
    as (Hk1 & Hm1 & _ & Helse & _ & Hzero).
  pose proof (decideAll_settled c0 Hu B) as Hsettled.
  pose proof (rounds_decide B random5 c0 L (fun x => x) 0 Hu Hk0) as Hpass.
  rewrite (mapElements_id (fun x => x) c0) in Hpass by reflexivity.
  destruct (decideAll B random5 c0 L (fun x => x, 0)) as [G1 k1] eqn:Edec.
  cbn [fst snd] in *.
  assert (Hroot : G1 e = e).
  { apply Helse. apply uniqueIds_node in Hu as [Hroot _]. exact Hroot. }
  assert (Hw1 : processExistingDOMContent B random5 w
                = ((0 <? k1)%nat, withContent (mapElements G1 c0) w)).
  { rewrite (manual_pass_changes B random5 w e cs Hc Hu). fold c0. fold L.
    rewrite Edec. reflexivity. }
  rewrite Hw1. cbn [fst snd contentRef withContent].
  exists (map (mapElements G1) cs).
  split. { unfold c0. cbn [mapElements]. rewrite Hroot. reflexivity. }
  split.
  { rewrite forestElements_mapElements. apply Forall2_map_right.
    intros x Hx. apply Hm1. unfold c0. rewrite elements_node. right. exact Hx. }
  split. { rewrite map_map. apply map_ext. apply textContent_mapElements. }
  split.
  { intros Hb. apply Nat.ltb_ge in Hb. assert (k1 = 0) by lia. subst k1.
    specialize (Hzero eq_refl). injection Hzero as ->.
    rewrite <- (map_id cs) at 2. apply map_ext. intros n.
    apply mapElements_id. reflexivity. }
  intros B' random5'. unfold processExistingDOMContent.
  cbn [contentRef withContent].
  unfold querySelectorAll, descendantElements. unfold c0 at 1. cbn [mapElements childrenOf].
  change (flat_map elements (map (mapElements G1) cs))
    with (forestElements (map (mapElements G1) cs)).
  rewrite forestElements_mapElements. fold L.
  assert (HL : filter (fun _ : Element => true) (map G1 L) = map G1 L).
  { clear. induction (map G1 L) as [|x l IH]; [reflexivity|]. cbn [filter]. rewrite IH.
    reflexivity. }
  rewrite HL. rewrite (rounds_decide B' random5' c0 (map G1 L) G1 0 Hu Hk1).
  assert (Hnone : forall l j, incl l L ->
             decideAll B' random5' c0 (map G1 l) (G1, j) = (G1, j)).
  { induction l as [|x l IH]; intros j Hl; [reflexivity|].
    cbn [map]. rewrite decideAll_cons.
    rewrite (decideElement_by_reference B' random5' c0 (G1 x) x) by apply Hk1.
    specialize (Hsettled B' random5 random5' L (fun y => y) 0 Hk0 Hm0 x j).
    rewrite Edec in Hsettled. cbn [fst] in Hsettled.
    rewrite Hsettled by (apply Hl; left; reflexivity).
    apply IH. intros y Hy. apply Hl. right. exact Hy. }
  rewrite (Hnone L 0 (incl_refl L)). reflexivity.
Qed.

(** The property on a canvas with a tagged paragraph, a typed block and a
    blank paragraph. *)
Lemma processExistingDOMContent_witness :
  exists cs1 : list Node,
    contentRef (snd (processExistingDOMContent refBrowser (fun _ => "abcde") typedContent))
    = Some (ElementNode (createElement 0 "DIV") cs1)
    /\ Forall2 manuallyTagged
         (forestElements (fst (relabelList (refParse TYPED_CONTENT) 1)))
         (forestElements cs1)
    /\ map textContent cs1
       = map textContent (fst (relabelList (refParse TYPED_CONTENT) 1))
    /\ (fst (processExistingDOMContent refBrowser (fun _ => "abcde") typedContent) = false ->
        cs1 = fst (relabelList (refParse TYPED_CONTENT) 1))
    /\ forall (B' : Browser) (random5' : nat -> string),
         processExistingDOMContent B' random5'
           (snd (processExistingDOMContent refBrowser (fun _ => "abcde") typedContent))
         = (false,
            snd (processExistingDOMContent refBrowser (fun _ => "abcde") typedContent)).
Proof.
  apply (processExistingDOMContent_settles refBrowser (fun _ => "abcde") typedContent
           (createElement 0 "DIV") (fst (relabelList (refParse TYPED_CONTENT) 1))).
  - vm_compute. reflexivity.
  - unfold uniqueIds. vm_compute. repeat constructor; simpl; intuition discriminate.
Defined.

(** The typed block gets an identifier; the paragraph inside it, the bold
    word inside the tagged paragraph and the blank paragraph get none. *)
Example typed_block_is_tagged :
  option_map (fun c => map (fun x => (tagName x, getAttribute ELEMENT_ID x))
                         (descendantElements c))
    (contentRef (snd (processExistingDOMContent refBrowser (fun _ => "abcde") typedContent)))
  = Some [("P", Some "a"); ("B", None);
          ("DIV", Some "manual-div-1700000000000-abcde"); ("P", None); ("P", None)]
  /\ fst (processExistingDOMContent refBrowser (fun _ => "abcde") typedContent) = true.
Proof. split; vm_compute; reflexivity. Qed.

(* ------------------------------------------------------------------ *)
(** ** The resize handles of a selected image *)

Lemma isImage_spec (e : Element) (cs : list Node) :
  isImage (ElementNode e cs) = isImg e || existsb isImg (forestElements cs).
Proof.
  cbn [isImage]. f_equal.
  unfold querySelector, querySelectorAll, descendantElements. cbn [childrenOf].
  change (flat_map elements cs) with (forestElements cs).
  induction (forestElements cs) as [|x l IH]; [reflexivity|].
  cbn [filter existsb]. destruct (isImg x); [reflexivity | exact IH].
Qed.

Lemma existsb_subseq {A : Type} (p : A -> bool) (l k : list A) :
  subseq l k -> existsb p l = true -> existsb p k = true.
Proof.
  intros S H. apply existsb_exists in H as (x & Hx & Hp).
  apply existsb_exists. exists x. split; [eapply subseq_In; eassumption | exact Hp].
Qed.

Lemma removeNodeList_app (i : NodeId) (l k : list Node) :
  removeNodeList i (l ++ k) = removeNodeList i l ++ removeNodeList i k.
Proof.
  induction l as [|c l IH]; [reflexivity|]. cbn [app removeNodeList].
  destruct (isNode i c); rewrite IH; reflexivity.
Qed.

(** Leaves that were appended at identities of their own are taken away
    again by removing them one by one; what was there before stays. *)
Lemma remove_appended_leaves (e : Element) (l : list Node) (xs : list Element) :
  NoDup (map nid xs) ->
  (forall x, In x xs -> ~ In (nid x) (forestIds l)) ->
  forEach xs (fun h cur => removeNode (nid h) cur)
    (ElementNode e (l ++ map (fun x => ElementNode x []) xs))
  = ElementNode e l.
Proof.
  unfold forEach. induction xs as [|x xs IH]; intros Hnd Hfresh; cbn [fold_left map].
  - rewrite app_nil_r. reflexivity.
  - cbn [map] in Hnd. inversion Hnd as [|y ys Hx Hnd']; subst.
    rewrite removeNode_node, removeNodeList_app.
    rewrite removeNodeList_absent_id by (apply Hfresh; left; reflexivity).
    cbn [removeNodeList isNode]. rewrite Nat.eqb_refl.
    rewrite removeNodeList_absent_id.
    + apply IH; [exact Hnd'|]. intros z Hz. apply Hfresh. right. exact Hz.
    + unfold forestIds. intros H. apply Hx.
      clear - H. induction xs as [|z xs IH]; [contradiction|].
      cbn [map] in H |- *. rewrite forestElements_cons, map_app in H.
      apply in_app_or in H. destruct H as [H|H].
      * rewrite elements_node in H. cbn in H. destruct H as [H|[]]. left. exact H.
      * right. apply IH, H.
Qed.

Lemma cornerHandles_leaves (fresh : NodeId) :
  exists xs : list Element,
    cornerHandles fresh = map (fun x => ElementNode x []) xs
    /\ map nid xs = seq fresh 4
    /\ forestElements (cornerHandles fresh) = xs
    /\ filter isResizeHandle xs = xs
    /\ map (getAttribute "data-handle") xs = [Some "nw"; Some "ne"; Some "sw"; Some "se"].
Proof.
  exists (flat_map elements (cornerHandles fresh)). repeat split.
Qed.

Lemma addHandles_loop (fresh : NodeId) (e : Element) (l : list Node) :
  forEach (combine (seq fresh 4) HANDLES)
    (fun ih cur => appendChild cur (handleElement (fst ih) (snd ih))) (ElementNode e l)
  = ElementNode e (l ++ cornerHandles fresh).
Proof.
  unfold forEach, cornerHandles. cbn [seq HANDLES combine fold_left appendChild map].
  rewrite <- !app_assoc. reflexivity.
Qed.

(** X19.  Selecting an image and taking the selection off again.  For an
    element that is an image or holds one (outside of any earlier resize
    handle), with four identities that no node below it has:
    [applySelectionStyling] takes the earlier resize handles out and
    appends the four corner handles [nw], [ne], [sw], [se] as the last
    children, so that the element has exactly these four handles, however
    many it had; it is fully selected and keeps identity, tag and
    attributes.  [removeSelectionStyling] then takes the four handles
    out again and leaves the children that were there without handles;
    the element carries no selection styling any more. *)
Theorem selected_image_has_four_handles (fresh : NodeId) (e : Element) (cs : list Node) :
  isImage (removeImageResizeHandles (ElementNode e cs)) = true ->
  (forall i, In i (seq fresh 4) -> ~ In i (forestIds cs)) ->
  exists (e1 e2 : Element) (cs' : list Node),
    removeImageResizeHandles (ElementNode e cs) = ElementNode e cs'
    /\ resizeHandles (ElementNode e cs') = []
    /\ applySelectionStyling fresh (ElementNode e cs)
       = ElementNode e1 (cs' ++ cornerHandles fresh)
    /\ sameIdentity e1 e /\ fullySelected e1 = true
    /\ map (getAttribute "data-handle")
         (resizeHandles (applySelectionStyling fresh (ElementNode e cs)))
       = [Some "nw"; Some "ne"; Some "sw"; Some "se"]
    /\ removeSelectionStyling (applySelectionStyling fresh (ElementNode e cs))
       = ElementNode e2 cs'
    /\ sameIdentity e2 e /\ carriesSelectionStyling e2 = false.
Proof.
  intros Himg Hfresh.
  destruct (remove_all_matching isResizeHandle e cs) as (cs' & Erem & Hsub & Hnone).
  fold (removeImageResizeHandles (ElementNode e cs)) in Erem.
  rewrite Erem in Himg. rewrite isImage_spec in Himg.
  assert (Hfresh' : forall i, In i (seq fresh 4) -> ~ In i (forestIds cs')).
  { intros i Hi H. apply (Hfresh i Hi). unfold forestIds in *.
    eapply subseq_In; [apply subseq_map; exact Hsub | exact H]. }
  destruct (cornerHandles_leaves fresh) as (xs & Hleaf & Hids & Hxs & Hall & Hdata).
  (* selecting *)
  set (e0 := setProperty "box-shadow" SELECTION_SHADOW
               (setProperty "outline-offset" SELECTION_OFFSET
                  (setProperty "outline" SELECTION_OUTLINE e))).
  set (e1 := if negb (truthy (getPropertyValue "position" e0))
                || (getPropertyValue "position" e0 =? "static")%string
             then setProperty "position" "relative" e0 else e0).
  assert (Hid0 : sameIdentity e0 e) by (repeat split).
  assert (Hid1 : sameIdentity e1 e).
  { unfold e1. destruct (negb _ || _); [|exact Hid0].
    eapply sameIdentity_trans; [apply sameIdentity_setProperty | exact Hid0]. }
  assert (Hfull : fullySelected e1 = true).
  { unfold e1. destruct (negb _ || _); unfold fullySelected, e0; style_simpl;
      reflexivity. }
  assert (Himg0 : forall (x : Element) (l : list Node),
             isImg x = isImg e -> subseq (forestElements cs') (forestElements l) ->
             isImage (ElementNode x l) = true).
  { intros x l Hx Hl. rewrite isImage_spec, Hx.
    apply orb_true_iff in Himg. apply orb_true_iff.
    destruct Himg as [H|H]; [left; exact H | right; eapply existsb_subseq; eassumption]. }
  assert (Hselect : applySelectionStyling fresh (ElementNode e cs)
                    = ElementNode e1 (cs' ++ cornerHandles fresh)).
  { unfold applySelectionStyling. cbn [onElement]. fold e0.
    rewrite (Himg0 e0 cs eq_refl Hsub).
    unfold addImageResizeHandles.
    destruct (remove_all_matching isResizeHandle e0 cs) as (cs0 & Erem0 & _ & _).
    assert (Hcs0 : cs0 = cs').
    { unfold querySelectorAll, descendantElements in Erem, Erem0.
      cbn [childrenOf] in Erem, Erem0.
      assert (Hgen : forall (a b : Element) (ids : list Element) (l : list Node),
                 childrenOf (forEach ids (fun h cur => removeNode (nid h) cur)
                               (ElementNode a l))
                 = childrenOf (forEach ids (fun h cur => removeNode (nid h) cur)
                                 (ElementNode b l))).
      { intros a b ids. unfold forEach. induction ids as [|h ids IH]; intros l;
          cbn [fold_left]; [reflexivity|].
        rewrite !removeNode_node. apply IH. }
      specialize (Hgen e0 e (filter isResizeHandle (flat_map elements cs)) cs).
      unfold removeImageResizeHandles, querySelectorAll, descendantElements in Erem.
      cbn [childrenOf] in Erem. rewrite Erem0, Erem in Hgen. exact Hgen. }
    subst cs0. fold (removeImageResizeHandles (ElementNode e0 cs)) in Erem0.
    rewrite Erem0. cbn [onElement]. fold e1. apply addHandles_loop. }
  assert (Hhandles : resizeHandles (ElementNode e1 (cs' ++ cornerHandles fresh)) = xs).
  { unfold resizeHandles, querySelectorAll, descendantElements. cbn [childrenOf].
    change (flat_map elements (cs' ++ cornerHandles fresh))
      with (forestElements (cs' ++ cornerHandles fresh)).
    rewrite forestElements_app, filter_app, Hxs, Hall.
    unfold querySelectorAll, descendantElements in Hnone. cbn [childrenOf] in Hnone.
    change (flat_map elements cs') with (forestElements cs') in Hnone.
    rewrite Hnone. reflexivity. }
  (* taking the selection off *)
  set (e2 := setProperty "outline-offset" "0px"
               (setProperty "box-shadow" "none" (setProperty "outline" "none" e1))).
  assert (Hid2 : sameIdentity e2 e).
  { eapply sameIdentity_trans; [|exact Hid1]. repeat split. }
  assert (Hc2 : carriesSelectionStyling e2 = false).
  { unfold carriesSelectionStyling, e2. style_simpl. reflexivity. }
  exists e1, e2, cs'.
  split; [exact Erem|]. split; [exact Hnone|]. split; [exact Hselect|].
  split; [exact Hid1|]. split; [exact Hfull|].
  split. { rewrite Hselect, Hhandles. exact Hdata. }
  split; [|split; [exact Hid2 | exact Hc2]].
  rewrite Hselect. unfold removeSelectionStyling. cbn [onElement]. fold e2.
  rewrite Himg0.
  - unfold removeImageResizeHandles.
    fold (resizeHandles (ElementNode e2 (cs' ++ cornerHandles fresh))).
    assert (Hh2 : resizeHandles (ElementNode e2 (cs' ++ cornerHandles fresh)) = xs)
      by exact Hhandles.
    rewrite Hh2, Hleaf. apply remove_appended_leaves.
    + rewrite Hids. apply seq_NoDup.
    + intros x Hx. apply Hfresh'. rewrite <- Hids. apply in_map. exact Hx.
  - destruct Hid2 as (_ & Ht & _). unfold isImg. rewrite Ht. reflexivity.
  - rewrite forestElements_app.
    rewrite <- (app_nil_r (forestElements cs')) at 1.
    apply subseq_app; [apply subseq_refl | apply subseq_nil_l].
Qed.

(** The property on a figure that holds an image and a handle left over
    from an earlier selection. *)
Lemma selected_image_witness :
  exists (e1 e2 : Element) (cs' : list Node),
    removeImageResizeHandles
      (ElementNode (mkElement 1 "FIGURE" [(ELEMENT_ID, "f")] [])
         [ElementNode (mkElement 2 "IMG" [("src", "u.png")] []) [];
          handleElement 3 (mkHandle "se" "se-resize" None (Some "-6px") None (Some "-6px"))])
    = ElementNode (mkElement 1 "FIGURE" [(ELEMENT_ID, "f")] []) cs'
    /\ resizeHandles (ElementNode (mkElement 1 "FIGURE" [(ELEMENT_ID, "f")] []) cs') = []
    /\ applySelectionStyling 10
         (ElementNode (mkElement 1 "FIGURE" [(ELEMENT_ID, "f")] [])
            [ElementNode (mkElement 2 "IMG" [("src", "u.png")] []) [];
             handleElement 3
               (mkHandle "se" "se-resize" None (Some "-6px") None (Some "-6px"))])
       = ElementNode e1 (cs' ++ cornerHandles 10)
    /\ sameIdentity e1 (mkElement 1 "FIGURE" [(ELEMENT_ID, "f")] [])
    /\ fullySelected e1 = true
    /\ map (getAttribute "data-handle")
         (resizeHandles
            (applySelectionStyling 10
               (ElementNode (mkElement 1 "FIGURE" [(ELEMENT_ID, "f")] [])
                  [ElementNode (mkElement 2 "IMG" [("src", "u.png")] []) [];
                   handleElement 3
                     (mkHandle "se" "se-resize" None (Some "-6px") None (Some "-6px"))])))
       = [Some "nw"; Some "ne"; Some "sw"; Some "se"]
    /\ removeSelectionStyling
         (applySelectionStyling 10
            (ElementNode (mkElement 1 "FIGURE" [(ELEMENT_ID, "f")] [])
               [ElementNode (mkElement 2 "IMG" [("src", "u.png")] []) [];
                handleElement 3
                  (mkHandle "se" "se-resize" None (Some "-6px") None (Some "-6px"))]))
       = ElementNode e2 cs'
    /\ sameIdentity e2 (mkElement 1 "FIGURE" [(ELEMENT_ID, "f")] [])
    /\ carriesSelectionStyling e2 = false.
Proof.
  apply (selected_image_has_four_handles 10
           (mkElement 1 "FIGURE" [(ELEMENT_ID, "f")] [])
           [ElementNode (mkElement 2 "IMG" [("src", "u.png")] []) [];
            handleElement 3
              (mkHandle "se" "se-resize" None (Some "-6px") None (Some "-6px"))]).
  - vm_compute. reflexivity.
  - intros i Hi Hin. vm_compute in Hi, Hin. intuition congruence.
Defined.

(** Selecting the figure twice leaves it with four handles, not eight. *)
Example select_twice_four_handles :
  List.length
    (resizeHandles
       (applySelectionStyling 14
          (applySelectionStyling 10
             (ElementNode (mkElement 1 "FIGURE" [(ELEMENT_ID, "f")] [])
                [ElementNode (mkElement 2 "IMG" [("src", "u.png")] []) []]))))
  = 4.
Proof. vm_compute. reflexivity. Qed.

(* ------------------------------------------------------------------ *)
(** ** Refreshing the listeners *)

Lemma assocSet_own (k v : string) (l : list (string * string)) :
  assocGet k l = Some v -> assocSet k v l = l.
Proof.
  induction l as [|[a b] l IH]; simpl; [discriminate|].
  destruct (a =? k) eqn:E.
  - intros [= ->]. apply String.eqb_eq in E. subst a. reflexivity.
  - intros H. rewrite IH by exact H. reflexivity.
Qed.

Lemma setProperty_own (p : string) (e x : Element) :
  style x = style e ->
  (if truthy (getPropertyValue p e) then setProperty p (getPropertyValue p e) x else x)
  = x.
Proof.
  intros Hs. destruct (truthy (getPropertyValue p e)) eqn:Ht; [|reflexivity].
  unfold getPropertyValue in *. unfold setProperty. rewrite Hs.
  destruct (assocGet p (style e)) as [v|] eqn:Eg; [|discriminate].
  rewrite assocSet_own by exact Eg. rewrite <- Hs. destruct x. reflexivity.
Qed.

(** The styles that are restored on the clone are the styles the clone
    has: the loop changes nothing. *)
Lemma restoreImportant_clone (e x : Element) :
  style x = style e -> restoreImportant e x = x.
Proof.
  intros Hs. unfold restoreImportant, importantStyles, forEach. cbn [fold_left fst snd].
  change (cssPropertyName "opacity") with "opacity".
  change (cssPropertyName "outline") with "outline".
  change (cssPropertyName "outlineOffset") with "outline-offset".
  change (cssPropertyName "boxShadow") with "box-shadow".
  rewrite (setProperty_own "opacity" e x Hs), (setProperty_own "outline" e x Hs),
    (setProperty_own "outline-offset" e x Hs).
  apply (setProperty_own "box-shadow" e x Hs).
Qed.

Lemma relabel_shape (n : Node) (k : NodeId) :
  withoutIdentities (fst (relabel n k)) = withoutIdentities n.
Proof.
  pose proof (relabelList_shape [n] k) as H. cbn [relabelList] in H.
  destruct (relabel n k) as [c' k1]. cbn [fst map] in *. injection H as H. exact H.
Qed.

Lemma cloneRestored_keeps (next : NodeId) (n : Node) :
  cloneRestored next n = fst (cloneNode n next).
Proof.
  destruct n as [s|e cs]; [reflexivity|].
  unfold cloneRestored, cloneNode. rewrite relabel_node. cbn [fst onElement].
  rewrite restoreImportant_clone; reflexivity.
Qed.

Lemma withoutIdentities_update (i : NodeId) (f : Node -> Node) (n : Node) :
  (forall m, withoutIdentities (f m) = withoutIdentities m) ->
  withoutIdentities (updateAt i f n) = withoutIdentities n.
Proof.
  intros Hf. induction n as [s|e cs IH] using Node_forall_ind; [reflexivity|].
  cbn [updateAt]. destruct (Nat.eqb (nid e) i); [apply Hf|].
  unfold withoutIdentities. cbn [mapElements]. f_equal. rewrite map_map.
  induction IH as [|c cs Hc Hcs IHcs]; [reflexivity|].
  cbn [map]. unfold withoutIdentities in Hc. rewrite Hc, IHcs. reflexivity.
Qed.

(** The node a reference denotes, where it is, and what a change at the
    reference makes of the elements. *)
Lemma node_at_reference (i : NodeId) (l : list Node) :
  NoDup (forestIds l) -> In i (forestIds l) ->
  exists (pre post : list Element) (node : Node),
    isNode i node = true
    /\ forestElements l = pre ++ elements node ++ post
    /\ findNodeList i l = Some node
    /\ forall f, forestElements (map (updateAt i f) l) = pre ++ elements (f node) ++ post.
Proof.
  revert l.
  assert (Hnode : forall n,
             isNode i n = false ->
             NoDup (map nid (elements n)) -> In i (map nid (elements n)) ->
             exists pre post node,
               isNode i node = true
               /\ elements n = pre ++ elements node ++ post
               /\ findNode i n = Some node
               /\ forall f, elements (updateAt i f n) = pre ++ elements (f node) ++ post).
  { induction n as [s|e cs IH] using Node_forall_ind; intros Hroot Hnd Hin.
    - simpl in Hin. contradiction.
    - rewrite findNode_node. cbn [updateAt]. simpl in Hroot. rewrite Hroot.
      rewrite elements_node in Hnd, Hin. simpl in Hnd, Hin.
      destruct Hin as [Hin|Hin]; [apply Nat.eqb_neq in Hroot; contradiction|].
      inversion Hnd as [|x xs Hx Hnd']; subst. clear Hnd Hx Hroot.
      assert (Hl : exists pre post node,
                 isNode i node = true
                 /\ forestElements cs = pre ++ elements node ++ post
                 /\ findNodeList i cs = Some node
                 /\ forall f, forestElements (map (updateAt i f) cs)
                              = pre ++ elements (f node) ++ post).
      { induction IH as [|c cs Hc Hcs IHcs].
        - simpl in Hin. contradiction.
        - rewrite forestElements_cons, map_app in Hnd', Hin.
          cbn [findNodeList map].
          destruct (isNode i c) eqn:Ec.
          + exists [], (forestElements cs), c.
            split; [exact Ec|]. split; [reflexivity|].
            destruct c as [s|e0 cs0]; [discriminate|].
            rewrite findNode_node. simpl in Ec. rewrite Ec. split; [reflexivity|].
            intros f. rewrite forestElements_cons. cbn [updateAt]. rewrite Ec.
            cbn [app]. f_equal. f_equal. apply updateAt_absent_list.
            intros H. apply Nat.eqb_eq in Ec.
            eapply (NoDup_app_disjoint _ _ i Hnd'); [|exact H].
            rewrite elements_node. simpl. auto.
          + destruct (in_dec Nat.eq_dec i (map nid (elements c))) as [Hc'|Hc'].
            * destruct (Hc eq_refl (NoDup_app_l _ _ Hnd') Hc')
                as (pre & post & node & E0 & E1 & E2 & E3).
              exists pre, (post ++ forestElements cs), node.
              split; [exact E0|]. rewrite forestElements_cons, E1, E2.
              split; [rewrite <- !app_assoc; reflexivity|]. split; [reflexivity|].
              intros f. rewrite forestElements_cons, E3, updateAt_absent_list.
              -- rewrite <- !app_assoc. reflexivity.
              -- intros H. eapply NoDup_app_disjoint; eassumption.
            * apply in_app_or in Hin. destruct Hin as [Hin|Hin]; [contradiction|].
              destruct (IHcs Hin (NoDup_app_r _ _ Hnd'))
                as (pre & post & node & E0 & E1 & E2 & E3).
              exists (elements c ++ pre), post, node.
              split; [exact E0|]. rewrite forestElements_cons, E1.
              rewrite findNode_absent by exact Hc'.
              split; [rewrite <- !app_assoc; reflexivity|]. split; [exact E2|].
              intros f. rewrite forestElements_cons, E3, updateAt_absent by exact Hc'.
              rewrite <- !app_assoc. reflexivity. }
      destruct Hl as (pre & post & node & E0 & E1 & E2 & E3).
      exists (e :: pre), post, node. rewrite !elements_node, E1, E2.
      split; [exact E0|]. split; [reflexivity|]. split; [reflexivity|].
      intros f. rewrite elements_node, E3. reflexivity. }
  induction l as [|c l IH]; intros Hnd Hin.
  - simpl in Hin. contradiction.
  - unfold forestIds in *. rewrite forestElements_cons, map_app in Hnd, Hin.
    cbn [findNodeList map].
    destruct (isNode i c) eqn:Ec.
    + exists [], (forestElements l), c.
      split; [exact Ec|]. split; [reflexivity|].
      destruct c as [s|e0 cs0]; [discriminate|].
      rewrite findNode_node. simpl in Ec. rewrite Ec. split; [reflexivity|].
      intros f. rewrite forestElements_cons. cbn [updateAt]. rewrite Ec.
      cbn [app]. f_equal. f_equal. apply updateAt_absent_list.
      intros H. apply Nat.eqb_eq in Ec.
      eapply (NoDup_app_disjoint _ _ i Hnd); [|exact H].
      rewrite elements_node. simpl. auto.
    + destruct (in_dec Nat.eq_dec i (map nid (elements c))) as [Hc'|Hc'].
      * destruct (Hnode c Ec (NoDup_app_l _ _ Hnd) Hc')
          as (pre & post & node & E0 & E1 & E2 & E3).
        exists pre, (post ++ forestElements l), node.
        split; [exact E0|]. rewrite forestElements_cons, E1, E2.
        split; [rewrite <- !app_assoc; reflexivity|]. split; [reflexivity|].
        intros f. rewrite forestElements_cons, E3, updateAt_absent_list.
        -- rewrite <- !app_assoc. reflexivity.
        -- intros H. eapply NoDup_app_disjoint; eassumption.
      * apply in_app_or in Hin. destruct Hin as [Hin|Hin]; [contradiction|].
        destruct (IH (NoDup_app_r _ _ Hnd) Hin)
          as (pre & post & node & E0 & E1 & E2 & E3).
        exists (elements c ++ pre), post, node.
        split; [exact E0|]. rewrite forestElements_cons, E1.
        rewrite findNode_absent by exact Hc'.
        split; [rewrite <- !app_assoc; reflexivity|]. split; [exact E2|].
        intros f. rewrite forestElements_cons, E3, updateAt_absent by exact Hc'.
        rewrite <- !app_assoc. reflexivity.
Qed.

Lemma ids_replaced (pre mid post : list nat) (next size : nat) :
  NoDup (pre ++ mid ++ post) ->
  Forall (fun i => i < next) (pre ++ mid ++ post) ->
  NoDup (pre ++ seq next size ++ post)
  /\ Forall (fun i => i < next + size) (pre ++ seq next size ++ post)
  /\ (forall j, j < next -> ~ In j (pre ++ mid ++ post) ->
                ~ In j (pre ++ seq next size ++ post))
  /\ (forall j, In j mid -> ~ In j (pre ++ seq next size ++ post)).
Proof.
  intros Hnd Hlt. rewrite !Forall_app in Hlt. destruct Hlt as (Lpre & Lmid & Lpost).
  rewrite Forall_forall in Lpre, Lmid, Lpost.
  assert (Hseq : forall a, In a (seq next size) -> next <= a < next + size)
    by (intros a Ha; apply in_seq in Ha; lia).
  split; [|split; [|split]].
  - apply NoDup_app.
    + eapply NoDup_app_l. exact Hnd.
    + apply NoDup_app.
      * apply seq_NoDup.
      * eapply NoDup_app_r, NoDup_app_r. exact Hnd.
      * intros a Ha Hp. apply Hseq in Ha. apply Lpost in Hp. lia.
    + intros a Ha Hin. apply in_app_or in Hin. destruct Hin as [Hin|Hin].
      * apply Hseq in Hin. apply Lpre in Ha. lia.
      * eapply (NoDup_app_disjoint _ _ a Hnd); [exact Ha|].
        apply in_or_app. right. exact Hin.
  - rewrite !Forall_app. repeat split; apply Forall_forall; intros a Ha.
    + apply Lpre in Ha. lia.
    + apply Hseq in Ha. lia.
    + apply Lpost in Ha. lia.
  - intros j Hj Hout Hin. apply Hout.
    apply in_app_or in Hin. destruct Hin as [Hin|Hin]; [apply in_or_app; auto|].
    apply in_app_or in Hin. destruct Hin as [Hin|Hin].
    + apply Hseq in Hin. lia.
    + apply in_or_app. right. apply in_or_app. auto.
  - intros j Hj Hin.
    apply in_app_or in Hin. destruct Hin as [Hin|Hin].
    + eapply (NoDup_app_disjoint _ _ j Hnd); [exact Hin|]. apply in_or_app. auto.
    + apply in_app_or in Hin. destruct Hin as [Hin|Hin].
      * apply Hseq in Hin. apply Lmid in Hj. lia.
      * apply NoDup_app_r in Hnd.
        eapply (NoDup_app_disjoint _ _ j Hnd); eassumption.
Qed.

Lemma isNode_root_id (i : NodeId) (node : Node) :
  isNode i node = true -> In i (map nid (elements node)).
Proof.
  destruct node as [s|e cs]; [discriminate|]. simpl. intros H.
  apply Nat.eqb_eq in H. left. exact H.
Qed.

(** One round of [removeAllEventListeners] on a container whose nodes have
    one identity each, all below [next]. *)
Lemma replaceByClone_round (x e : Element) (l : list Node) (next : NodeId) :
  uniqueIds (ElementNode e l) ->
  allocatedBelow next (ElementNode e l) ->
  nid x <> nid e -> nid x < next ->
  exists (l' : list Node) (next' : NodeId),
    replaceByClone x (ElementNode e l, next) = (ElementNode e l', next')
    /\ uniqueIds (ElementNode e l')
    /\ allocatedBelow next' (ElementNode e l')
    /\ next <= next'
    /\ map withoutIdentities l' = map withoutIdentities l
    /\ ~ In (nid x) (forestIds l')
    /\ (forall j, j < next -> ~ In j (forestIds l) -> ~ In j (forestIds l')).
Proof.
  intros Hu Hb Hroot Hx. unfold replaceByClone.
  rewrite findNode_node. cbn [updateAt].
  assert (Hne : Nat.eqb (nid e) (nid x) = false)
    by (apply Nat.eqb_neq; intros E; apply Hroot; symmetry; exact E).
  rewrite Hne.
  destruct (in_dec Nat.eq_dec (nid x) (forestIds l)) as [Hin|Hout].
  - pose proof Hu as Hu'. apply uniqueIds_node in Hu' as [Hre Hnd].
    destruct (node_at_reference (nid x) l Hnd Hin)
      as (pre & post & node & Hnode & E1 & E2 & E3).
    rewrite E2.
    exists (map (updateAt (nid x) (cloneRestored next)) l),
      (snd (cloneNode node next)).
    split; [reflexivity|].
    assert (Hids : forestIds (map (updateAt (nid x) (cloneRestored next)) l)
                   = map nid pre ++ seq next (List.length (elements node)) ++ map nid post).
    { unfold forestIds. rewrite E3, !map_app, cloneRestored_keeps.
      unfold cloneNode. rewrite (proj1 (relabel_ids node next)). reflexivity. }
    assert (Hnext : snd (cloneNode node next) = next + List.length (elements node))
      by apply relabel_ids.
    unfold uniqueIds, allocatedBelow in *. rewrite !elements_node in *.
    cbn [map] in *. fold (forestIds l) in Hu, Hb.
    fold (forestIds (map (updateAt (nid x) (cloneRestored next)) l)).
    assert (Hold : forestIds l = map nid pre ++ map nid (elements node) ++ map nid post).
    { unfold forestIds. rewrite E1, !map_app. reflexivity. }
    rewrite Hold in Hu, Hb.
    destruct (ids_replaced (nid e :: map nid pre) (map nid (elements node))
                (map nid post) next (List.length (elements node)) Hu Hb)
      as (R1 & R2 & R3 & R4).
    rewrite Hids, Hnext.
    split; [exact R1|]. split; [exact R2|]. split; [lia|].
    split.
    { rewrite map_map. apply map_ext. intros n. apply withoutIdentities_update.
      intros m. rewrite cloneRestored_keeps. apply relabel_shape. }
    split.
    { intros H. apply (R4 (nid x)); [apply isNode_root_id; exact Hnode|].
      right. exact H. }
    intros j Hj Hjout H. apply (R3 j Hj).
    + rewrite Hold in Hjout. intros [Hje|Hj']; [|apply Hjout; exact Hj'].
      apply (R4 (nid x)); [apply isNode_root_id; exact Hnode|].
      cbn [app]. left.
      exfalso. rewrite <- Hje in H.
      inversion R1 as [|a b Ha _]; subst. apply Ha. exact H.
    + right. exact H.
  - rewrite findNodeList_absent by exact Hout.
    exists l, next. split; [reflexivity|]. repeat split; auto.
Qed.

(** The rounds of [removeAllEventListeners] over a list of references. *)
Lemma replaceByClone_rounds (L : list Element) (e : Element) (l : list Node)
  (next : NodeId) :
  uniqueIds (ElementNode e l) ->
  allocatedBelow next (ElementNode e l) ->
  (forall x, In x L -> nid x <> nid e /\ nid x < next) ->
  exists (l' : list Node) (next' : NodeId),
    forEach L replaceByClone (ElementNode e l, next) = (ElementNode e l', next')
    /\ uniqueIds (ElementNode e l')
    /\ allocatedBelow next' (ElementNode e l')
    /\ next <= next'
    /\ map withoutIdentities l' = map withoutIdentities l
    /\ (forall x, In x L -> ~ In (nid x) (forestIds l'))
    /\ (forall j, j < next -> ~ In j (forestIds l) -> ~ In j (forestIds l')).
Proof.
  revert l next. induction L as [|x L IH]; intros l next Hu Hb HL.
  - exists l, next. split; [reflexivity|]. repeat split; auto; intros x [].
  - destruct (HL x (or_introl eq_refl)) as [Hroot Hx].
    destruct (replaceByClone_round x e l next Hu Hb Hroot Hx)
      as (l1 & next1 & E1 & Hu1 & Hb1 & Hle1 & Hw1 & Hgone1 & Hstay1).
    destruct (IH l1 next1 Hu1 Hb1) as (l' & next' & E & Hu' & Hb' & Hle & Hw & Hgone & Hstay).
    { intros y Hy. destruct (HL y (or_intror Hy)). split; [assumption | lia]. }
    exists l', next'. unfold forEach in *. cbn [fold_left]. rewrite E1.
    split; [exact E|]. split; [exact Hu'|]. split; [exact Hb'|]. split; [lia|].
    split; [rewrite Hw; exact Hw1|]. split.
    + intros y [<-|Hy]; [|apply Hgone; exact Hy].
      apply Hstay; [lia | exact Hgone1].
    + intros j Hj Hout. apply Hstay; [lia|]. apply Hstay1; assumption.
Qed.

Lemma attachTo_nid (b : bool) (x : Element) : nid (attachTo b x) = nid x.
Proof.
  unfold attachTo. destruct (attributeTruthy ELEMENT_ID x); [|reflexivity].
  cbv zeta. destruct b; [cbn [setAttribute nid]|]; apply applyBuilderStyling_nid.
Qed.

Lemma attachTo_tagged_only (b : bool) (x : Element) :
  (if tagged x then attachTo b x else x) = attachTo b x.
Proof.
  destruct (tagged x) eqn:E; [reflexivity|].
  unfold attachTo, attributeTruthy. unfold tagged, hasAttribute in E.
  destruct (getAttribute ELEMENT_ID x); [discriminate | reflexivity].
Qed.

Lemma setProperty_record (p v : string) (n : NodeId) (t : string)
    (a : list (string * string)) (s : list (string * string)) :
  setProperty p v (mkElement n t a s) = mkElement n t a (assocSet p v s).
Proof. reflexivity. Qed.

(** The styling of an element is a function of its style. *)
Lemma applyBuilderStyling_style_only (b : bool) (x : Element) :
  applyBuilderStyling b x
  = mkElement (nid x) (tagName x) (attributes x)
      (style (applyBuilderStyling b (mkElement 0 EmptyString [] (style x)))).
Proof.
  destruct x as [n t a s]. cbn [nid tagName attributes style].
  unfold applyBuilderStyling. cbv zeta.
  rewrite !setProperty_record.
  unfold getPropertyValue at 1 2 3 4 5. cbn [style].
  destruct (_ || _ || _ || _);
    rewrite ?setProperty_record; unfold getPropertyValue; cbn [style];
    destruct (_ && _);
    rewrite ?setProperty_record; cbn [style];
    destruct b; rewrite ?setProperty_record; cbn [style]; reflexivity.
Qed.

Lemma attachTo_setNid (b : bool) (i : NodeId) (x : Element) :
  attachTo b (setNid i x) = setNid i (attachTo b x).
Proof.
  unfold attachTo.
  change (attributeTruthy ELEMENT_ID (setNid i x)) with (attributeTruthy ELEMENT_ID x).
  destruct (attributeTruthy ELEMENT_ID x); [|reflexivity]. cbv zeta.
  assert (H : applyBuilderStyling false (setNid i x)
              = setNid i (applyBuilderStyling false x)).
  { rewrite (applyBuilderStyling_style_only false (setNid i x)),
      (applyBuilderStyling_style_only false x). reflexivity. }
  rewrite H. destruct b; reflexivity.
Qed.

Lemma withoutIdentities_mapElements (F : Element -> Element) (n : Node) :
  (forall i x, F (setNid i x) = setNid i (F x)) ->
  withoutIdentities (mapElements F n) = mapElements F (withoutIdentities n).
Proof.
  intros HF. unfold withoutIdentities. rewrite !mapElements_compose.
  apply mapElements_ext. intros x _. symmetry. apply HF.
Qed.

(** X20.  [refreshListeners()] on a mounted container whose nodes have one
    identity each.  It first gives identifiers to typed elements
    ([processExistingDOMContent]), then replaces every tagged element by
    its clone, then styles the tagged elements.  The markup of the
    container afterwards is the markup after the first step with the base
    styling (and [draggable]) on the tagged elements that have a
    non-empty identifier: the cloning changes no tag, attribute, style or
    text.  But no tagged element is the node it was: every element that
    was tagged before is out of the container, another node being in its
    place, so that a reference taken before - as the selection state
    holds one - refers to no node of the container any more.  The
    selection state itself is not touched. *)
Theorem refreshListeners_replaces_elements (B : Browser) (random5 : nat -> string)
  (hasDragStart : bool) (w : World) (e : Element) (cs : list Node) :
  contentRef w = Some (ElementNode e cs) ->
  uniqueIds (ElementNode e cs) ->
  allocatedBelow (nextNode w) (ElementNode e cs) ->
  exists cs1 cs' : list Node,
    contentRef (snd (processExistingDOMContent B random5 w)) = Some (ElementNode e cs1)
    /\ contentRef (refreshListeners B random5 hasDragStart w) = Some (ElementNode e cs')
    /\ map withoutIdentities cs'
       = map withoutIdentities (map (mapElements (attachTo hasDragStart)) cs1)
    /\ uniqueIds (ElementNode e cs')
    /\ (forall x, In x (forestElements cs) -> tagged x = true ->
                  ~ In (nid x) (forestIds cs'))
    /\ selection (refreshListeners B random5 hasDragStart w) = selection w.
Proof.
  intros Hc Hu Hb. set (c0 := ElementNode e cs) in *.
  assert (Hk0 : roundsKeep (fun x : Element => x)) by (split; reflexivity).
  assert (Hm0 : forall x, In x (elements c0) -> manuallyTagged x x)
    by (intros x _; left; reflexivity).
  destruct (decideAll_invariants c0 Hu B random5 (forestElements cs) (fun x => x) 0
              Hk0 Hm0) as (Hk1 & Hm1 & _ & Helse & _ & _).
  pose proof (manual_pass_changes B random5 w e cs Hc Hu) as Hw1. fold c0 in Hw1.
  destruct (decideAll B random5 c0 (forestElements cs) (fun x => x, 0)) as [G1 k1].
  cbn [fst snd] in *.
  assert (Hroot : G1 e = e).
  { apply Helse. apply uniqueIds_node in Hu as [Hroot _]. exact Hroot. }
  set (cs1 := map (mapElements G1) cs).
  assert (Hc1 : mapElements G1 c0 = ElementNode e cs1).
  { unfold c0. cbn [mapElements]. rewrite Hroot. reflexivity. }
  assert (Hids1 : map nid (elements (ElementNode e cs1)) = map nid (elements c0)).
  { rewrite <- Hc1. apply mapElements_ids. apply Hk1. }
  assert (Hu1 : uniqueIds (ElementNode e cs1)) by (unfold uniqueIds; rewrite Hids1; exact Hu).
  assert (Hb1 : allocatedBelow (nextNode w) (ElementNode e cs1))
    by (unfold allocatedBelow; rewrite Hids1; exact Hb).
  set (L1 := querySelectorAll tagged (ElementNode e cs1)).
  assert (HL1 : forall x, In x L1 -> nid x <> nid e /\ nid x < nextNode w).
  { intros x Hx. unfold L1, querySelectorAll, descendantElements in Hx.
    cbn [childrenOf] in Hx. apply filter_In in Hx as [Hx _].
    change (flat_map elements cs1) with (forestElements cs1) in Hx.
    assert (Hi : In (nid x) (forestIds cs1)) by (apply in_map; exact Hx).
    split.
    - apply uniqueIds_node in Hu1 as [Hr _]. intros E. apply Hr. rewrite <- E. exact Hi.
    - unfold allocatedBelow in Hb1. rewrite elements_node in Hb1. cbn [map] in Hb1.
      inversion Hb1 as [|a b _ Hrest]; subst. rewrite Forall_forall in Hrest.
      apply Hrest. exact Hi. }
  destruct (replaceByClone_rounds L1 e cs1 (nextNode w) Hu1 Hb1 HL1)
    as (cs2 & next2 & E2 & Hu2 & _ & _ & Hw2 & Hgone & _).
  set (F := fun x => if tagged x then attachTo hasDragStart x else x).
  exists cs1, (map (mapElements F) cs2).
  assert (Hrefresh : refreshListeners B random5 hasDragStart w
                     = withContent (ElementNode e (map (mapElements F) cs2))
                         (withNextNode next2 (withContent (ElementNode e cs2)
                            (withContent (ElementNode e cs1) w)))).
  { unfold refreshListeners. rewrite Hc, Hw1, Hc1. cbn [snd].
    unfold removeAllEventListeners. cbn [contentRef withContent nextNode].
    fold L1. rewrite E2. unfold attachEventListeners.
    cbn [contentRef withContent withNextNode].
    rewrite (forEach_selected tagged (attachTo hasDragStart) e cs2
               (attachTo_nid hasDragStart) Hu2).
    reflexivity. }
  rewrite Hrefresh, Hw1, Hc1. cbn [snd contentRef withContent withNextNode selection].
  split; [reflexivity|]. split; [reflexivity|].
  assert (HF : forall n, mapElements F n = mapElements (attachTo hasDragStart) n).
  { intros n. apply mapElements_ext. intros x _. apply attachTo_tagged_only. }
  assert (Hids3 : forestIds (map (mapElements F) cs2) = forestIds cs2).
  { unfold forestIds. rewrite forestElements_mapElements, map_map.
    apply map_ext. intros x. unfold F. rewrite attachTo_tagged_only. apply attachTo_nid. }
  split.
  { rewrite !map_map.
    transitivity (map (fun n => mapElements (attachTo hasDragStart) (withoutIdentities n)) cs2).
    - apply map_ext. intros n. rewrite HF.
      apply withoutIdentities_mapElements. intros i x. apply attachTo_setNid.
    - rewrite <- (map_map withoutIdentities (mapElements (attachTo hasDragStart))), Hw2.
      rewrite map_map. apply map_ext. intros n. symmetry.
      apply withoutIdentities_mapElements. intros i x. apply attachTo_setNid. }
  split.
  { apply uniqueIds_node in Hu2 as [Hr2 Hnd2]. apply uniqueIds_node.
    rewrite Hids3. auto. }
  split; [|reflexivity].
  intros x Hx Ht. rewrite Hids3.
  assert (Hx1 : G1 x = x).
  { destruct (Hm1 x) as [H|(Hun & _)]; [unfold c0; rewrite elements_node; right; exact Hx
                                       | exact H | congruence]. }
  replace (nid x) with (nid (G1 x)) by (rewrite Hx1; reflexivity).
  apply Hgone. unfold L1, querySelectorAll, descendantElements. cbn [childrenOf].
  apply filter_In. split.
  - change (flat_map elements cs1) with (forestElements cs1). unfold cs1.
    rewrite forestElements_mapElements. apply in_map. exact Hx.
  - rewrite Hx1. exact Ht.
Qed.

(** The property on the two paragraphs. *)
Lemma refreshListeners_witness :
  exists cs1 cs' : list Node,
    contentRef (snd (processExistingDOMContent refBrowser (fun _ => "abcde") twoParagraphs))
    = Some (ElementNode (createElement 0 "DIV") cs1)
    /\ contentRef (refreshListeners refBrowser (fun _ => "abcde") true twoParagraphs)
       = Some (ElementNode (createElement 0 "DIV") cs')
    /\ map withoutIdentities cs'
       = map withoutIdentities (map (mapElements (attachTo true)) cs1)
    /\ uniqueIds (ElementNode (createElement 0 "DIV") cs')
    /\ (forall x, In x (forestElements (fst (relabelList (refParse TWO_PARAGRAPHS) 1))) ->
                  tagged x = true -> ~ In (nid x) (forestIds cs'))
    /\ selection (refreshListeners refBrowser (fun _ => "abcde") true twoParagraphs)
       = selection twoParagraphs.
Proof.
  apply (refreshListeners_replaces_elements refBrowser (fun _ => "abcde") true
           twoParagraphs (createElement 0 "DIV")
           (fst (relabelList (refParse TWO_PARAGRAPHS) 1))).
  - vm_compute. reflexivity.
  - unfold uniqueIds. vm_compute. repeat constructor; simpl; intuition discriminate.
  - unfold allocatedBelow. vm_compute. repeat constructor.
Defined.

(** Paragraph [a] is selected and the listeners are refreshed: the
    selection still refers to node 1, which is no node of the container
    any more; the element with the identifier [a] is another node, and it
    still carries the outline. *)
Example refresh_leaves_stale_reference :
  let w := refreshListeners refBrowser (fun _ => "abcde") true
             (selectElement (Some "a") twoParagraphs) in
  selectedElement (selection w) = Some 1
  /\ option_map (findNode 1) (contentRef w) = Some None
  /\ option_map (fun x => (nid x, getPropertyValue "outline" x)) (getSelectedElement w)
     = Some (7, SELECTION_OUTLINE).
Proof. repeat split; vm_compute; reflexivity. Qed.

(* ------------------------------------------------------------------ *)
(** ** A drop after the indicator was drawn *)

Lemma dropIndicator_is_indicator (n : NodeId) :
  elements (dropIndicator n)
  = [setCssText
       [("height", "2px"); ("background", "#f97316"); ("margin", "4px 0");
        ("border-radius", "1px"); ("position", "relative");
        ("pointer-events", "none"); ("animation", "pulse 1s infinite")]
       (setAttribute "class" "drop-indicator" (createElement n "DIV"))]
  /\ isNode n (dropIndicator n) = true.
Proof. split; [reflexivity|]. simpl. apply Nat.eqb_refl. Qed.

(** The one indicator of a container, at an identity no other node has, is
    taken out by the removal loop, and nothing else is. *)
Lemma remove_inserted_indicator (n : NodeId) (ec : Element) (pre post : list Node) :
  filter isDropIndicator (forestElements (pre ++ post)) = [] ->
  ~ In n (forestIds (pre ++ post)) ->
  removeDropIndicators (ElementNode ec (pre ++ dropIndicator n :: post))
  = ElementNode ec (pre ++ post).
Proof.
  intros Hnone Hfresh.
  rewrite forestElements_app, filter_app in Hnone.
  apply app_eq_nil in Hnone as [Hpre Hpost].
  rewrite forestIds_app in Hfresh.
  unfold removeDropIndicators, querySelectorAll, descendantElements. cbn [childrenOf].
  rewrite forestElements_app, forestElements_cons, !filter_app, Hpre, Hpost.
  destruct (dropIndicator_is_indicator n) as [-> Hn].
  cbn [filter app]. change (isDropIndicator _) with true. cbv iota.
  unfold forEach. cbn [app fold_left].
  change (nid (setCssText _ _)) with n.
  rewrite removeNode_node, removeNodeList_app. cbn [removeNodeList]. rewrite Hn.
  rewrite !removeNodeList_absent_id; [reflexivity| |];
    intros H; apply Hfresh, in_or_app; auto.
Qed.

Lemma nextElementIn_fresh (n : NodeId) (pre post : list Node) (x : Node) :
  ~ In n (forestIds pre) -> isNode n x = true ->
  nextElementIn n (pre ++ x :: post) = Some (firstElementOf post).
Proof.
  intros Hfresh Hx. induction pre as [|c pre IH]; cbn [app nextElementIn].
  - rewrite Hx. reflexivity.
  - rewrite forestIds_cons in Hfresh. destruct (isNode n c) eqn:E.
    + exfalso. apply Hfresh, in_or_app. left. apply isNode_root_id. exact E.
    + apply IH. intros H. apply Hfresh, in_or_app. right. exact H.
Qed.

(** X21.  A drop after a drag-over.  While an element is dragged, with the
    next node identity not used in the container, [handleDragOver] leaves
    nothing a later drop can see: [handleDrop], for any drop event, behaves
    after it as on the world before it (the counter of node identities
    apart), whether the handler returned or its insertion threw.  And when
    it returned, the indicator stands directly before the element that
    [findInsertPosition] gives for the same event once the indicators are
    removed, which is the one [handleDrop] passes to [reorderElement]; it is
    the last child when there is none. *)
Theorem drop_after_dragOver (B : Browser) (elementLibrary : list ElementLibraryItem)
  (e e' : DragEvent) (w : World) (ec : Element) (cs : list Node) (id : string) :
  contentRef w = Some (ElementNode ec cs) ->
  draggedElementId (dragState w) = Some id ->
  truthy id = true ->
  ~ In (nextNode w) (forestIds cs) ->
  handleDrop B elementLibrary e' (worldOf (handleDragOver e w))
  = handleDrop B elementLibrary e' (withNextNode (S (nextNode w)) w)
  /\ match handleDragOver e w with
     | Returned _ w' =>
         exists c',
           contentRef w' = Some c'
           /\ option_map nid (nextElementSibling (nextNode w) c')
              = option_map nid
                  (findInsertPosition e
                     (withContent (removeDropIndicators (ElementNode ec cs)) w))
     | Thrown _ _ => True
     end.
Proof.
  intros Hc Hd Ht Hfresh. unfold handleDragOver. rewrite Hd, Ht, Hc.
  destruct (removeDropIndicators_node ec cs) as (cs1 & E & Hsub & Hnone).
  rewrite dropIndicators_node in Hnone.
  assert (Hfresh1 : ~ In (nextNode w) (forestIds cs1)).
  { intros H. apply Hfresh. unfold forestIds in *.
    eapply subseq_In; [apply subseq_map; exact Hsub | exact H]. }
  assert (Hidem : removeDropIndicators (ElementNode ec cs1) = ElementNode ec cs1).
  { unfold removeDropIndicators.
    change (querySelectorAll isDropIndicator (ElementNode ec cs1))
      with (dropIndicators (ElementNode ec cs1)).
    rewrite dropIndicators_node, Hnone. reflexivity. }
  assert (Hdrop : forall c',
             removeDropIndicators c' = ElementNode ec cs1 ->
             handleDrop B elementLibrary e'
               (withContent c' (withNextNode (S (nextNode w))
                                  (withContent (ElementNode ec cs1) w)))
             = handleDrop B elementLibrary e' (withNextNode (S (nextNode w)) w)).
  { intros c' Hc'. unfold handleDrop.
    cbn [contentRef withContent withNextNode]. rewrite Hc, Hc', E.
    destruct w; reflexivity. }
  rewrite E. cbn [nextNode withContent].
  destruct (findInsertPosition e _) as [r|].
  - unfold insertBefore.
    destruct (insertBeforeChild (dropIndicator (nextNode w)) (nid r) cs1) as [cs2|] eqn:Ei.
    + apply insertBeforeChild_split in Ei as (pre & tgt & post & -> & Htgt & ->).
      cbn [worldOf]. split.
      * apply Hdrop. apply remove_inserted_indicator; assumption.
      * eexists. split; [reflexivity|].
        cbn [nextElementSibling].
        rewrite (nextElementIn_fresh (nextNode w) pre (tgt :: post)).
        -- destruct tgt as [s|et cts]; [discriminate|].
           simpl in Htgt. apply Nat.eqb_eq in Htgt. simpl. f_equal. exact Htgt.
        -- intros H. apply Hfresh1. rewrite forestIds_app. apply in_or_app. left. exact H.
        -- apply dropIndicator_is_indicator.
    + cbn [worldOf]. split; [|exact I].
      unfold handleDrop. cbn [contentRef withContent withNextNode].
      rewrite Hc, Hidem, E. destruct w; reflexivity.
  - cbn [worldOf appendChild]. split.
    + apply Hdrop.
      rewrite <- (app_nil_r cs1) at 2.
      apply remove_inserted_indicator; rewrite app_nil_r; assumption.
    + eexists. split; [reflexivity|].
      cbn [nextElementSibling].
      rewrite (nextElementIn_fresh (nextNode w) cs1 []); [reflexivity|exact Hfresh1|].
      apply dropIndicator_is_indicator.
Qed.

(** The property on the two paragraphs while [a] is dragged below [b]. *)
Lemma drop_after_dragOver_witness :
  handleDrop refBrowser LIBRARY (mkDragEvent 160 "existing:a" rows)
    (worldOf (handleDragOver (mkDragEvent 160 "existing:a" rows)
                (handleExistingElementDragStart true "a" twoParagraphs)))
  = handleDrop refBrowser LIBRARY (mkDragEvent 160 "existing:a" rows)
      (withNextNode
         (S (nextNode (handleExistingElementDragStart true "a" twoParagraphs)))
         (handleExistingElementDragStart true "a" twoParagraphs))
  /\ match handleDragOver (mkDragEvent 160 "existing:a" rows)
             (handleExistingElementDragStart true "a" twoParagraphs) with
     | Returned _ w' =>
         exists c',
           contentRef w' = Some c'
           /\ option_map nid
                (nextElementSibling
                   (nextNode (handleExistingElementDragStart true "a" twoParagraphs)) c')
              = option_map nid
                  (findInsertPosition (mkDragEvent 160 "existing:a" rows)
                     (withContent
                        (removeDropIndicators
                           (ElementNode (createElement 0 "DIV")
                              (childrenOf
                                 (match contentRef
                                          (handleExistingElementDragStart true "a"
                                             twoParagraphs)
                                  with Some c => c | None => TextNode EmptyString end))))
                        (handleExistingElementDragStart true "a" twoParagraphs)))
     | Thrown _ _ => True
     end.
Proof.
  apply (drop_after_dragOver refBrowser LIBRARY
           (mkDragEvent 160 "existing:a" rows) (mkDragEvent 160 "existing:a" rows)
           (handleExistingElementDragStart true "a" twoParagraphs)
           (createElement 0 "DIV")
           (childrenOf
              (match contentRef (handleExistingElementDragStart true "a" twoParagraphs)
               with Some c => c | None => TextNode EmptyString end))
           "a").
  - vm_compute. reflexivity.
  - vm_compute. reflexivity.
  - vm_compute. reflexivity.
  - vm_compute. intuition discriminate.
Defined.

(** The indicator of the event at 160 is the last child, and the drop that
    follows moves [a] behind [b]; no indicator is left. *)
Example drop_lands_at_indicator :
  option_map (fun c => map (fun x => (getAttribute ELEMENT_ID x, getAttribute "class" x))
                         (descendantElements c))
    (contentRef
       (worldOf (handleDragOver (mkDragEvent 160 "existing:a" rows)
                   (handleExistingElementDragStart true "a" twoParagraphs))))
  = Some [(Some "a", None); (Some "b", None); (None, Some "drop-indicator")]
  /\ option_map (fun c => map (getAttribute ELEMENT_ID) (descendantElements c))
       (contentRef
          (worldOf
             (handleDrop refBrowser LIBRARY (mkDragEvent 160 "existing:a" rows)
                (worldOf (handleDragOver (mkDragEvent 160 "existing:a" rows)
                            (handleExistingElementDragStart true "a" twoParagraphs))))))
     = Some [Some "b"; Some "a"].
Proof. split; vm_compute; reflexivity. Qed.

(* ------------------------------------------------------------------ *)
(** ** Hovering *)

Lemma assocRemove_assocSet (k v : string) (l : list (string * string)) :
  assocRemove k (assocSet k v l) = assocRemove k l.
Proof.
  unfold assocRemove. induction l as [|[a b] l IH]; simpl.
  - rewrite String.eqb_refl. reflexivity.
  - destruct (a =? k)%string eqn:E; simpl.
    + rewrite String.eqb_refl. reflexivity.
    + rewrite E, IH. reflexivity.
Qed.

Lemma assocRemove_assocSet_other (k q v : string) (l : list (string * string)) :
  (k =? q)%string = false ->
  assocRemove q (assocSet k v l) = assocSet k v (assocRemove q l).
Proof.
  intros Hk. unfold assocRemove. induction l as [|[a b] l IH]; simpl.
  - rewrite Hk. reflexivity.
  - destruct (a =? k)%string eqn:E; simpl.
    + rewrite Hk. apply String.eqb_eq in E. subst a. rewrite Hk. simpl.
      rewrite String.eqb_refl. reflexivity.
    + destruct (a =? q)%string; simpl; rewrite IH; [reflexivity|].
      rewrite E. reflexivity.
Qed.

(** Setting [outline] or [outline-offset] is undone by the clean-up. *)
Lemma strip_outline (v : string) (x : Element) :
  stripSelectionProperties (setProperty "outline" v x) = stripSelectionProperties x.
Proof.
  unfold stripSelectionProperties, removeProperty, setProperty.
  cbn [nid tagName attributes style]. rewrite assocRemove_assocSet. reflexivity.
Qed.

Lemma strip_outline_offset (v : string) (x : Element) :
  stripSelectionProperties (setProperty "outline-offset" v x) = stripSelectionProperties x.
Proof.
  unfold stripSelectionProperties, removeProperty, setProperty.
  cbn [nid tagName attributes style].
  rewrite (assocRemove_assocSet_other "outline-offset" "outline") by reflexivity.
  rewrite assocRemove_assocSet. reflexivity.
Qed.

Lemma selection_outline_is_solid (x : Element) :
  (getPropertyValue "outline" x =? SELECTION_OUTLINE)%string = true ->
  includes (getPropertyValue "outline" x) "solid" = true
  /\ includes (getPropertyValue "outline" x) "dashed" = false.
Proof.
  intros H. apply String.eqb_eq in H. rewrite H. split; reflexivity.
Qed.

Lemma hover_step (ev : HoverEvent) (x : Element) :
  sameIdentity (hover ev x) x
  /\ stripSelectionProperties (hover ev x) = stripSelectionProperties x
  /\ fullySelected (hover ev x) = fullySelected x
  /\ ((getPropertyValue "outline" x =? SELECTION_OUTLINE)%string = true -> hover ev x = x).
Proof.
  assert (Hnot : forall y, (getPropertyValue "outline" y =? SELECTION_OUTLINE)%string = false ->
                           fullySelected y = false).
  { intros y Hy. unfold fullySelected. rewrite Hy. reflexivity. }
  destruct ev; cbn [hover]; [unfold handleMouseEnter | unfold handleMouseLeave].
  - destruct (includes (getPropertyValue "outline" x) "solid") eqn:E; cbn [negb].
    + repeat split; reflexivity.
    + split; [repeat split; reflexivity|].
      split; [rewrite strip_outline_offset, strip_outline; reflexivity|].
      assert (Hx : (getPropertyValue "outline" x =? SELECTION_OUTLINE)%string = false).
      { destruct (getPropertyValue "outline" x =? SELECTION_OUTLINE)%string eqn:Hs;
          [|reflexivity].
        apply selection_outline_is_solid in Hs as [Hs _]. congruence. }
      split; [|congruence].
      rewrite (Hnot x Hx). apply Hnot. style_simpl. reflexivity.
  - destruct (includes (getPropertyValue "outline" x) "dashed") eqn:E.
    + split; [repeat split; reflexivity|].
      split; [apply strip_outline|].
      assert (Hx : (getPropertyValue "outline" x =? SELECTION_OUTLINE)%string = false).
      { destruct (getPropertyValue "outline" x =? SELECTION_OUTLINE)%string eqn:Hs;
          [|reflexivity].
        apply selection_outline_is_solid in Hs as [_ Hs]. congruence. }
      split; [|congruence].
      rewrite (Hnot x Hx). apply Hnot. style_simpl. reflexivity.
    + repeat split; reflexivity.
Qed.

(** X22.  Hovering and the selection.  Whatever pointer events (enter,
    leave) reach a tagged element in whatever order, the element keeps its
    identity, tag and attributes; what the clean-up before a save makes of
    it is what it makes of the element as it was, so that no hover outline
    is ever saved; the element is fully selected afterwards exactly when
    it was before; and the element as [applySelectionStyling] leaves it
    is not changed at all. *)
Theorem hover_is_not_saved (evs : list HoverEvent) (x : Element)
  (cs : list Node) (fresh : NodeId) :
  tagged x = true ->
  sameIdentity (hovered evs x) x
  /\ cleanedElement (hovered evs x) = cleanedElement x
  /\ fullySelected (hovered evs x) = fullySelected x
  /\ exists (y : Element) (cs' : list Node),
       applySelectionStyling fresh (ElementNode x cs) = ElementNode y cs'
       /\ hovered evs y = y.
Proof.
  intros Ht.
  assert (Hall : forall y,
             sameIdentity (hovered evs y) y
             /\ stripSelectionProperties (hovered evs y) = stripSelectionProperties y
             /\ fullySelected (hovered evs y) = fullySelected y
             /\ ((getPropertyValue "outline" y =? SELECTION_OUTLINE)%string = true ->
                 hovered evs y = y)).
  { unfold hovered. induction evs as [|ev evs IH]; intros y; cbn [fold_left].
    - repeat split; reflexivity.
    - destruct (hover_step ev y) as (Hi & Hs & Hf & Hsel).
      destruct (IH (hover ev y)) as (Hi' & Hs' & Hf' & Hsel').
      split; [eapply sameIdentity_trans; eassumption|].
      split; [congruence|]. split; [congruence|].
      intros Hy. rewrite (Hsel Hy) in *. apply Hsel'. exact Hy. }
  destruct (Hall x) as (Hi & Hs & Hf & _).
  split; [exact Hi|]. split.
  - unfold cleanedElement. rewrite (sameIdentity_tagged _ _ Hi), Ht. exact Hs.
  - split; [exact Hf|].
    destruct (applySelectionStyling_gentle fresh x cs)
      as (y & cs' & _ & _ & E & _ & Hy & _).
    exists y, cs'. split; [exact E|]. apply Hall.
    unfold fullySelected in Hy. apply andb_prop in Hy as [Hy _].
    apply andb_prop in Hy as [Hy _]. exact Hy.
Qed.

(** The property on a paragraph the pointer enters and leaves. *)
Lemma hover_is_not_saved_witness :
  sameIdentity
    (hovered [MouseEnter; MouseLeave]
       (setAttribute ELEMENT_ID "a" (createElement 1 "P")))
    (setAttribute ELEMENT_ID "a" (createElement 1 "P"))
  /\ cleanedElement (hovered [MouseEnter; MouseLeave]
                       (setAttribute ELEMENT_ID "a" (createElement 1 "P")))
     = cleanedElement (setAttribute ELEMENT_ID "a" (createElement 1 "P"))
  /\ fullySelected (hovered [MouseEnter; MouseLeave]
                      (setAttribute ELEMENT_ID "a" (createElement 1 "P")))
     = fullySelected (setAttribute ELEMENT_ID "a" (createElement 1 "P"))
  /\ exists (y : Element) (cs' : list Node),
       applySelectionStyling 3
         (ElementNode (setAttribute ELEMENT_ID "a" (createElement 1 "P")) [TextNode "A"])
       = ElementNode y cs'
       /\ hovered [MouseEnter; MouseLeave] y = y.
Proof.
  apply (hover_is_not_saved [MouseEnter; MouseLeave]
           (setAttribute ELEMENT_ID "a" (createElement 1 "P")) [TextNode "A"] 3).
  vm_compute. reflexivity.
Defined.

(** The element itself does not come back to what it was: the outline
    stays set to [none] and the offset to [1px]. *)
Example hover_leaves_outline_none :
  style (hovered [MouseEnter; MouseLeave]
           (setAttribute ELEMENT_ID "a" (createElement 1 "P")))
  = [("outline", "none"); ("outline-offset", "1px")].
Proof. vm_compute. reflexivity. Qed.

(* ------------------------------------------------------------------ *)
(** ** Resizing an image *)

Lemma assocSet_absorb (k v v' : string) (l : list (string * string)) :
  assocSet k v (assocSet k v' l) = assocSet k v l.
Proof.
  induction l as [|[a b] l IH]; simpl.
  - rewrite String.eqb_refl. reflexivity.
  - destruct (a =? k)%string eqn:E; simpl.
    + rewrite String.eqb_refl. reflexivity.
    + rewrite E, IH. reflexivity.
Qed.

(** Setting a property that is there already does not move it: it commutes
    with setting another one. *)
Lemma assocSet_comm_present (k k' v v' : string) (l : list (string * string)) :
  (k =? k')%string = false -> assocGet k l <> None ->
  assocSet k v (assocSet k' v' l) = assocSet k' v' (assocSet k v l).
Proof.
  intros Hk. induction l as [|[a b] l IH]; simpl; [congruence|].
  destruct (a =? k)%string eqn:E.
  - intros _. apply String.eqb_eq in E. subst a. rewrite Hk. simpl.
    rewrite String.eqb_refl, Hk. reflexivity.
  - intros Hl. destruct (a =? k')%string eqn:E'; simpl.
    + apply String.eqb_eq in E'. subst a. rewrite E, String.eqb_refl. reflexivity.
    + rewrite E, E', (IH Hl). reflexivity.
Qed.

Lemma assocGet_present (k v : string) (l : list (string * string)) :
  assocGet k (assocSet k v l) <> None.
Proof. rewrite assocGet_assocSet. discriminate. Qed.

Lemma sized_absorb (w1 h1 w2 h2 : Z) (y : Element) :
  sized w2 h2 (sized w1 h1 y) = sized w2 h2 y.
Proof.
  unfold sized, setProperty. cbn [nid tagName attributes style]. f_equal.
  set (s := style y).
  rewrite (assocSet_comm_present "width" "object-fit");
    [|reflexivity| rewrite assocGet_assocSet_other by reflexivity; apply assocGet_present].
  rewrite (assocSet_comm_present "width" "height");
    [|reflexivity| apply assocGet_present].
  rewrite assocSet_absorb.
  rewrite (assocSet_comm_present "height" "object-fit");
    [|reflexivity| apply assocGet_present].
  rewrite assocSet_absorb, assocSet_absorb. reflexivity.
Qed.

(** The width of the figure is the width the image has got. *)
Lemma figureSized_sized (w h : Z) (y : Element) :
  figureSized w (sized w h y) = sized w h y.
Proof.
  unfold figureSized. destruct (tagName (sized w h y) =? "FIGURE")%string; [|reflexivity].
  unfold sized, setProperty. cbn [nid tagName attributes style]. f_equal.
  apply assocSet_own.
  rewrite !assocGet_assocSet_other by reflexivity. apply assocGet_assocSet.
Qed.

Lemma figureSized_absorb (w1 w2 : Z) (y : Element) :
  figureSized w2 (figureSized w1 y) = figureSized w2 y.
Proof.
  unfold figureSized.
  destruct (tagName y =? "FIGURE")%string eqn:E; cbn [setProperty tagName]; rewrite E;
    [|reflexivity].
  unfold setProperty. cbn [nid tagName attributes style].
  rewrite assocSet_absorb. reflexivity.
Qed.

Lemma afterMove_nid (d : ImageDrag) (m : MouseEvent) (y : Element) :
  nid (afterMove d m y) = nid y.
Proof.
  unfold afterMove, figureSized.
  destruct (Nat.eqb (nid y) (drag_imgElement d)); [reflexivity|].
  destruct (Nat.eqb (nid y) (drag_element d)); [|reflexivity].
  destruct (tagName y =? "FIGURE")%string; reflexivity.
Qed.

Lemma afterMove_absorb (d : ImageDrag) (m1 m2 : MouseEvent) (y : Element) :
  afterMove d m2 (afterMove d m1 y) = afterMove d m2 y.
Proof.
  unfold afterMove at 1. rewrite afterMove_nid. unfold afterMove.
  destruct (Nat.eqb (nid y) (drag_imgElement d)); [apply sized_absorb|].
  destruct (Nat.eqb (nid y) (drag_element d)); [apply figureSized_absorb | reflexivity].
Qed.

(** One move, in a container whose nodes have one identity each. *)
Lemma handleMouseMove_content (d : ImageDrag) (m : MouseEvent) (w : World) (c : Node) :
  contentRef w = Some c -> uniqueIds c ->
  handleMouseMove d m w = withContent (mapElements (afterMove d m) c) w.
Proof.
  intros Hc Hu. unfold handleMouseMove. rewrite Hc.
  rewrite (surjective_pairing (newSize d m)). f_equal.
  rewrite (updateAt_mapElements _ _ c Hu).
  rewrite updateAt_under_changes;
    [|intros x; destruct (Nat.eqb (nid x) (drag_imgElement d)); reflexivity | exact Hu].
  apply mapElements_ext. intros x _. unfold afterMove.
  destruct (Nat.eqb (nid x) (drag_imgElement d)).
  - destruct (Nat.eqb (nid x) (drag_element d)); [apply figureSized_sized | reflexivity].
  - reflexivity.
Qed.

(** The moves of a drag do not add up: the last one decides. *)
Lemma dragged_last (d : ImageDrag) (ms : list MouseEvent) (m : MouseEvent) :
  forall (w : World) (c : Node),
    contentRef w = Some c -> uniqueIds c ->
    dragged d (ms ++ [m]) w = handleMouseMove d m w.
Proof.
  unfold dragged. induction ms as [|m1 ms IH]; intros w c Hc Hu; [reflexivity|].
  cbn [app fold_left].
  rewrite (handleMouseMove_content d m1 w c Hc Hu).
  assert (Hu1 : uniqueIds (mapElements (afterMove d m1) c)).
  { unfold uniqueIds. rewrite mapElements_ids; [exact Hu | apply afterMove_nid]. }
  set (c1 := mapElements (afterMove d m1) c) in *.
  rewrite (IH (withContent c1 w) c1 eq_refl Hu1).
  rewrite (handleMouseMove_content d m (withContent c1 w) c1 eq_refl Hu1).
  unfold c1.
  rewrite (handleMouseMove_content d m w c Hc Hu).
  rewrite mapElements_compose.
  rewrite (mapElements_ext _ (afterMove d m) c)
    by (intros x _; apply afterMove_absorb).
  destruct w; reflexivity.
Qed.

Lemma findNode_incl (i : NodeId) (n node : Node) :
  findNode i n = Some node -> incl (elements node) (elements n).
Proof.
  induction n as [s|e cs IH] using Node_forall_ind; [discriminate|].
  rewrite findNode_node, elements_node.
  destruct (Nat.eqb (nid e) i).
  - intros [= <-]. rewrite elements_node. apply incl_refl.
  - intros H. apply incl_tl.
    induction IH as [|c cs Hc Hcs IHcs]; [discriminate|].
    cbn [findNodeList] in H. rewrite forestElements_cons.
    destruct (findNode i c) as [r|] eqn:Ec.
    + injection H as ->. apply incl_appl. apply Hc. reflexivity.
    + apply incl_appr. apply IHcs. exact H.
Qed.

Lemma newSize_minimum (d : ImageDrag) (m : MouseEvent) :
  (50 <= fst (newSize d m))%Z /\ (50 <= snd (newSize d m))%Z.
Proof.
  unfold newSize. cbv zeta.
  repeat (match goal with |- context [if ?c then _ else _] => destruct c end);
    cbn [fst snd]; lia.
Qed.

(** X23.  Resizing an image by a handle.  The drag starts on an element of
    a container whose nodes have one identity each.  However the pointer
    moves, the moves do not add up: the container after them is what the
    last move alone makes of the container the drag started on.  The image
    then has the width and the height [newSize] gives for that move, each
    at least 50.  And nothing tells the builder: the event [imageResized]
    that [handleMouseUp] dispatches at the element does not bubble, so the
    listener at the container does not run, [handleMouseUp] leaves the
    state as it is, and from the first move to the end of the drag no
    content update is made. *)
Theorem image_resize_follows_pointer (B : Browser) (offsetSize : NodeId -> Z * Z)
  (e : MouseEvent) (handle : string) (w : World) (ec x : Element) (cs : list Node)
  (d : ImageDrag) (ms : list MouseEvent) (m : MouseEvent) :
  contentRef w = Some (ElementNode ec cs) ->
  uniqueIds (ElementNode ec cs) ->
  In x (forestElements cs) ->
  handleImageResize offsetSize e (nid x) handle w = Some d ->
  dragged d (ms ++ [m]) w = handleMouseMove d m w
  /\ (exists (c' : Node) (img : Element) (below : list Node),
        contentRef (dragged d (ms ++ [m]) w) = Some c'
        /\ findNode (drag_imgElement d) c' = Some (ElementNode img below)
        /\ isImg img = true
        /\ getPropertyValue "width" img = px (fst (newSize d m))
        /\ getPropertyValue "height" img = px (snd (newSize d m))
        /\ (50 <= fst (newSize d m))%Z /\ (50 <= snd (newSize d m))%Z)
  /\ handleMouseUp B d (dragged d (ms ++ [m]) w) = dragged d (ms ++ [m]) w
  /\ effects (dragged d (ms ++ [m]) w) = effects w.
Proof.
  intros Hc Hu Hx Hd. set (c := ElementNode ec cs) in *.
  rewrite (dragged_last d ms m w c Hc Hu).
  rewrite (handleMouseMove_content d m w c Hc Hu).
  split; [reflexivity|].
  destruct (findNode_element ec x cs Hu Hx) as [belowx Ex]. fold c in Ex.
  pose proof (uniqueIds_node ec cs) as Hn. apply Hn in Hu as Hu'.
  destruct Hu' as [Hroot Hnd].
  assert (Hxr : Nat.eqb (nid ec) (nid x) = false).
  { apply Nat.eqb_neq. intros E. apply Hroot. rewrite E. apply in_map. exact Hx. }
  assert (Hxl : findNodeList (nid x) cs = Some (ElementNode x belowx)).
  { unfold c in Ex. rewrite findNode_node, Hxr in Ex. exact Ex. }
  (* the image of the drag *)
  assert (Himg : exists img, drag_imgElement d = nid img /\ drag_element d = nid x
                             /\ isImg img = true /\ In img (forestElements cs)).
  { unfold handleImageResize in Hd. rewrite Hc, Ex in Hd.
    assert (Hin : incl (elements (ElementNode x belowx)) (forestElements cs)).
    { clear -Hxl. induction cs as [|n l IH]; [discriminate|].
      cbn [findNodeList] in Hxl. rewrite forestElements_cons.
      destruct (findNode (nid x) n) as [r|] eqn:En.
      - injection Hxl as ->. apply incl_appl. eapply findNode_incl. exact En.
      - apply incl_appr. apply IH. exact Hxl. }
    destruct (isImg x) eqn:Ei.
    - injection Hd as <-. exists x. cbn [drag_imgElement drag_element]. auto.
    - destruct (querySelector isImg (ElementNode x belowx)) as [img|] eqn:Eq; [|discriminate].
      injection Hd as <-. exists img. cbn [drag_imgElement drag_element].
      split; [reflexivity|]. split; [reflexivity|].
      apply hd_error_In in Eq. unfold querySelectorAll, descendantElements in Eq.
      cbn [childrenOf] in Eq. apply filter_In in Eq as [Hi Hs].
      split; [exact Hs|]. apply Hin. rewrite elements_node. right. exact Hi. }
  destruct Himg as (img & Edi & Ede & Hisimg & Himgin).
  assert (Hir : Nat.eqb (nid ec) (nid img) = false).
  { apply Nat.eqb_neq. intros E. apply Hroot. rewrite E. apply in_map. exact Himgin. }
  assert (Hrootsame : afterMove d m ec = ec).
  { unfold afterMove. rewrite Edi, Ede, Hir, Hxr. reflexivity. }
  cbn [contentRef withContent effects].
  split.
  - destruct (findNode_element ec img cs Hu Himgin) as [belowi Ei]. fold c in Ei.
    eexists _, (afterMove d m img), _. split; [reflexivity|].
    split.
    { rewrite findNode_mapElements by apply afterMove_nid.
      rewrite Edi, Ei. reflexivity. }
    unfold afterMove. rewrite Edi, Nat.eqb_refl. unfold sized.
    split; [exact Hisimg|].
    split; [style_simpl; reflexivity|].
    split; [style_simpl; reflexivity|].
    apply newSize_minimum.
  - split; [|reflexivity].
    unfold handleMouseUp, c. cbn [contentRef withContent mapElements].
    rewrite Hrootsame. unfold reaches, canvasListener.
    cbn [listener_node listener_type listener_capture].
    rewrite Ede, Hxr. cbn [orb].
    destruct (ancestorsOf _ _); rewrite ?andb_false_r; reflexivity.
Qed.

(** The property on the figure [f]: the handle [se] is dragged to the
    right and down, then back to the left and far up. *)
Lemma image_resize_witness :
  dragged (mkImageDrag 1 2 (10, 10)%Z (200, 100)%Z "se")
    ([mkMouseEvent 20 20] ++ [mkMouseEvent 0 (-100)]) figureAndParagraph
  = handleMouseMove (mkImageDrag 1 2 (10, 10)%Z (200, 100)%Z "se")
      (mkMouseEvent 0 (-100)) figureAndParagraph
  /\ (exists (c' : Node) (img : Element) (below : list Node),
        contentRef (dragged (mkImageDrag 1 2 (10, 10)%Z (200, 100)%Z "se")
                      ([mkMouseEvent 20 20] ++ [mkMouseEvent 0 (-100)])
                      figureAndParagraph) = Some c'
        /\ findNode (drag_imgElement (mkImageDrag 1 2 (10, 10)%Z (200, 100)%Z "se")) c'
           = Some (ElementNode img below)
        /\ isImg img = true
        /\ getPropertyValue "width" img
           = px (fst (newSize (mkImageDrag 1 2 (10, 10)%Z (200, 100)%Z "se")
                        (mkMouseEvent 0 (-100))))
        /\ getPropertyValue "height" img
           = px (snd (newSize (mkImageDrag 1 2 (10, 10)%Z (200, 100)%Z "se")
                        (mkMouseEvent 0 (-100))))
        /\ (50 <= fst (newSize (mkImageDrag 1%nat 2%nat (10, 10) (200, 100) "se")
                         (mkMouseEvent 0 (-100))))%Z
        /\ (50 <= snd (newSize (mkImageDrag 1%nat 2%nat (10, 10) (200, 100) "se")
                         (mkMouseEvent 0 (-100))))%Z)
  /\ handleMouseUp refBrowser (mkImageDrag 1 2 (10, 10)%Z (200, 100)%Z "se")
       (dragged (mkImageDrag 1 2 (10, 10)%Z (200, 100)%Z "se")
          ([mkMouseEvent 20 20] ++ [mkMouseEvent 0 (-100)]) figureAndParagraph)
     = dragged (mkImageDrag 1 2 (10, 10)%Z (200, 100)%Z "se")
         ([mkMouseEvent 20 20] ++ [mkMouseEvent 0 (-100)]) figureAndParagraph
  /\ effects (dragged (mkImageDrag 1 2 (10, 10)%Z (200, 100)%Z "se")
                ([mkMouseEvent 20 20] ++ [mkMouseEvent 0 (-100)]) figureAndParagraph)
     = effects figureAndParagraph.
Proof.
  apply (image_resize_follows_pointer refBrowser (fun _ => (200, 100)%Z)
           (mkMouseEvent 10 10) "se" figureAndParagraph
           (createElement 0 "DIV")
           (setAttribute ELEMENT_ID "f" (createElement 1 "FIGURE"))
           (childrenOf (match contentRef figureAndParagraph with
                        | Some c => c | None => TextNode EmptyString end))).
  - vm_compute. reflexivity.
  - unfold uniqueIds. vm_compute. repeat constructor; simpl; intuition discriminate.
  - vm_compute. left. reflexivity.
  - vm_compute. reflexivity.
Defined.

(** The figure after that drag: the image is 190 wide and 50 high, the
    figure 190 wide.  An event that bubbles would have reached the
    listener at the container. *)
Example resized_figure :
  option_map (fun c => map (fun y => (tagName y, style y)) (descendantElements c))
    (contentRef
       (dragged (mkImageDrag 1 2 (10, 10)%Z (200, 100)%Z "se")
          [mkMouseEvent 20 20; mkMouseEvent 0 (-100)] figureAndParagraph))
  = Some [("FIGURE", [("width", "190px")]);
          ("IMG", [("width", "190px"); ("height", "50px"); ("object-fit", "cover")]);
          ("P", [("color", "#111827")])]
  /\ option_map (fun c => reaches c 1 "imageResized" true
                            (canvasListener (createElement 0 "DIV")))
       (contentRef figureAndParagraph) = Some true
  /\ option_map (fun c => reaches c 1 "imageResized" false
                            (canvasListener (createElement 0 "DIV")))
       (contentRef figureAndParagraph) = Some false.
Proof. repeat split; vm_compute; reflexivity. Qed.

(* ------------------------------------------------------------------ *)
(** ** Selecting by a click *)

Lemma clickListeners_all (l : list Element) :
  flat_map clickListener (filter tagged l) = flat_map clickListener l.
Proof.
  induction l as [|a l IH]; [reflexivity|]. cbn [filter flat_map].
  destruct (tagged a) eqn:E; cbn [flat_map]; rewrite IH; [reflexivity|].
  unfold tagged, hasAttribute in E. unfold clickListener.
  destruct (getAttribute ELEMENT_ID a); [discriminate | reflexivity].
Qed.

Lemma clickListener_at (x : Element) (i : NodeId) :
  filter (fun l => Nat.eqb (fst l) i) (clickListener x)
  = if Nat.eqb (nid x) i then clickListener x else [].
Proof.
  unfold clickListener. destruct (getAttribute ELEMENT_ID x) as [id|].
  - destruct (truthy id); cbn [filter fst]; destruct (Nat.eqb (nid x) i); reflexivity.
  - destruct (Nat.eqb (nid x) i); reflexivity.
Qed.

Lemma no_listener_elsewhere (l : list Element) (i : NodeId) :
  ~ In i (map nid l) ->
  filter (fun p => Nat.eqb (fst p) i) (flat_map clickListener l) = [].
Proof.
  induction l as [|a l IH]; intros Hi; [reflexivity|].
  cbn [flat_map]. rewrite filter_app, clickListener_at.
  cbn [map] in Hi.
  destruct (Nat.eqb (nid a) i) eqn:E.
  - apply Nat.eqb_eq in E. exfalso. apply Hi. left. exact E.
  - apply IH. intros H. apply Hi. right. exact H.
Qed.

(** In a container whose nodes have one identity each, an element has the
    one listener that was added to it. *)
Lemma one_listener_each (l : list Element) (x : Element) :
  NoDup (map nid l) -> In x l ->
  filter (fun p => Nat.eqb (fst p) (nid x)) (flat_map clickListener l) = clickListener x.
Proof.
  induction l as [|a l IH]; intros Hnd Hx; [contradiction|].
  cbn [map] in Hnd. inversion Hnd as [|y ys Ha Hnd']; subst.
  cbn [flat_map]. rewrite filter_app, clickListener_at.
  destruct Hx as [->|Hx].
  - rewrite Nat.eqb_refl.
    etransitivity; [apply f_equal, (no_listener_elsewhere l (nid x) Ha) | apply app_nil_r].
  - destruct (Nat.eqb (nid a) (nid x)) eqn:E.
    + apply Nat.eqb_eq in E. exfalso. apply Ha. rewrite E. apply in_map. exact Hx.
    + apply IH; assumption.
Qed.

Lemma ancestorsOf_incl (i : NodeId) (n : Node) (p : list Element) :
  ancestorsOf i n = Some p -> incl p (elements n).
Proof.
  revert p. induction n as [s|e cs IH] using Node_forall_ind; intros p; [discriminate|].
  rewrite ancestorsOf_node, elements_node.
  destruct (Nat.eqb (nid e) i); [intros [= <-]; apply incl_nil_l|].
  destruct (ancestorsOfList i cs) as [p'|] eqn:E; [|discriminate].
  intros [= <-]. apply incl_cons; [left; reflexivity|]. apply incl_tl.
  revert p' E. induction IH as [|c cs Hc Hcs IHcs]; intros p' E; [discriminate|].
  cbn [ancestorsOfList] in E. rewrite forestElements_cons.
  destruct (ancestorsOf i c) as [q|] eqn:Ec.
  - injection E as ->. apply incl_appl. apply Hc. reflexivity.
  - apply incl_appr. apply IHcs. exact E.
Qed.

Lemma firstHandled_outermost (e : Element) (cs : list Node) (path : list Element) :
  NoDup (forestIds cs) -> incl path (forestElements cs) ->
  firstHandled (clickListeners (ElementNode e cs)) path
  = option_map (fun id => [id]) (outermostTagged path).
Proof.
  intros Hnd. unfold clickListeners, querySelectorAll, descendantElements.
  cbn [childrenOf]. change (flat_map elements cs) with (forestElements cs).
  rewrite clickListeners_all.
  induction path as [|x rest IH]; intros Hin; [reflexivity|].
  cbn [firstHandled outermostTagged]. unfold listenersAt.
  rewrite (one_listener_each (forestElements cs) x Hnd) by (apply Hin; left; reflexivity).
  assert (Hrest : incl rest (forestElements cs))
    by (intros y Hy; apply Hin; right; exact Hy).
  unfold clickListener. destruct (getAttribute ELEMENT_ID x) as [id|]; cbn [map].
  - destruct (truthy id); cbn [map option_map]; [reflexivity | exact (IH Hrest)].
  - exact (IH Hrest).
Qed.

(** X24.  Which element a click selects.  With the click listeners as
    [attachEventListeners] adds them, in a container whose nodes have one
    identity each, a click at any element of the container selects the
    outermost element with a non-empty identifier on the way from the
    container down to the target: the listeners run in the capture phase
    and stop the propagation, so that an element nested in such an element
    is never the one a click selects.  When there is no such element on the
    way, the click goes to [handleCanvasClick]. *)
Theorem click_selects_outermost (isPreviewMode : bool) (w : World) (e : Element)
  (cs : list Node) (target : NodeId) (path : list Element) :
  contentRef w = Some (ElementNode e cs) ->
  uniqueIds (ElementNode e cs) ->
  eventPath (ElementNode e cs) target = Some path ->
  click isPreviewMode (clickListeners (ElementNode e cs)) target w
  = match outermostTagged (tl path) with
    | Some id => selectElement (Some id) w
    | None => handleCanvasClick isPreviewMode path w
    end.
Proof.
  intros Hc Hu Hp. unfold click. rewrite Hc, Hp.
  apply uniqueIds_node in Hu as [Hroot Hnd].
  assert (Hnone : listenersAt (clickListeners (ElementNode e cs)) (nid e) = []).
  { unfold listenersAt, clickListeners, querySelectorAll, descendantElements.
    cbn [childrenOf]. change (flat_map elements cs) with (forestElements cs).
    rewrite clickListeners_all, (no_listener_elsewhere _ _ Hroot). reflexivity. }
  unfold eventPath in Hp. rewrite ancestorsOf_node, findNode_node in Hp.
  destruct (Nat.eqb (nid e) target) eqn:Et.
  - injection Hp as <-. cbn [app firstHandled tl outermostTagged]. rewrite Hnone.
    reflexivity.
  - destruct (ancestorsOfList target cs) as [p'|] eqn:Ea; [|discriminate].
    cbn [option_map] in Hp.
    destruct (findNodeList target cs) as [[s|x below]|] eqn:Ef; try discriminate.
    injection Hp as <-. cbn [app firstHandled tl]. rewrite Hnone.
    assert (Hin : incl (p' ++ [x]) (forestElements cs)).
    { apply incl_app.
      - pose proof (ancestorsOf_incl target (ElementNode e cs) (e :: p')) as H.
        rewrite ancestorsOf_node, Et, Ea in H. specialize (H eq_refl).
        intros y Hy. specialize (H y (or_intror Hy)). rewrite elements_node in H.
        destruct H as [<-|H]; [|exact H].
        (* the container is no ancestor below itself *)
        exfalso. clear -Ea Hy Hroot.
        assert (Hsub : incl p' (forestElements cs)).
        { revert p' Ea Hy. induction cs as [|c l IH]; intros p' Ea Hy; [discriminate|].
          cbn [ancestorsOfList] in Ea. rewrite forestElements_cons.
          destruct (ancestorsOf target c) as [q|] eqn:Ec.
          - injection Ea as ->. apply incl_appl. eapply ancestorsOf_incl. exact Ec.
          - apply incl_appr. apply IH; [|exact Ea|exact Hy].
            intros H. apply Hroot. rewrite forestIds_cons. apply in_or_app. right. exact H. }
        apply Hroot. apply in_map. apply Hsub. exact Hy.
      - intros y [<-|[]].
        pose proof (findNode_sound target (ElementNode e cs) x below) as H.
        rewrite findNode_node, Et in H. destruct (H Ef) as [H1 _].
        rewrite elements_node in H1. destruct H1 as [<-|H1]; [|exact H1].
        destruct (H Ef) as [_ H2]. rewrite H2, Nat.eqb_refl in Et. discriminate. }
    rewrite (firstHandled_outermost e cs (p' ++ [x]) Hnd Hin).
    destruct (outermostTagged (p' ++ [x])); reflexivity.
Qed.

(** The property on the nested list: a click at the item [y]. *)
Lemma click_selects_outermost_witness :
  click false
    (clickListeners
       (ElementNode (createElement 0 "DIV")
          (childrenOf (match contentRef nestedList with
                       | Some c => c | None => TextNode EmptyString end))))
    3 nestedList
  = match outermostTagged
            (tl (match eventPath
                         (ElementNode (createElement 0 "DIV")
                            (childrenOf (match contentRef nestedList with
                                         | Some c => c | None => TextNode EmptyString end)))
                         3
                 with Some p => p | None => [] end)) with
    | Some id => selectElement (Some id) nestedList
    | None =>
        handleCanvasClick false
          (match eventPath
                   (ElementNode (createElement 0 "DIV")
                      (childrenOf (match contentRef nestedList with
                                   | Some c => c | None => TextNode EmptyString end)))
                   3
           with Some p => p | None => [] end) nestedList
    end.
Proof.
  apply (click_selects_outermost false nestedList (createElement 0 "DIV")
           (childrenOf (match contentRef nestedList with
                        | Some c => c | None => TextNode EmptyString end))
           3).
  - vm_compute. reflexivity.
  - unfold uniqueIds. vm_compute. repeat constructor; simpl; intuition discriminate.
  - vm_compute. reflexivity.
Defined.

(** In the nested list, a click at the list [u] and a click at either of
    its items select the list; a click at the container clears the
    selection. *)
Example click_in_nested_list :
  map (fun target =>
         selectedElementId
           (selection
              (click false
                 (match contentRef nestedList with
                  | Some c => clickListeners c | None => [] end)
                 target
                 (selectElement (Some "x") nestedList))))
    [0; 1; 2; 3]
  = [None; Some "u"; Some "u"; Some "u"].
Proof. vm_compute. reflexivity. Qed.

(* ------------------------------------------------------------------ *)
(** ** Starting a drag on a nested element *)

Lemma flat_map_rev_short {A B : Type} (f : A -> list B) (l : list A) :
  (forall x, List.length (f x) <= 1) ->
  flat_map f (rev l) = rev (flat_map f l).
Proof.
  intros Hf. induction l as [|a l IH]; [reflexivity|].
  cbn [rev flat_map]. rewrite flat_map_app, IH, rev_app_distr. cbn [flat_map].
  rewrite app_nil_r. f_equal.
  specialize (Hf a). destruct (f a) as [|b [|b' r]]; [reflexivity|reflexivity|].
  simpl in Hf. lia.
Qed.

Lemma clickListener_short (x : Element) : List.length (map snd (clickListener x)) <= 1.
Proof.
  unfold clickListener. destruct (getAttribute ELEMENT_ID x) as [id|]; [|simpl; lia].
  destruct (truthy id); simpl; lia.
Qed.

Lemma outermostTagged_first (path : list Element) :
  outermostTagged path = hd_error (flat_map (fun x => map snd (clickListener x)) path).
Proof.
  induction path as [|x rest IH]; [reflexivity|].
  cbn [outermostTagged flat_map]. unfold clickListener at 1.
  destruct (getAttribute ELEMENT_ID x) as [id|]; [|exact IH].
  destruct (truthy id); [reflexivity | exact IH].
Qed.

Lemma listeners_truthy (path : list Element) (id : string) :
  In id (flat_map (fun x => map snd (clickListener x)) path) -> truthy id = true.
Proof.
  induction path as [|x rest IH]; [intros []|].
  cbn [flat_map]. intros H. apply in_app_or in H as [H|H]; [|exact (IH H)].
  unfold clickListener in H. destruct (getAttribute ELEMENT_ID x) as [v|]; [|destruct H].
  destruct (truthy v) eqn:E; [|destruct H]. destruct H as [<-|[]]. exact E.
Qed.

Lemma listenersAt_path (e : Element) (cs : list Node) (path : list Element) :
  NoDup (forestIds cs) -> incl path (forestElements cs) ->
  flat_map (fun x => listenersAt (clickListeners (ElementNode e cs)) (nid x)) path
  = flat_map (fun x => map snd (clickListener x)) path.
Proof.
  intros Hnd. unfold clickListeners, querySelectorAll, descendantElements.
  cbn [childrenOf]. change (flat_map elements cs) with (forestElements cs).
  rewrite clickListeners_all.
  induction path as [|x rest IH]; intros Hin; [reflexivity|].
  cbn [flat_map]. unfold listenersAt at 1.
  rewrite (one_listener_each (forestElements cs) x Hnd) by (apply Hin; left; reflexivity).
  f_equal. apply IH. intros y Hy. apply Hin. right. exact Hy.
Qed.

Lemma handleExistingElementDragStart_state (elementId : string) (w : World) :
  truthy elementId = true ->
  draggedElementId (dragState (handleExistingElementDragStart true elementId w))
  = Some elementId
  /\ effects (handleExistingElementDragStart true elementId w)
     = effects w ++ [SetData ("existing:" ++ elementId)%string].
Proof.
  intros Ht. unfold handleExistingElementDragStart. rewrite Ht. cbn [negb orb].
  cbn [contentRef emit setDragState].
  destruct (contentRef w) as [c|]; [|split; reflexivity].
  destruct (querySelector (hasElementId elementId) c); split; reflexivity.
Qed.

(** The path of an event below the container. *)
Lemma eventPath_below (e : Element) (cs : list Node) (target : NodeId)
  (path : list Element) :
  uniqueIds (ElementNode e cs) ->
  eventPath (ElementNode e cs) target = Some path ->
  exists rest, path = e :: rest /\ incl rest (forestElements cs).
Proof.
  intros Hu Hp. apply uniqueIds_node in Hu as [Hroot Hnd].
  unfold eventPath in Hp. rewrite ancestorsOf_node, findNode_node in Hp.
  destruct (Nat.eqb (nid e) target) eqn:Et.
  - injection Hp as <-. exists []. split; [reflexivity | apply incl_nil_l].
  - destruct (ancestorsOfList target cs) as [p'|] eqn:Ea; [|discriminate].
    cbn [option_map] in Hp.
    destruct (findNodeList target cs) as [[s|x below]|] eqn:Ef; try discriminate.
    injection Hp as <-. exists (p' ++ [x]). split; [reflexivity|].
    apply incl_app.
    + clear -Ea. revert p' Ea. induction cs as [|c l IH]; intros p' Ea; [discriminate|].
      cbn [ancestorsOfList] in Ea. rewrite forestElements_cons.
      destruct (ancestorsOf target c) as [q|] eqn:Ec.
      * injection Ea as ->. apply incl_appl. eapply ancestorsOf_incl. exact Ec.
      * apply incl_appr. apply IH. exact Ea.
    + intros y [<-|[]].
      pose proof (findNode_sound target (ElementNode e cs) x below) as H.
      rewrite findNode_node, Et in H. destruct (H Ef) as [H1 H2].
      rewrite elements_node in H1. destruct H1 as [<-|H1]; [|exact H1].
      rewrite H2, Nat.eqb_refl in Et. discriminate.
Qed.

(** X25.  Which element a drag takes.  With the [dragstart] listeners as
    [attachEventListeners] adds them, in a container whose nodes have one
    identity each, a drag that starts at an element with an element with a
    non-empty identifier on the way from the container down to it ends
    with the identifier of the outermost such element as the dragged
    element, and with the payload of a reorder of that element as the
    last payload put on the drag: the event bubbles, every listener on
    the way runs, and the outermost one runs last. *)
Theorem dragStart_takes_outermost (w : World) (e : Element) (cs : list Node)
  (target : NodeId) (path : list Element) (id : string) :
  contentRef w = Some (ElementNode e cs) ->
  uniqueIds (ElementNode e cs) ->
  eventPath (ElementNode e cs) target = Some path ->
  outermostTagged (tl path) = Some id ->
  draggedElementId
    (dragState (dragStart (dragStartListeners true (ElementNode e cs)) true target w))
  = Some id
  /\ last (effects (dragStart (dragStartListeners true (ElementNode e cs)) true target w))
       (SetData EmptyString)
     = SetData (reorderPayload id).
Proof.
  intros Hc Hu Hp Hid. unfold dragStart, dragStartListeners. rewrite Hc, Hp.
  destruct (eventPath_below e cs target path Hu Hp) as (rest & -> & Hin).
  apply uniqueIds_node in Hu as [Hroot Hnd].
  cbn [tl] in Hid. cbn [rev]. rewrite flat_map_app. cbn [flat_map].
  assert (Hnone : listenersAt (clickListeners (ElementNode e cs)) (nid e) = []).
  { unfold listenersAt, clickListeners, querySelectorAll, descendantElements.
    cbn [childrenOf]. change (flat_map elements cs) with (forestElements cs).
    rewrite clickListeners_all, (no_listener_elsewhere _ _ Hroot). reflexivity. }
  rewrite Hnone, !app_nil_r.
  rewrite (listenersAt_path e cs (rev rest) Hnd)
    by (intros y Hy; apply Hin; apply in_rev; exact Hy).
  rewrite (flat_map_rev_short _ rest clickListener_short).
  rewrite outermostTagged_first in Hid.
  pose proof (listeners_truthy rest) as Htr.
  destruct (flat_map (fun x => map snd (clickListener x)) rest) as [|id0 others];
    [discriminate|].
  injection Hid as ->. cbn [rev]. rewrite fold_left_app. cbn [fold_left].
  destruct (handleExistingElementDragStart_state id
              (fold_left (fun w0 elementId => handleExistingElementDragStart true elementId w0)
                 (rev others) w)) as [Hd He].
  { apply Htr. left. reflexivity. }
  split; [exact Hd|]. rewrite He. apply last_last.
Qed.

(** The property on the nested list: a drag that starts at the item [y]. *)
Lemma dragStart_takes_outermost_witness :
  draggedElementId
    (dragState
       (dragStart
          (dragStartListeners true
             (ElementNode (createElement 0 "DIV")
                (childrenOf (match contentRef nestedList with
                             | Some c => c | None => TextNode EmptyString end))))
          true 3 nestedList))
  = Some "u"
  /\ last (effects
             (dragStart
                (dragStartListeners true
                   (ElementNode (createElement 0 "DIV")
                      (childrenOf (match contentRef nestedList with
                                   | Some c => c | None => TextNode EmptyString end))))
                true 3 nestedList))
       (SetData EmptyString)
     = SetData (reorderPayload "u").
Proof.
  apply (dragStart_takes_outermost nestedList (createElement 0 "DIV")
           (childrenOf (match contentRef nestedList with
                        | Some c => c | None => TextNode EmptyString end))
           3
           (match eventPath
                    (ElementNode (createElement 0 "DIV")
                       (childrenOf (match contentRef nestedList with
                                    | Some c => c | None => TextNode EmptyString end)))
                    3
            with Some p => p | None => [] end)
           "u").
  - vm_compute. reflexivity.
  - unfold uniqueIds. vm_compute. repeat constructor; simpl; intuition discriminate.
  - vm_compute. reflexivity.
  - vm_compute. reflexivity.
Defined.

(** Both listeners have run: the item and the list are dimmed, and the
    payload of the item was replaced by the one of the list. *)
Example drag_of_item_takes_list :
  (let w := dragStart
              (match contentRef nestedList with
               | Some c => dragStartListeners true c | None => [] end)
              true 3 nestedList in
   (effects w,
    option_map (fun c => map (fun x => (getAttribute ELEMENT_ID x,
                                        getPropertyValue "opacity" x))
                           (descendantElements c)) (contentRef w)))
  = ([SetData "existing:y"; SetData "existing:u"],
     Some [(Some "u", "0.7"); (Some "x", ""); (Some "y", "0.7")]).
Proof. vm_compute. reflexivity. Qed.

(* ------------------------------------------------------------------ *)
(** ** Style updates *)




(** The names the sidebar passes, as CSS properties; and the page that is
    saved when the font size of the selected paragraph [a] is set. *)
Example sidebar_font_size :
  map cssPropertyName ["fontSize"; "textAlign"; "marginTop"; "marginBottom"; "padding"]
  = ["font-size"; "text-align"; "margin-top"; "margin-bottom"; "padding"]
  /\ savedContents
       (fst (updateElementStyle refBrowser (fun _ => false) (fun _ x => Some x)
               "fontSize" "18px" (Some "a")
               (onePage EmptyString, selectElement (Some "a") twoParagraphs)))
     = [(taggedParagraph "a" "color: #111827; font-size: 18px;" "A"
         ++ taggedParagraph "b" "color: #111827;" "B")%string].
Proof. split; vm_compute; reflexivity. Qed.
